(** * bentopdf-pymupdf-wasm: the document handle and its generated scripts

    A shallow embedding of [src/document.ts] and of the stand-alone
    operations of [src/pymupdf.ts] that carry logic of their own: [split],
    [compressPdf], [pdfToImages], [textToPdf], [convertToPdf],
    [convertPdfToRgb], [open], [create] and the constructor.

    The TypeScript layer generates Python source and hands it to the embedded
    interpreter.  The scripts that carry logic of their own (the reader and
    the editor of the optional-content ordering array) are embedded here as
    functions over Python strings; the calls that only delegate to the PDF
    engine are kept as calls to an abstract interpreter. *)

From Stdlib Require Import ZArith NArith Lia List Ascii String Bool.
From Stdlib Require Import DecimalString.
From Stdlib Require DecimalPos DecimalN.
From Stdlib Require Import Floats.PrimFloat Floats.SpecFloat Floats.FloatOps.
From stdpp Require Import base option list sorting gmap strings.

Import ListNotations.
Local Open Scope Z_scope.
Local Open Scope list_scope.

(** ** Python strings

    A Python [str] is modelled as the list of its code points; the texts the
    scripts handle are PDF syntax, so a code point is one [ascii] (0..255). *)

Module Py.

Definition str := list ascii.

Definition of_string (s : string) : str := list_ascii_of_string s.

Definition chr_lbracket : ascii := "["%char.
Definition chr_rbracket : ascii := "]"%char.
Definition chr_lparen : ascii := "("%char.
Definition chr_rparen : ascii := ")"%char.
Definition chr_space : ascii := " "%char.

Definition eqc (a b : ascii) : bool := Ascii.eqb a b.

(** [str.isspace] on one code point below 256: TAB..CR, FS..US, space,
    NEL and NBSP.  The pattern class [\s] matches the same code points. *)
Definition isspace (c : ascii) : bool :=
  let n := nat_of_ascii c in
  ((9 <=? n) && (n <=? 13) || (28 <=? n) && (n <=? 32)
   || (n =? 133) || (n =? 160))%nat.

(** The pattern class [\d] below 256: the ten decimal digits. *)
Definition isdecimal (c : ascii) : bool :=
  let n := nat_of_ascii c in ((48 <=? n) && (n <=? 57))%nat.

(** [str.isdigit] below 256 also accepts the superscripts 2, 3 and 1. *)
Definition isdigit (c : ascii) : bool :=
  let n := nat_of_ascii c in
  isdecimal c || ((n =? 178) || (n =? 179) || (n =? 185))%nat.

(** [s.startswith(p)] *)
Fixpoint startswith (p s : str) : bool :=
  match p, s with
  | [], _ => true
  | _ :: _, [] => false
  | a :: p', b :: s' => eqc a b && startswith p' s'
  end.

(** [s.endswith(p)] *)
Definition endswith (p s : str) : bool := startswith (rev p) (rev s).

(** [s.find(p)]: index of the first occurrence, [None] for Python's -1. *)
Fixpoint find (p s : str) : option nat :=
  if startswith p s then Some O
  else match s with
       | [] => None
       | _ :: s' => S <$> find p s'
       end.

(** Leading characters satisfying [f], and the rest. *)
Fixpoint span (f : ascii -> bool) (s : str) : str * str :=
  match s with
  | [] => ([], [])
  | c :: s' => if f c then let '(a, b) := span f s' in (c :: a, b)
               else ([], s)
  end.

Definition lstrip (s : str) : str := snd (span isspace s).
Definition rstrip (s : str) : str := rev (lstrip (rev s)).
(** [s.strip()] *)
Definition strip (s : str) : str := rstrip (lstrip s).

(** [s[a:b]] for [0 <= a] and [0 <= b]. *)
Definition slice (s : str) (a b : nat) : str := firstn (b - a) (skipn a s).

(** [s[1:-1]] *)
Definition slice_1_m1 (s : str) : str := slice s 1 (length s - 1).

(** [int(d)] on a string of decimal digits. *)
Definition digit_val (c : ascii) : N := N.of_nat (nat_of_ascii c - 48).
Definition int_of_digits (d : str) : N :=
  fold_left (fun acc c => (acc * 10 + digit_val c)%N) d 0%N.

(** [str(n)], as the f-strings [f"{n} 0 R"] print a number. *)
Definition str_of_N (n : N) : str :=
  of_string (NilZero.string_of_uint (N.to_uint n)).

(** [f"{n} 0 R"] *)
Definition ref_token (n : N) : str := str_of_N n ++ of_string " 0 R".

(** *** The two patterns of the scripts

    Both patterns are deterministic: a run of digits must be followed by
    white space and a run of white space by a character that is not white
    space, so the greedy match is the only candidate. *)

(** [re.match(r'(\d+)\s+0\s+R', s)]: the number and the length matched. *)
Definition match_ref (s : str) : option (N * nat) :=
  let '(ds, r1) := span isdecimal s in
  match ds with
  | [] => None
  | _ =>
    let '(w1, r2) := span isspace r1 in
    match w1, r2 with
    | _ :: _, z :: r3 =>
      if eqc z "0"%char then
        let '(w2, r4) := span isspace r3 in
        match w2, r4 with
        | _ :: _, c :: _ =>
          if eqc c "R"%char
          then Some (int_of_digits ds,
                     (length ds + length w1 + 1 + length w2 + 1)%nat)
          else None
        | _, _ => None
        end
      else None
    | _, _ => None
    end
  end.

(** [re.match(r'(\d+)\s+\d+\s+R', s)]: any generation number. *)
Definition match_indirect (s : str) : option N :=
  let '(ds, r1) := span isdecimal s in
  match ds with
  | [] => None
  | _ =>
    let '(w1, r2) := span isspace r1 in
    match w1 with
    | [] => None
    | _ =>
      let '(gs, r3) := span isdecimal r2 in
      match gs with
      | [] => None
      | _ =>
        let '(w2, r4) := span isspace r3 in
        match w2, r4 with
        | _ :: _, c :: _ =>
          if eqc c "R"%char then Some (int_of_digits ds) else None
        | _, _ => None
        end
      end
    end
  end.

(** [re.search(r'(\d+)\s+\d+\s+R', s)]: the leftmost match. *)
Fixpoint search_indirect (s : str) : option N :=
  match match_indirect s with
  | Some n => Some n
  | None => match s with
            | [] => None
            | _ :: s' => search_indirect s'
            end
  end.

(** [re.findall(r'(\d+)\s+0\s+R', s)]: the matches from left to right,
    each search resuming where the previous match ended. *)
Fixpoint findall_refs_from (fuel : nat) (s : str) : list N :=
  match fuel with
  | O => []
  | S fuel' =>
    match match_ref s with
    | Some (n, len) => n :: findall_refs_from fuel' (skipn len s)
    | None => match s with
              | [] => []
              | _ :: s' => findall_refs_from fuel' s'
              end
    end
  end.

Definition findall_refs (s : str) : list N :=
  findall_refs_from (S (length s)) s.

End Py.

(** ** The editor of the ordering array: [modify_pdf_order]

    The helper that [addOCGWithParent] defines inside its script
    (document.ts, lines 508-607). *)

Module Editor.
Import Py.

(** The boundary test of step 1:
    [len(chunk) == len(c_ref) or chunk[len(c_ref)] in ' ]']. *)
Definition boundary_ok (c_ref chunk : str) : bool :=
  match nth_error chunk (length c_ref) with
  | None => true
  | Some ch => eqc ch chr_space || eqc ch chr_rbracket
  end.

(** Step 1, the [while i < len(order_string)] loop.  [rest] is
    [order_string[i:]]; the result is what the loop appends to
    [cleaned_order] from there on.  Every iteration but the one that removes
    the token consumes a character, so [S (length order_string)] iterations
    are enough. *)
Fixpoint remove_child_loop (fuel : nat) (c_ref rest : str)
    (depth : Z) (removed : bool) : str :=
  match fuel with
  | O => []
  | S fuel' =>
    match rest with
    | [] => []
    | char :: rest' =>
      if eqc char chr_lbracket then
        char :: remove_child_loop fuel' c_ref rest' (depth + 1) removed
      else if eqc char chr_rbracket then
        char :: remove_child_loop fuel' c_ref rest' (depth - 1) removed
      else
        let is_match :=
          negb removed && (depth =? 1) &&
          startswith c_ref rest && boundary_ok c_ref rest in
        if is_match then
          remove_child_loop fuel' c_ref
            (lstrip (skipn (length c_ref) rest)) depth true
        else
          char :: remove_child_loop fuel' c_ref rest' depth removed
    end
  end.

Definition remove_child_from_root (order_string c_ref : str) : str :=
  remove_child_loop (S (length order_string)) c_ref order_string 0 false.

(** [for k in range(scan_idx, len(final_order))]: the offset of the first
    character that is not white space. *)
Fixpoint first_nonspace (s : str) : option nat :=
  match s with
  | [] => None
  | c :: s' => if isspace c then S <$> first_nonspace s' else Some O
  end.

(** [for k in range(next_char_idx + 1, len(final_order))]: the offset at
    which [arr_depth] reaches zero. *)
Fixpoint find_close (s : str) (arr_depth : Z) : option nat :=
  match s with
  | [] => None
  | c :: s' =>
    let arr_depth' :=
      if eqc c chr_lbracket then arr_depth + 1
      else if eqc c chr_rbracket then arr_depth - 1
      else arr_depth in
    if arr_depth' =? 0 then Some O else S <$> find_close s' arr_depth'
  end.

(** Step 2: where the child goes, as [(is_existing_array, insertion_point)];
    [None] is the [-1] of the script. *)
Definition insertion (final_order : str) (scan_idx : nat) : bool * option nat :=
  match (fun k => (scan_idx + k)%nat) <$> first_nonspace (skipn scan_idx final_order) with
  | Some next_char_idx =>
    match nth_error final_order next_char_idx with
    | Some c =>
      if eqc c chr_lbracket then
        (true,
         (fun k => (next_char_idx + 1 + k)%nat) <$>
           find_close (skipn (next_char_idx + 1) final_order) 1)
      else (false, Some scan_idx)
    | None => (false, Some scan_idx)
    end
  | None => (false, Some scan_idx)
  end.

Definition insert_child (final_order p_ref c_ref : str) : str :=
  match find p_ref final_order with
  | None => final_order
  | Some p_idx =>
    let scan_idx := (p_idx + length p_ref)%nat in
    match insertion final_order scan_idx with
    | (_, None) => final_order
    | (is_existing_array, Some insertion_point) =>
      let prefix := firstn insertion_point final_order in
      let suffix := skipn insertion_point final_order in
      if is_existing_array
      then prefix ++ of_string " " ++ c_ref ++ suffix
      else prefix ++ of_string " [" ++ c_ref ++ of_string "]" ++ suffix
    end
  end.

Definition modify_pdf_order (order_string p_ref c_ref : str) : str :=
  match order_string with
  | [] => order_string
  | _ =>
    let cleaned_order := remove_child_from_root order_string c_ref in
    insert_child cleaned_order p_ref c_ref
  end.

End Editor.

(** ** The PDF engine as the scripts see it

    The scripts reach the document through four calls of the engine:
    [layer_ui_configs()], [pdf_catalog()], [xref_get_key(xref, key)] and
    [xref_set_key(xref, key, value)].  [xref_get_key] answers with a pair
    (type, value), both strings; [None] stands for a call that raises. *)

Module Engine.
Import Py.

Record UiLayer := {
  ui_number : N;
  ui_text : str;
  ui_on : bool;
  ui_locked : bool
}.

Record Doc := {
  layer_ui_configs : list UiLayer;
  pdf_catalog : N;
  xref_get_key : N -> string -> option (string * str)
}.

Definition xref_set_key (d : Doc) (xref : N) (key : string) (value : str) : Doc :=
  {| layer_ui_configs := layer_ui_configs d;
     pdf_catalog := pdf_catalog d;
     xref_get_key := fun x k =>
       if (x =? xref)%N && String.eqb k key
       then Some ("array"%string, value)
       else xref_get_key d x k |}.

End Engine.

(** ** The read path: the script of [getLayerConfig] *)

Module Reader.
Import Py Engine.

(** One entry of [layer_map], which is also one [OCGInfo] of the result. *)
Record LayerInfo := {
  number : N;
  text : str;
  on : bool;
  locked : bool;
  depth : N;
  xref : N;
  parentXref : N;
  displayOrder : N
}.

Definition set_xref (x : N) (i : LayerInfo) : LayerInfo :=
  {| number := number i; text := text i; on := on i; locked := locked i;
     depth := depth i; xref := x; parentXref := parentXref i;
     displayOrder := displayOrder i |}.

(** The three assignments of [parse_order_array] to [layer_map[num]]. *)
Definition set_position (d p o : N) (i : LayerInfo) : LayerInfo :=
  {| number := number i; text := text i; on := on i; locked := locked i;
     depth := d; xref := xref i; parentXref := p; displayOrder := o |}.

(** [layer_map] is a Python dict, which keeps its keys in insertion order:
    an association list with one entry per key. *)
Definition layer_map_t := list (N * LayerInfo).

Fixpoint dict_set (k : N) (v : LayerInfo) (m : layer_map_t) : layer_map_t :=
  match m with
  | [] => [(k, v)]
  | (k', v') :: m' =>
    if (k' =? k)%N then (k, v) :: m' else (k', v') :: dict_set k v m'
  end.

(** [layer_map[num][field] = ...] on an entry that exists. *)
Definition dict_update (k : N) (f : LayerInfo -> LayerInfo) (m : layer_map_t)
  : layer_map_t :=
  map (fun kv => if (fst kv =? k)%N then (fst kv, f (snd kv)) else kv) m.

Definition values (m : layer_map_t) : list LayerInfo := map snd m.

(** The first loop: [for layer in layers: layer_map[num] = {...}]. *)
Definition initial_info (l : UiLayer) : LayerInfo :=
  {| number := ui_number l; text := ui_text l; on := ui_on l;
     locked := ui_locked l; depth := 0; xref := 0; parentXref := 0;
     displayOrder := 0 |}.

Definition initial_layer_map (layers : list UiLayer) : layer_map_t :=
  fold_left (fun m l => dict_set (ui_number l) (initial_info l) m) layers [].

(** *** Locating the two arrays (lines 327-350) *)

Definition truthy (s : str) : bool := negb (Nat.eqb (length s) 0).

(** [(ocgs_str, order_str)]; the outer [None] is a raised exception, an
    inner [None] the Python [None] the variables start with. *)
Definition locate (d : Doc) : option (option str * option str) :=
  let catalog_xref := pdf_catalog d in
  '(t, ocprop_val) ← xref_get_key d catalog_xref "OCProperties";
  if String.eqb t "dict" then
    '(t_ocg, ocgs_str) ← xref_get_key d catalog_xref "OCProperties/OCGs";
    '(t2, order_str) ← xref_get_key d catalog_xref "OCProperties/D/Order";
    Some (Some ocgs_str, Some order_str)
  else if negb (String.eqb t "null") then
    match search_indirect ocprop_val with
    | Some ocprop_xref =>
      '(t_ocg, ocgs_str) ← xref_get_key d ocprop_xref "OCGs";
      '(t2, d_val) ← xref_get_key d ocprop_xref "D";
      if String.eqb t2 "dict" then
        '(t2, order_str) ← xref_get_key d ocprop_xref "D/Order";
        Some (Some ocgs_str, Some order_str)
      else if negb (String.eqb t2 "null") then
        match search_indirect d_val with
        | Some d_xref =>
          '(t2, order_str) ← xref_get_key d d_xref "Order";
          Some (Some ocgs_str, Some order_str)
        | None => Some (Some ocgs_str, None)
        end
      else Some (Some ocgs_str, None)
    | None => Some (None, None)
    end
  else Some (None, None).

(** *** Resolving the references of the groups (lines 353-376) *)

(** [name_to_num[info['text']] = num] for every entry of [layer_map]. *)
Definition build_name_to_num (m : layer_map_t) : gmap str N :=
  fold_left (fun acc kv => <[text (snd kv) := fst kv]> acc) m ∅.

(** The name of a group without its parentheses. *)
Definition ocg_name_of (name_val : str) : str :=
  let ocg_name := strip name_val in
  if startswith [chr_lparen] ocg_name && endswith [chr_rparen] ocg_name
  then slice_1_m1 ocg_name else ocg_name.

(** The mutable state of the script: [layer_map], [xref_to_num] and the
    counter [display_order]. *)
Record State := {
  layer_map : layer_map_t;
  xref_to_num : gmap N N;
  display_order : N
}.

(** A step of the [try] block either completes or raises; the state it
    reached is kept in both cases, as [except: pass] keeps it. *)
Inductive outcome := Done (st : State) | Raised (st : State).

Definition state_of (o : outcome) : State :=
  match o with Done st => st | Raised st => st end.

(** [for xref in ocg_xrefs: ...] *)
Fixpoint resolve_xrefs (d : Doc) (name_to_num : gmap str N)
    (ocg_xrefs : list N) (st : State) : outcome :=
  match ocg_xrefs with
  | [] => Done st
  | xref :: more =>
    match xref_get_key d xref "Name" with
    | None => Raised st
    | Some (t_name, name_val) =>
      if negb (String.eqb t_name "null") && truthy name_val then
        match name_to_num !! ocg_name_of name_val with
        | Some num =>
          resolve_xrefs d name_to_num more
            {| layer_map := dict_update num (set_xref xref) (layer_map st);
               xref_to_num := <[xref := num]> (xref_to_num st);
               display_order := display_order st |}
        | None => resolve_xrefs d name_to_num more st
        end
      else resolve_xrefs d name_to_num more st
    end
  end.

(** *** The scanner of the ordering array (lines 388-432) *)

(** The inner [while j < len(order_val) and bracket_depth > 0] loop:
    [j - start] when it stops, [s] being [order_val[start:]]. *)
Fixpoint scan_close (s : str) (bracket_depth : nat) : nat :=
  match bracket_depth with
  | O => O
  | S _ =>
    match s with
    | [] => O
    | c :: s' =>
      S (scan_close s'
           (if eqc c chr_lbracket then S bracket_depth
            else if eqc c chr_rbracket then Nat.pred bracket_depth
            else bracket_depth))
    end
  end.

(** The assignment to a group that [xref_to_num] knows. *)
Definition assign (xref depth parent_xref : N) (st : State) : State :=
  match xref_to_num st !! xref with
  | Some num =>
    {| layer_map :=
         dict_update num (set_position depth parent_xref (display_order st))
           (layer_map st);
       xref_to_num := xref_to_num st;
       display_order := (display_order st + 1)%N |}
  | None => st
  end.

(** The [while i < len(order_val)] loop of one call of [parse_order_array];
    [rest] is [order_val[i:]].  [frames] is the number of calls the Python
    stack still admits below this one: a nested call beyond it raises
    [RecursionError].  What the interpreter raises elsewhere is the matter
    of [parse_loop_until] below.  [fuel] bounds the iterations; [None] means
    it ran out, which [S (length order_val)] never does. *)
Fixpoint parse_loop (fuel frames : nat) (rest : str)
    (depth parent_xref last_xref : N) (st : State) : option outcome :=
  match fuel with
  | O => None
  | S fuel' =>
    match rest with
    | [] => Some (Done st)
    | char :: rest' =>
      if eqc char chr_lbracket then
        let k := scan_close rest' 1 in
        let nested_content := firstn (k - 1) rest' in
        match frames with
        | O => Some (Raised st)
        | S frames' =>
          match parse_loop fuel' frames' nested_content
                  (depth + 1) last_xref 0 st with
          | Some (Done st') =>
            parse_loop fuel' frames (skipn k rest')
              depth parent_xref last_xref st'
          | r => r
          end
        end
      else if eqc char chr_rbracket then
        parse_loop fuel' frames rest' depth parent_xref last_xref st
      else if isdigit char then
        match match_ref rest with
        | Some (xref, len) =>
          parse_loop fuel' frames (skipn len rest)
            depth parent_xref xref (assign xref depth parent_xref st)
        | None =>
          parse_loop fuel' frames rest' depth parent_xref last_xref st
        end
      else
        parse_loop fuel' frames rest' depth parent_xref last_xref st
    end
  end.

(** [parse_order_array(order_val, depth, parent_xref)] *)
Definition parse_order_array (frames : nat) (order_val : str)
    (depth parent_xref : N) (st : State) : option outcome :=
  match frames with
  | O => Some (Raised st)
  | S frames' =>
    parse_loop (S (length order_val)) frames' order_val depth parent_xref 0 st
  end.

(** [inner_order]: the ordering array without its outer brackets. *)
Definition inner_order_of (order_str : str) : str :=
  let inner_order := strip order_str in
  if startswith [chr_lbracket] inner_order && endswith [chr_rbracket] inner_order
  then slice_1_m1 inner_order else inner_order.

(** *** The [try] block and the result *)

Definition resolve_step (d : Doc) (ocgs_str : option str) (st : State) : outcome :=
  match ocgs_str with
  | Some s =>
    if truthy s
    then resolve_xrefs d (build_name_to_num (layer_map st)) (findall_refs s) st
    else Done st
  | None => Done st
  end.

Definition order_step (frames : nat) (order_str : option str) (st : State)
  : option outcome :=
  match order_str with
  | Some s =>
    if truthy s
    then parse_order_array frames (inner_order_of s) 0 0
           {| layer_map := layer_map st; xref_to_num := xref_to_num st;
              display_order := 0 |}
    else Some (Done st)
  | None => Some (Done st)
  end.

Definition try_block (frames : nat) (d : Doc) (st : State) : option outcome :=
  match locate d with
  | None => Some (Raised st)
  | Some (ocgs_str, order_str) =>
    match resolve_step d ocgs_str st with
    | Done st1 => order_step frames order_str st1
    | Raised st1 => Some (Raised st1)
    end
  end.

(** [sorted(layer_map.values(), key=displayOrder)]: Python's sort is
    stable, and so is this insertion from the right. *)
Fixpoint insert_sorted (x : LayerInfo) (l : list LayerInfo) : list LayerInfo :=
  match l with
  | [] => [x]
  | y :: l' =>
    if (displayOrder x <=? displayOrder y)%N then x :: y :: l'
    else y :: insert_sorted x l'
  end.

Definition sorted (l : list LayerInfo) : list LayerInfo :=
  fold_right insert_sorted [] l.

Definition initial_state (d : Doc) : State :=
  {| layer_map := initial_layer_map (layer_ui_configs d);
     xref_to_num := ∅; display_order := 0 |}.

(** The state when the [try] block is left, one way or the other. *)
Definition final_state (frames : nat) (d : Doc) : option State :=
  state_of <$> try_block frames d (initial_state d).

(** The script of [getLayerConfig], after [JSON.parse]. *)
Definition getLayerConfig (frames : nat) (d : Doc) : option (list LayerInfo) :=
  (fun st => sorted (values (layer_map st))) <$> final_state frames d.

(** *** The traversal on its own

    The references the scanner matches, in the order it meets them, each
    with the depth and the parent the scanner holds at that point.  The
    recursion is the one of [parse_loop]; the flag is [false] when the
    traversal raised. *)

Definition visit := (N * N * N)%type.

Fixpoint visit_loop (fuel frames : nat) (rest : str)
    (depth parent_xref last_xref : N) : option (list visit * bool) :=
  match fuel with
  | O => None
  | S fuel' =>
    match rest with
    | [] => Some ([], true)
    | char :: rest' =>
      if eqc char chr_lbracket then
        let k := scan_close rest' 1 in
        let nested_content := firstn (k - 1) rest' in
        match frames with
        | O => Some ([], false)
        | S frames' =>
          match visit_loop fuel' frames' nested_content
                  (depth + 1) last_xref 0 with
          | Some (vs, true) =>
            match visit_loop fuel' frames (skipn k rest')
                    depth parent_xref last_xref with
            | Some (ws, ok) => Some (vs ++ ws, ok)
            | None => None
            end
          | r => r
          end
        end
      else if eqc char chr_rbracket then
        visit_loop fuel' frames rest' depth parent_xref last_xref
      else if isdigit char then
        match match_ref rest with
        | Some (xref, len) =>
          match visit_loop fuel' frames (skipn len rest)
                  depth parent_xref xref with
          | Some (ws, ok) => Some ((xref, depth, parent_xref) :: ws, ok)
          | None => None
          end
        | None =>
          visit_loop fuel' frames rest' depth parent_xref last_xref
        end
      else
        visit_loop fuel' frames rest' depth parent_xref last_xref
    end
  end.

Definition visit_order_array (frames : nat) (order_val : str)
    (depth parent_xref : N) : option (list visit * bool) :=
  match frames with
  | O => Some ([], false)
  | S frames' =>
    visit_loop (S (length order_val)) frames' order_val depth parent_xref 0
  end.

(** The visits to references that [xref_to_num] knows, as
    (number of the group, depth, parent). *)
Definition resolved (xmap : gmap N N) (vs : list visit) : list visit :=
  omap (fun v : visit =>
          let '(x, d, p) := v in (fun num => (num, d, p)) <$> xmap !! x) vs.

(** The last visit to group [num], with its rank among the visits. *)
Fixpoint last_visit_from (k : nat) (num : N) (vs : list visit)
    (acc : option (nat * N * N)) : option (nat * N * N) :=
  match vs with
  | [] => acc
  | (m, d, p) :: vs' =>
    last_visit_from (S k) num vs'
      (if (m =? num)%N then Some (k, d, p) else acc)
  end.

Definition last_visit (num : N) (vs : list visit) : option (nat * N * N) :=
  last_visit_from 0 num vs None.

(** The state in which the scanner starts: the references resolved. *)
Definition state_before_order (d : Doc) : option (outcome * option str) :=
  '(ocgs_str, order_str) ← locate d;
  Some (resolve_step d ocgs_str (initial_state d), order_str).

(** The visits the read path makes on a document before it finishes or
    fails. *)
Definition visits (frames : nat) (d : Doc) : list visit :=
  match state_before_order d with
  | Some (Done st1, Some s) =>
    if truthy s then
      match visit_order_array frames (inner_order_of s) 0 0 with
      | Some (vs, _) => resolved (xref_to_num st1) vs
      | None => []
      end
    else []
  | _ => []
  end.

(** What one visit does to the state. *)
Definition apply_visit (st : State) (v : visit) : State :=
  let '(x, d, p) := v in assign x d p st.

(** The place a list of resolved visits gives to the entry of group [key],
    the first of them having rank [k]. *)
Definition place (rv : list visit) (k : nat) (key : N) (i : LayerInfo) : LayerInfo :=
  match last_visit_from k key rv None with
  | Some (j, d, p) => set_position d p (N.of_nat j) i
  | None => i
  end.

(** (depth, parent, display order) after a last visit, or the defaults. *)
Definition expected (lv : option (nat * N * N)) : N * N * N :=
  match lv with
  | Some (j, d, p) => (d, p, N.of_nat j)
  | None => (0, 0, 0)%N
  end.

(** The descriptor of a group without its place in the hierarchy. *)
Definition flat (i : LayerInfo) : N * str * bool * bool :=
  (number i, text i, on i, locked i).

Definition position (i : LayerInfo) : N * N * N :=
  (depth i, parentXref i, displayOrder i).

(** An entry as the first loop makes it: filed under its own number, at the
    default place. *)
Definition tidy (kv : N * LayerInfo) : Prop :=
  number (snd kv) = fst kv /\ position (snd kv) = (0, 0, 0)%N.

(** An entry in its final place: filed under its own number, where its
    last visit put it, or at the default place when it has none. *)
Definition placed (vs : list visit) (kv : N * LayerInfo) : Prop :=
  number (snd kv) = fst kv
  /\ position (snd kv) = expected (last_visit (fst kv) vs).






(** *** The [try] block left at any point

    The block can be left where the definitions above let it go on: CPython
    raises [RecursionError] inside [re.match] when the stack is nearly full,
    in a frame that was entered, and [ValueError] in [int] on more than 4300
    digits.  Whatever is raised, and wherever, [except: pass] keeps the state
    reached, and the state changes only where [layer_map] is updated.
    [updates] is the number of updates the block completes before something
    is raised; it is [None] when nothing is raised but what the engine and
    the stack of [frames] raise.  The code is the one of [resolve_xrefs] and
    [parse_loop]. *)

Definition spend (updates : option nat) : option (option nat) :=
  match updates with
  | None => Some None
  | Some O => None
  | Some (S n) => Some (Some n)
  end.

Fixpoint resolve_xrefs_until (d : Doc) (name_to_num : gmap str N)
    (ocg_xrefs : list N) (updates : option nat) (st : State)
  : outcome * option nat :=
  match ocg_xrefs with
  | [] => (Done st, updates)
  | xref :: more =>
    match xref_get_key d xref "Name" with
    | None => (Raised st, updates)
    | Some (t_name, name_val) =>
      if negb (String.eqb t_name "null") && truthy name_val then
        match name_to_num !! ocg_name_of name_val with
        | Some num =>
          match spend updates with
          | Some updates' =>
            resolve_xrefs_until d name_to_num more updates'
              {| layer_map := dict_update num (set_xref xref) (layer_map st);
                 xref_to_num := <[xref := num]> (xref_to_num st);
                 display_order := display_order st |}
          | None => (Raised st, updates)
          end
        | None => resolve_xrefs_until d name_to_num more updates st
        end
      else resolve_xrefs_until d name_to_num more updates st
    end
  end.

(** The assignment to a group that [xref_to_num] knows; [None] when the
    exception comes first. *)
Definition assign_until (xref depth parent_xref : N) (updates : option nat)
    (st : State) : option (State * option nat) :=
  match xref_to_num st !! xref with
  | Some num =>
    (fun updates' => (assign xref depth parent_xref st, updates')) <$> spend updates
  | None => Some (st, updates)
  end.

Fixpoint parse_loop_until (fuel frames : nat) (updates : option nat) (rest : str)
    (depth parent_xref last_xref : N) (st : State)
  : option (outcome * option nat) :=
  match fuel with
  | O => None
  | S fuel' =>
    match rest with
    | [] => Some (Done st, updates)
    | char :: rest' =>
      if eqc char chr_lbracket then
        let k := scan_close rest' 1 in
        let nested_content := firstn (k - 1) rest' in
        match frames with
        | O => Some (Raised st, updates)
        | S frames' =>
          match parse_loop_until fuel' frames' updates nested_content
                  (depth + 1) last_xref 0 st with
          | Some (Done st', updates') =>
            parse_loop_until fuel' frames updates' (skipn k rest')
              depth parent_xref last_xref st'
          | r => r
          end
        end
      else if eqc char chr_rbracket then
        parse_loop_until fuel' frames updates rest' depth parent_xref last_xref st
      else if isdigit char then
        match match_ref rest with
        | Some (xref, len) =>
          match assign_until xref depth parent_xref updates st with
          | Some (st', updates') =>
            parse_loop_until fuel' frames updates' (skipn len rest)
              depth parent_xref xref st'
          | None => Some (Raised st, updates)
          end
        | None =>
          parse_loop_until fuel' frames updates rest' depth parent_xref last_xref st
        end
      else
        parse_loop_until fuel' frames updates rest' depth parent_xref last_xref st
    end
  end.

Definition parse_order_array_until (frames : nat) (updates : option nat)
    (order_val : str) (depth parent_xref : N) (st : State)
  : option (outcome * option nat) :=
  match frames with
  | O => Some (Raised st, updates)
  | S frames' =>
    parse_loop_until (S (length order_val)) frames' updates order_val
      depth parent_xref 0 st
  end.

Definition resolve_step_until (d : Doc) (ocgs_str : option str)
    (updates : option nat) (st : State) : outcome * option nat :=
  match ocgs_str with
  | Some s =>
    if truthy s
    then resolve_xrefs_until d (build_name_to_num (layer_map st))
           (findall_refs s) updates st
    else (Done st, updates)
  | None => (Done st, updates)
  end.

Definition order_step_until (frames : nat) (order_str : option str)
    (updates : option nat) (st : State) : option (outcome * option nat) :=
  match order_str with
  | Some s =>
    if truthy s
    then parse_order_array_until frames updates (inner_order_of s) 0 0
           {| layer_map := layer_map st; xref_to_num := xref_to_num st;
              display_order := 0 |}
    else Some (Done st, updates)
  | None => Some (Done st, updates)
  end.

Definition try_block_until (frames : nat) (updates : option nat) (d : Doc)
    (st : State) : option outcome :=
  match locate d with
  | None => Some (Raised st)
  | Some (ocgs_str, order_str) =>
    match resolve_step_until d ocgs_str updates st with
    | (Done st1, updates1) => fst <$> order_step_until frames order_str updates1 st1
    | (Raised st1, _) => Some (Raised st1)
    end
  end.

Definition final_state_until (frames : nat) (updates : option nat) (d : Doc)
  : option State :=
  state_of <$> try_block_until frames updates d (initial_state d).

(** The script of [getLayerConfig] when the [try] block is left after
    [updates] updates at the latest. *)
Definition getLayerConfig_until (frames : nat) (updates : option nat) (d : Doc)
  : option (list LayerInfo) :=
  (fun st => sorted (values (layer_map st))) <$> final_state_until frames updates d.


End Reader.

(** ** The write path: the script of [addOCGWithParent] *)

Module Writer.
Import Py Engine.

(** The arguments of the engine's [add_ocg]. *)
Record OcgArgs := {
  arg_name : str;
  arg_config : Z;
  arg_on : bool;
  arg_intent : string;
  arg_usage : string
}.

(** Where the ordering array was read from:
    [(order_key_path, order_xref, order_str)], each possibly [None]. *)
Definition location := (option string * option N * option str)%type.

(** Lines 473-503.  The outer [None] is a raised exception. *)
Definition locate_order (d : Doc) : option location :=
  let catalog_xref := pdf_catalog d in
  '(t, ocprop_val) ← xref_get_key d catalog_xref "OCProperties";
  if String.eqb t "dict" then
    '(t2, order_str) ← xref_get_key d catalog_xref "OCProperties/D/Order";
    Some (Some "OCProperties/D/Order"%string, Some catalog_xref, Some order_str)
  else if negb (String.eqb t "null") then
    match search_indirect ocprop_val with
    | Some ocprop_xref =>
      '(t2, d_val) ← xref_get_key d ocprop_xref "D";
      if String.eqb t2 "dict" then
        '(t2, order_str) ← xref_get_key d ocprop_xref "D/Order";
        Some (Some "D/Order"%string, Some ocprop_xref, Some order_str)
      else if negb (String.eqb t2 "null") then
        match search_indirect d_val with
        | Some d_xref =>
          '(t2, order_str) ← xref_get_key d d_xref "Order";
          Some (Some "Order"%string, Some d_xref, Some order_str)
        | None => Some (None, None, None)
        end
      else Some (None, None, None)
    | None => Some (None, None, None)
    end
  else Some (None, None, None).

(** [if order_str and order_xref:], with the values the branch uses. *)
Definition writable (loc : location) : option (string * N * str) :=
  match loc with
  | (Some order_key_path, Some order_xref, Some order_str) =>
    if Reader.truthy order_str && negb (order_xref =? 0)%N
    then Some (order_key_path, order_xref, order_str)
    else None
  | _ => None
  end.

Section Script.

(** The engine's [add_ocg]: the reference of the new group and the document
    it leaves, or [None] when it raises. *)
Variable add_ocg : Doc -> OcgArgs -> option (N * Doc).

(** What the caller of [runPython] gets: the value of the script or the
    exception, and the document either way. *)
Inductive result := Returned (child_xref : N) (d : Doc) | Raised (d : Doc).

Definition addOCGWithParent (d : Doc) (args : OcgArgs) (parentXref : N) : result :=
  match add_ocg d args with
  | None => Raised d
  | Some (child_xref, d1) =>
    match locate_order d1 with
    | None => Raised d1
    | Some loc =>
      let parent_ref := ref_token parentXref in
      let child_ref := ref_token child_xref in
      match writable loc with
      | Some (order_key_path, order_xref, order_str) =>
        let new_order := Editor.modify_pdf_order order_str parent_ref child_ref in
        Returned child_xref (xref_set_key d1 order_xref order_key_path new_order)
      | None => Returned child_xref d1
      end
    end
  end.

(** The value the caller gets, if any, and the document left behind. *)
Definition returned (r : result) : option N :=
  match r with Returned c _ => Some c | Raised _ => None end.

Definition doc_of (r : result) : Doc :=
  match r with Returned _ d => d | Raised d => d end.

End Script.

End Writer.

(** ** A small document for the examples

    A catalog (object 1) with inline optional-content properties, and one
    object per group.  [xref_get_key] answers ("null", "null") for a key
    that is absent and raises for an object number outside the file. *)

Module Sample.
Import Py Engine.

Definition table := list (N * string * (string * str)).

Fixpoint lookup_key (t : table) (x : N) (k : string) : (string * str) :=
  match t with
  | [] => ("null"%string, of_string "null")
  | (x', k', v) :: t' =>
    if (x' =? x)%N && String.eqb k' k then v else lookup_key t' x k
  end.

Definition mk_doc (layers : list UiLayer) (xreflen : N) (t : table) : Doc :=
  {| layer_ui_configs := layers;
     pdf_catalog := 1;
     xref_get_key := fun x k =>
       if (0 <? x)%N && (x <? xreflen)%N then Some (lookup_key t x k) else None |}.

Definition layer (n : N) (name : string) : UiLayer :=
  {| ui_number := n; ui_text := of_string name; ui_on := true; ui_locked := false |}.

Definition inline_ocprops (ocgs order : string) : table :=
  [ (1%N, "OCProperties"%string, ("dict"%string, of_string "<<...>>"));
    (1%N, "OCProperties/OCGs"%string, ("array"%string, of_string ocgs));
    (1%N, "OCProperties/D/Order"%string, ("array"%string, of_string order)) ].

Definition name_of (x : N) (name : string) : N * string * (string * str) :=
  (x, "Name"%string, ("string"%string, of_string name)).

(** Group A (object 5) at the root, group B (object 6) its child. *)
Definition doc_AB : Doc :=
  mk_doc [layer 0 "A"; layer 1 "B"] 10
    (inline_ocprops "[5 0 R 6 0 R]" "[5 0 R [6 0 R]]"
     ++ [name_of 5 "(A)"; name_of 6 "(B)"]).

(** Group A in the ordering array, group U in the flat list only. *)
Definition doc_AU : Doc :=
  mk_doc [layer 0 "A"; layer 1 "U"] 10
    (inline_ocprops "[5 0 R 6 0 R]" "[5 0 R]"
     ++ [name_of 5 "(A)"; name_of 6 "(U)"]).


(** Group A (object 5), on and locked, at the root; under it an empty
    array, group C (object 9) and, as the child of C, group B (object 8),
    which is off. *)
Definition doc_nested : Doc :=
  mk_doc
    [ {| ui_number := 0; ui_text := of_string "A"; ui_on := true; ui_locked := true |};
      {| ui_number := 1; ui_text := of_string "B"; ui_on := false; ui_locked := false |};
      {| ui_number := 2; ui_text := of_string "C"; ui_on := true; ui_locked := false |} ]
    10
    (inline_ocprops "[5 0 R 8 0 R 9 0 R]" "[5 0 R [[] 9 0 R [8 0 R]]]"
     ++ [name_of 5 "(A)"; name_of 8 "(B)"; name_of 9 "(C)"]).


(** What the examples show of a descriptor. *)
Definition summary (i : Reader.LayerInfo) : string * (N * N * N) :=
  (string_of_list_ascii (Reader.text i), Reader.position i).


End Sample.

(** ** The document handle: class [PyMuPDFDocument]

    The handle owns a [closed] flag and talks to the interpreter through
    [runPython].  The generated source is kept as a term: one constructor
    per template of document.ts, with the values interpolated into it. *)

Module Handle.

(** What [runPython] hands back to JavaScript. *)
Inductive pyval :=
| VNone
| VNum (n : Z)
| VBool (b : bool)
| VStr (s : string).

(** The options of [save], already resolved to their defaults. *)
Record SaveArgs := {
  sv_garbage : Z;
  sv_deflate : bool;
  sv_clean : bool;
  sv_encrypt : option (string * string * Z)
}.

Inductive pycode :=
| PyPageCount
| PyIsPdf
| PyIsEncrypted
| PyNeedsPass
| PyMetadata
| PySetMetadata (metaJson : string)
| PyDeletePage (index : Z)
| PyInsertPage (index w h : Z)
| PyMovePage (from to : Z)
| PyCopyPage (from to : Z)
| PySelect (indices : list Z)
| PyInsertPdf (sourceVar : string) (fromPage toPage startAt rotate : Z)
| PyConvertToPdf
| PySearchFor (page : Z) (query : string)
| PyGetToc
| PySetToc (tocJson : string)
| PyIsFormPdf
| PyGetFormFields
| PySetFormField (name valueStr : string)
| PyAuthenticate (password : string)
| PyTobytes (a : SaveArgs)
| PyLayerConfig
| PyAddOcg (a : Writer.OcgArgs)
| PyAddOcgWithParent (a : Writer.OcgArgs) (parentXref : Z)
| PySetLayerVisibility (ocgXref : Z) (on : bool)
| PySetOc (xref ocgXref : Z)
| PyGetOc (xref : Z)
| PyDeleteOcg (layerNumber : Z)
| PyClose.

(** The errors a method can throw. *)
Inductive error :=
| DocumentClosed                         (* 'Document has been closed' *)
| PageOutOfRange (index upper : Z)       (* `Page index i out of range (0-u)` *)
| PythonError (msg : string)             (* raised inside the interpreter *)
| LoopBudget.                            (* the model's bound on a loop *)

(** The interpreter: [runPython] and [FS.unlink] on a state of its own. *)
Record Pyodide := {
  istate : Type;
  run : pycode -> istate -> (string + pyval) * istate;
  unlink : string -> istate -> (string + unit) * istate
}.

Section Methods.

Variable P : Pyodide.
Variable inputPath : string.

(** A JavaScript array is an object on the heap; a variable holds its
    address. *)
Definition addr := nat.

Record World := {
  closed : bool;
  py : istate P;
  calls : list pycode;          (* every source text handed to [runPython] *)
  heap : gmap addr (list Z)
}.

Definition with_py (w : World) (s : istate P) (c : list pycode) : World :=
  {| closed := closed w; py := s; calls := c; heap := heap w |}.

Definition with_heap (w : World) (h : gmap addr (list Z)) : World :=
  {| closed := closed w; py := py w; calls := calls w; heap := h |}.

Definition set_closed (w : World) : World :=
  {| closed := true; py := py w; calls := calls w; heap := heap w |}.

(** The world after some more source texts went to an interpreter that
    they did not change. *)
Definition asked (w : World) (queries : list pycode) : World :=
  with_py w (py w) (calls w ++ queries).

(** Two worlds that differ in the heap only. *)
Definition same_but_heap (w1 w2 : World) : Prop :=
  closed w1 = closed w2 /\ py w1 = py w2 /\ calls w1 = calls w2.

(** A method: it throws or returns, and leaves a world. *)
Definition M (A : Type) := World -> (error + A) * World.

Definition ret {A} (a : A) : M A := fun w => (inr a, w).
Definition throw {A} (e : error) : M A := fun w => (inl e, w).
Definition bind {A B} (m : M A) (k : A -> M B) : M B :=
  fun w => match m w with
           | (inl e, w') => (inl e, w')
           | (inr a, w') => k a w'
           end.

#[global] Instance M_ret : MRet M := @ret.
#[global] Instance M_bind : MBind M := fun A B k m => bind m k.

Definition runPython (code : pycode) : M pyval :=
  fun w => match run P code (py w) with
           | (inl msg, s) => (inl (PythonError msg), with_py w s (calls w ++ [code]))
           | (inr v, s) => (inr v, with_py w s (calls w ++ [code]))
           end.

Definition ensureOpen : M unit :=
  fun w => if closed w then (inl DocumentClosed, w) else (inr tt, w).

(** The casts [as number], [as boolean], [as string]. *)
Definition as_number (v : pyval) : Z := match v with VNum n => n | _ => 0 end.
Definition as_boolean (v : pyval) : bool := match v with VBool b => b | _ => false end.
Definition as_string (v : pyval) : string := match v with VStr s => s | _ => ""%string end.

Definition pageCount : M Z := ensureOpen ;; v ← runPython PyPageCount; ret (as_number v).
Definition isPdf : M bool := ensureOpen ;; v ← runPython PyIsPdf; ret (as_boolean v).
Definition isEncrypted : M bool := ensureOpen ;; v ← runPython PyIsEncrypted; ret (as_boolean v).
Definition needsPass : M bool := ensureOpen ;; v ← runPython PyNeedsPass; ret (as_boolean v).
Definition metadata : M string := ensureOpen ;; v ← runPython PyMetadata; ret (as_string v).
Definition setMetadata (metaJson : string) : M unit :=
  ensureOpen ;; runPython (PySetMetadata metaJson) ;; ret tt.

(** A page handle: the document variable is fixed, the index is kept. *)
Record Page := { page_index : Z }.

Definition getPage (index : Z) : M Page :=
  ensureOpen;;
  out ← (if index <? 0 then ret true
          else n ← pageCount; ret (index >=? n));
  if out : bool then
    n ← pageCount; throw (PageOutOfRange index (n - 1))
  else ret {| page_index := index |}.

(** [*pages()] is a generator method.  The call runs none of its
    statements and returns a generator; the body runs at [next()], from
    where it was suspended to the next [yield].  A generator is suspended
    before its first statement or at the [yield] of page [i], or it is
    finished. *)
Inductive generator :=
| AtStart
| AtYield (count i : Z)
| Finished.

Definition pages_generator : M generator := ret AtStart.

(** The head of the [for] loop, [i] being what the increment left. *)
Definition pages_loop (count i : Z) : M (generator * option Page) :=
  if i <? count then p ← getPage i; ret (AtYield count i, Some p)
  else ret (Finished, None).

(** [next()]: the generator as it is left and the page it yields, [None]
    when it is done.  A generator whose body throws is finished. *)
Definition next (g : generator) : M (generator * option Page) :=
  match g with
  | AtStart => ensureOpen ;; count ← pageCount; pages_loop count 0
  | AtYield count i => pages_loop count (i + 1)
  | Finished => ret (Finished, None)
  end.

(** [[...g]]: the pages a generator yields until it is done; [budget]
    bounds the calls of [next()] in the model. *)
Fixpoint drain (budget : nat) (g : generator) : M (list Page) :=
  match budget with
  | O => throw LoopBudget
  | S budget' =>
    r ← next g;
    match r with
    | (g', Some p) => ps ← drain budget' g'; ret (p :: ps)
    | (_, None) => ret []
    end
  end.

(** What [[...g]] makes of one result of [next()]. *)
Definition collect (budget : nat) (r : generator * option Page) : M (list Page) :=
  match r with
  | (g', Some p) => ps ← drain budget g'; ret (p :: ps)
  | (_, None) => ret []
  end.

(** [[...doc.pages()]], the generator [pages()] run to its end, written as
    one loop. *)
Fixpoint pages_from (i : Z) (count : nat) : M (list Page) :=
  match count with
  | O => ret []
  | S count' =>
    p ← getPage i; ps ← pages_from (i + 1) count'; ret (p :: ps)
  end.

Definition pages : M (list Page) :=
  ensureOpen ;; count ← pageCount; pages_from 0 (Z.to_nat count).

Definition deletePage (index : Z) : M unit :=
  ensureOpen ;; runPython (PyDeletePage index) ;; ret tt.

(** [[...indices].sort((a, b) => b - a)]: the sort of JavaScript is stable;
    so is this insertion from the right. *)
Fixpoint insert_desc (x : Z) (l : list Z) : list Z :=
  match l with
  | [] => [x]
  | y :: l' => if y - x <=? 0 then x :: y :: l' else y :: insert_desc x l'
  end.

Definition sort_desc (l : list Z) : list Z := fold_right insert_desc [] l.

(** [[...a]]: a new array with the elements of [a]. *)
Definition spread (a : addr) : M addr :=
  fun w =>
    let elems := default [] (heap w !! a) in
    let b := fresh (dom (heap w)) in
    (inr b, with_heap w (<[b := elems]> (heap w))).

(** [a.sort(cmp)] sorts in place and returns the same array. *)
Definition sort_in_place (a : addr) : M addr :=
  fun w =>
    match heap w !! a with
    | Some elems => (inr a, with_heap w (<[a := sort_desc elems]> (heap w)))
    | None => (inr a, w)
    end.

Definition read_array (a : addr) : M (list Z) :=
  fun w => (inr (default [] (heap w !! a)), w).

Fixpoint for_each {A} (f : A -> M unit) (l : list A) : M unit :=
  match l with
  | [] => ret tt
  | x :: l' => f x ;; for_each f l'
  end.

(** The body of the loop of [deletePages]. *)
Definition delete_call (i : Z) : M unit :=
  runPython (PyDeletePage i);; ret tt.

(** [deletePages(indices)]; the argument is the address of the array of
    the caller. *)
Definition deletePages (indices : addr) : M unit :=
  ensureOpen;;
  copy ← spread indices;
  sorted ← sort_in_place copy;
  elems ← read_array sorted;
  for_each delete_call elems.

Definition insertBlankPage (index : Z) (width height : option Z) : M Page :=
  ensureOpen;;
  let w := default 595 width in
  let h := default 842 height in
  runPython (PyInsertPage index w h);;
  getPage index.

Definition movePage (from to : Z) : M unit :=
  ensureOpen ;; runPython (PyMovePage from to) ;; ret tt.

Definition copyPage (from to : Z) : M unit :=
  ensureOpen ;; runPython (PyCopyPage from to) ;; ret tt.

Definition selectPages (indices : list Z) : M unit :=
  ensureOpen ;; runPython (PySelect indices) ;; ret tt.

Record InsertOptions := {
  fromPage : option Z; toPage : option Z; startAt : option Z; rotate : option Z
}.

Definition insertPdf (sourceVar : string) (options : option InsertOptions) : M unit :=
  ensureOpen;;
  let fromPage := default 0 (options ≫= fromPage) in
  let toPage := default (-1) (options ≫= toPage) in
  let startAt := default (-1) (options ≫= startAt) in
  let rotate := default 0 (options ≫= rotate) in
  runPython (PyInsertPdf sourceVar fromPage toPage startAt rotate) ;; ret tt.

(** [atob] and the copy into a [Uint8Array] are kept as the text. *)
Definition convertToPdf : M string :=
  ensureOpen ;; v ← runPython PyConvertToPdf; ret (as_string v).

(** [page.searchFor(query)], through the closure the page was given. *)
Definition searchFor (p : Page) (query : string) : M string :=
  v ← runPython (PySearchFor (page_index p) query); ret (as_string v).

(** [for (let i = 0; i < this.pageCount; i++)]: the bound is read again
    at every turn; [budget] bounds the turns of the model. *)
Fixpoint searchText_from (budget : nat) (i : Z) (query : string)
    (results : list (Z * string)) : M (list (Z * string)) :=
  match budget with
  | O => throw LoopBudget
  | S budget' =>
    n ← pageCount;
    if i <? n then
      page ← getPage i;
      rects ← searchFor page query;
      searchText_from budget' (i + 1) query (results ++ [(i, rects)])
    else ret results
  end.

Definition searchText (budget : nat) (query : string) : M (list (Z * string)) :=
  ensureOpen ;; searchText_from budget 0 query [].

Definition getToc : M string := ensureOpen ;; v ← runPython PyGetToc; ret (as_string v).
Definition setToc (tocJson : string) : M unit :=
  ensureOpen ;; runPython (PySetToc tocJson) ;; ret tt.
Definition isFormPdf : M bool := ensureOpen ;; v ← runPython PyIsFormPdf; ret (as_boolean v).
Definition getFormFields : M string :=
  ensureOpen ;; v ← runPython PyGetFormFields; ret (as_string v).
Definition setFormField (name valueStr : string) : M unit :=
  ensureOpen ;; runPython (PySetFormField name valueStr) ;; ret tt.
Definition authenticate (password : string) : M bool :=
  ensureOpen ;; v ← runPython (PyAuthenticate password); ret (as_boolean v).

Record Permissions := {
  perm_print : option bool; perm_modify : option bool;
  perm_copy : option bool; perm_annotate : option bool
}.

Record EncryptionOptions := {
  ownerPassword : string;
  userPassword : option string;
  permissions : option Permissions
}.

Record SaveOptions := {
  garbage : option Z; deflate : option bool; clean : option bool;
  encryption : option EncryptionOptions
}.

(** [x !== false] on an optional flag. *)
Definition not_false (x : option bool) : bool := default true x.

Definition permValue (perms : option Permissions) : Z :=
  Z.lor (Z.lor (Z.lor
    (if not_false (perms ≫= perm_print) then 4 else 0)
    (if not_false (perms ≫= perm_modify) then 8 else 0))
    (if not_false (perms ≫= perm_copy) then 16 else 0))
    (if not_false (perms ≫= perm_annotate) then 32 else 0).

Definition save (options : option SaveOptions) : M string :=
  ensureOpen;;
  let encryptParams :=
    (fun enc => (ownerPassword enc, default ""%string (userPassword enc),
                 permValue (permissions enc))) <$> (options ≫= encryption) in
  let garbage := default 1 (options ≫= garbage) in
  let deflate := not_false (options ≫= deflate) in
  let clean := not_false (options ≫= clean) in
  v ← runPython (PyTobytes {| sv_garbage := garbage; sv_deflate := deflate;
                               sv_clean := clean; sv_encrypt := encryptParams |});
  ret (as_string v).

Definition saveAsBlob (options : option SaveOptions) : M string := save options.

Definition getLayerConfig : M string :=
  ensureOpen ;; v ← runPython PyLayerConfig; ret (as_string v).

Definition addOCG (a : Writer.OcgArgs) : M Z :=
  ensureOpen ;; v ← runPython (PyAddOcg a); ret (as_number v).

Definition addOCGWithParent (a : Writer.OcgArgs) (parentXref : Z) : M Z :=
  ensureOpen ;; v ← runPython (PyAddOcgWithParent a parentXref); ret (as_number v).

Definition setLayerVisibility (ocgXref : Z) (on : bool) : M unit :=
  ensureOpen ;; runPython (PySetLayerVisibility ocgXref on) ;; ret tt.

Definition setOC (xref ocgXref : Z) : M unit :=
  ensureOpen ;; runPython (PySetOc xref ocgXref) ;; ret tt.

Definition getOC (xref : Z) : M Z :=
  ensureOpen ;; v ← runPython (PyGetOc xref); ret (as_number v).

Definition deleteOCG (layerNumber : Z) : M unit :=
  ensureOpen ;; runPython (PyDeleteOcg layerNumber) ;; ret tt.

(** [close()]: the [try] swallows whatever the two calls throw. *)
Definition close : M unit :=
  fun w =>
    if closed w then (inr tt, w)
    else
      let '(r, s1) := run P PyClose (py w) in
      let c1 := calls w ++ [PyClose] in
      match r with
      | inl _ => (inr tt, set_closed (with_py w s1 c1))
      | inr _ =>
        let '(_, s2) := unlink P inputPath s1 in
        (inr tt, set_closed (with_py w s2 c1))
      end.

(** Every accessor and mutator of the handle but [close], with its
    arguments.  A call of [pages()] is the call itself: it returns the
    generator. *)
Inductive method :=
| CallPageCount | CallIsPdf | CallIsEncrypted | CallNeedsPass | CallMetadata
| CallSetMetadata (metaJson : string)
| CallGetPage (index : Z)
| CallPages
| CallDeletePage (index : Z)
| CallDeletePages (indices : addr)
| CallInsertBlankPage (index : Z) (width height : option Z)
| CallMovePage (from to : Z)
| CallCopyPage (from to : Z)
| CallSelectPages (indices : list Z)
| CallInsertPdf (sourceVar : string) (options : option InsertOptions)
| CallConvertToPdf
| CallSearchText (budget : nat) (query : string)
| CallGetToc
| CallSetToc (tocJson : string)
| CallIsFormPdf
| CallGetFormFields
| CallSetFormField (name valueStr : string)
| CallAuthenticate (password : string)
| CallSave (options : option SaveOptions)
| CallSaveAsBlob (options : option SaveOptions)
| CallGetLayerConfig
| CallAddOCG (a : Writer.OcgArgs)
| CallAddOCGWithParent (a : Writer.OcgArgs) (parentXref : Z)
| CallSetLayerVisibility (ocgXref : Z) (on : bool)
| CallSetOC (xref ocgXref : Z)
| CallGetOC (xref : Z)
| CallDeleteOCG (layerNumber : Z).

(** The value a call returns, whatever its type. *)
Inductive retval :=
| RUnit | RNum (n : Z) | RBool (b : bool) | RStr (s : string)
| RPage (p : Page) | RGenerator (g : generator) | RHits (hs : list (Z * string)).

Definition lift {A} (f : A -> retval) (m : M A) : M retval :=
  a ← m; ret (f a).

Definition invoke (c : method) : M retval :=
  match c with
  | CallPageCount => lift RNum pageCount
  | CallIsPdf => lift RBool isPdf
  | CallIsEncrypted => lift RBool isEncrypted
  | CallNeedsPass => lift RBool needsPass
  | CallMetadata => lift RStr metadata
  | CallSetMetadata j => lift (fun _ => RUnit) (setMetadata j)
  | CallGetPage i => lift RPage (getPage i)
  | CallPages => lift RGenerator pages_generator
  | CallDeletePage i => lift (fun _ => RUnit) (deletePage i)
  | CallDeletePages a => lift (fun _ => RUnit) (deletePages a)
  | CallInsertBlankPage i w h => lift RPage (insertBlankPage i w h)
  | CallMovePage a b => lift (fun _ => RUnit) (movePage a b)
  | CallCopyPage a b => lift (fun _ => RUnit) (copyPage a b)
  | CallSelectPages l => lift (fun _ => RUnit) (selectPages l)
  | CallInsertPdf v o => lift (fun _ => RUnit) (insertPdf v o)
  | CallConvertToPdf => lift RStr convertToPdf
  | CallSearchText b q => lift RHits (searchText b q)
  | CallGetToc => lift RStr getToc
  | CallSetToc j => lift (fun _ => RUnit) (setToc j)
  | CallIsFormPdf => lift RBool isFormPdf
  | CallGetFormFields => lift RStr getFormFields
  | CallSetFormField n v => lift (fun _ => RUnit) (setFormField n v)
  | CallAuthenticate p => lift RBool (authenticate p)
  | CallSave o => lift RStr (save o)
  | CallSaveAsBlob o => lift RStr (saveAsBlob o)
  | CallGetLayerConfig => lift RStr getLayerConfig
  | CallAddOCG a => lift RNum (addOCG a)
  | CallAddOCGWithParent a p => lift RNum (addOCGWithParent a p)
  | CallSetLayerVisibility x o => lift (fun _ => RUnit) (setLayerVisibility x o)
  | CallSetOC x o => lift (fun _ => RUnit) (setOC x o)
  | CallGetOC x => lift RNum (getOC x)
  | CallDeleteOCG n => lift (fun _ => RUnit) (deleteOCG n)
  end.

End Methods.

End Handle.

(** ** A state and error monad for the stand-alone operations *)

Module StateErr.

Definition ES (S E A : Type) := S -> (E + A) * S.

#[export] Instance ES_ret {S E} : MRet (ES S E) := fun A a s => (inr a, s).
#[export] Instance ES_bind {S E} : MBind (ES S E) :=
  fun A B k m s => match m s with
                   | (inl e, s') => (inl e, s')
                   | (inr a, s') => k a s'
                   end.

End StateErr.

(** ** The facade: [split] and [compressPdf] of pymupdf.ts *)

Module Facade.
Import StateErr.

(** *** [split] *)

Record Range := { start : Z; end_ : Z }.

Section Split.

(** The interpreter state, the blobs and the document handles; the methods
    of the facade and of the handles that [split] calls. *)
Variables (IState Blob Doc : Type).
Abbreviation E := (ES IState string).
Variable open : Blob -> E Doc.
Variable create : E Doc.
Variable pageCount : Doc -> E Z.
Variable insertPdf : Doc -> Doc -> Z -> Z -> E unit.
Variable saveAsBlob : Doc -> E Blob.
Variable close : Doc -> E unit.

(** The body of the loop for a range that is kept. *)
Definition extract (source : Doc) (start end_ : Z) : E Blob :=
  newDoc ← create;
  insertPdf newDoc source start end_;;
  b ← saveAsBlob newDoc;
  close newDoc;;
  mret b.

(** [for (const range of ranges)] *)
Fixpoint split_loop (source : Doc) (pageCount : Z) (ranges : list Range)
    (results : list Blob) : E (list Blob) :=
  match ranges with
  | [] => mret results
  | range :: more =>
    let start := Z.max 0 (start range) in
    let end_ := Z.min (pageCount - 1) (end_ range) in
    if start >? end_ then split_loop source pageCount more results
    else
      b ← extract source start end_;
      split_loop source pageCount more (results ++ [b])
  end.

(** The same body over a list of ranges that are all kept. *)
Fixpoint extract_all (source : Doc) (cs : list (Z * Z)) : E (list Blob) :=
  match cs with
  | [] => mret []
  | (a, b) :: cs' =>
    x ← extract source a b;
    xs ← extract_all source cs';
    mret (x :: xs)
  end.

Definition split (pdf : Blob) (ranges : list Range) : E (list Blob) :=
  source ← open pdf;
  pageCount ← pageCount source;
  results ← split_loop source pageCount ranges [];
  close source;;
  mret results.

End Split.

(** *** Numbers of JavaScript

    A size is an integer far below 2^53, on which the arithmetic of
    JavaScript is exact: sizes are in [Z].  The percentage is a binary64
    value, computed with the operations of IEEE 754. *)

(** The number nearest to an integer. *)
Definition of_Z (z : Z) : float := SF2Prim (binary_normalize prec emax z 0 false).

(** [Math.round]: the nearest integer, a tie going up. *)
Definition Math_round (x : float) : float :=
  match Prim2SF x with
  | S754_finite s m e =>
    if 0 <=? e then x
    else
      let n := if s then Z.neg m else Z.pos m in
      let q := (2 * n + 2 ^ (- e)) / 2 ^ (1 - e) in
      if (q =? 0) && s then neg_zero else of_Z q
  | _ => x
  end.

(** *** [compressPdf] *)

Record ScrubOptions := {
  o_metadata : option bool; o_xmlMetadata : option bool;
  o_attachedFiles : option bool; o_embeddedFiles : option bool;
  o_thumbnails : option bool; o_resetFields : option bool;
  o_resetResponses : option bool
}.

Record ImageOptions := {
  o_enabled : option bool; o_dpiThreshold : option Z; o_dpiTarget : option Z;
  o_quality : option Z; o_lossy : option bool; o_lossless : option bool;
  o_bitonal : option bool; o_color : option bool; o_gray : option bool;
  o_convertToGray : option bool
}.

Record SaveOptions := {
  o_garbage : option Z; o_deflate : option bool; o_clean : option bool;
  o_useObjstms : option bool
}.

Record CompressOptions := {
  o_scrub : option ScrubOptions;
  o_images : option ImageOptions;
  o_subsetFonts : option bool;
  o_save : option SaveOptions
}.

(** The arguments of the engine calls, after the defaults. *)
Record ScrubArgs := {
  scrubMetadata : bool; scrubXmlMetadata : bool; scrubAttachedFiles : bool;
  scrubEmbeddedFiles : bool; scrubThumbnails : bool; scrubResetFields : bool;
  scrubResetResponses : bool
}.

Record ImageArgs := {
  dpiThreshold : Z; dpiTarget : Z; imageQuality : Z; processLossy : bool;
  processLossless : bool; processBitonal : bool; processColor : bool;
  processGray : bool; convertToGray : bool
}.

Record TobytesArgs := {
  tb_garbage : Z; tb_deflate : bool; tb_useObjstms : bool; tb_clean : bool
}.

Record CompressResult := {
  blob : list Byte.byte;
  originalSize : Z;
  compressedSize : Z;
  savings : Z;
  savingsPercent : float;
  pageCount : Z
}.

(** [x !== false] and [x ?? false] on an optional flag. *)
Definition not_false (x : option bool) : bool := default true x.
Definition or_false (x : option bool) : bool := default false x.

Section Compress.

(** The engine calls of the script on the document it opened; [None] is a
    call that raises. *)
Variable PDoc : Type.
Variable pymupdf_open : list Byte.byte -> option PDoc.
Variable page_count : PDoc -> Z.
Variable scrub : PDoc -> ScrubArgs -> option PDoc.
Variable rewrite_images : PDoc -> ImageArgs -> option PDoc.
Variable subset_fonts : PDoc -> option PDoc.
Variable tobytes : PDoc -> TobytesArgs -> option (list Byte.byte).

(** The script: [(data, compressedSize, pageCount)] of its JSON. *)
Definition compress_script (input : list Byte.byte) (sa : ScrubArgs)
    (compressImages : bool) (ia : ImageArgs) (subsetFonts : bool)
    (ta : TobytesArgs) : option (list Byte.byte * Z * Z) :=
  doc ← pymupdf_open input;
  let original_page_count := page_count doc in
  doc ← scrub doc sa;
  doc ← (if compressImages then rewrite_images doc ia else Some doc);
  doc ← (if subsetFonts then subset_fonts doc else Some doc);
  pdf_bytes ← tobytes doc ta;
  let compressed_size := Z.of_nat (length pdf_bytes) in
  Some (pdf_bytes, compressed_size, original_page_count).

(** [compressPdf]; [None] is a rejected promise.  The input goes to the
    script through a file of the interpreter, written before and unlinked
    after the call; the script opens what was written. *)
Definition compressPdf (pdf : list Byte.byte) (options : option CompressOptions)
  : option CompressResult :=
  let buf := pdf in
  let originalSize := Z.of_nat (length buf) in
  let scrubOpts := options ≫= o_scrub in
  let sa := {|
    scrubMetadata := not_false (scrubOpts ≫= o_metadata);
    scrubXmlMetadata := not_false (scrubOpts ≫= o_xmlMetadata);
    scrubAttachedFiles := or_false (scrubOpts ≫= o_attachedFiles);
    scrubEmbeddedFiles := or_false (scrubOpts ≫= o_embeddedFiles);
    scrubThumbnails := not_false (scrubOpts ≫= o_thumbnails);
    scrubResetFields := or_false (scrubOpts ≫= o_resetFields);
    scrubResetResponses := or_false (scrubOpts ≫= o_resetResponses) |} in
  let imageOpts := options ≫= o_images in
  let compressImages := not_false (imageOpts ≫= o_enabled) in
  let ia := {|
    dpiThreshold := default 150 (imageOpts ≫= o_dpiThreshold);
    dpiTarget := default 96 (imageOpts ≫= o_dpiTarget);
    imageQuality := default 75 (imageOpts ≫= o_quality);
    processLossy := not_false (imageOpts ≫= o_lossy);
    processLossless := not_false (imageOpts ≫= o_lossless);
    processBitonal := or_false (imageOpts ≫= o_bitonal);
    processColor := not_false (imageOpts ≫= o_color);
    processGray := not_false (imageOpts ≫= o_gray);
    convertToGray := or_false (imageOpts ≫= o_convertToGray) |} in
  let subsetFonts := not_false (options ≫= o_subsetFonts) in
  let saveOpts := options ≫= o_save in
  let ta := {|
    tb_garbage := default 4 (saveOpts ≫= o_garbage);
    tb_deflate := not_false (saveOpts ≫= o_deflate);
    tb_useObjstms := not_false (saveOpts ≫= o_useObjstms);
    tb_clean := not_false (saveOpts ≫= o_clean) |} in
  '(bytes, parsed_compressedSize, parsed_pageCount) ←
     compress_script buf sa compressImages ia subsetFonts ta;
  let compressedSize := parsed_compressedSize in
  let savings := originalSize - compressedSize in
  let savingsPercent :=
    if originalSize >? 0
    then (of_Z savings / of_Z originalSize * of_Z 100)%float
    else of_Z 0 in
  Some {| blob := bytes;
          originalSize := originalSize;
          compressedSize := compressedSize;
          savings := savings;
          savingsPercent := (Math_round (savingsPercent * of_Z 10) / of_Z 10)%float;
          pageCount := parsed_pageCount |}.

End Compress.

(** The percentage as the specification writes it:
    [round((N - compressedSize) / N * 1000) / 10]. *)
Definition percent_as_specified (N compressedSize : Z) : float :=
  (Math_round (of_Z (N - compressedSize) / of_Z N * of_Z 1000) / of_Z 10)%float.

(** The percentage as [compressPdf] computes it. *)
Definition percent_as_computed (N compressedSize : Z) : float :=
  (Math_round ((if N >? 0 then of_Z (N - compressedSize) / of_Z N * of_Z 100
                else of_Z 0) * of_Z 10) / of_Z 10)%float.

End Facade.


(** What [split] keeps of the requested ranges: each clamped, and dropped
    when its start is beyond its end. *)
Module Ranges.
Import Facade.

Definition clamp (pageCount : Z) (r : Range) : Z * Z :=
  (Z.max 0 (start r), Z.min (pageCount - 1) (end_ r)).

Definition is_kept (c : Z * Z) : bool := negb (fst c >? snd c).

Definition kept (pageCount : Z) (ranges : list Range) : list (Z * Z) :=
  List.filter is_kept (map (clamp pageCount) ranges).

End Ranges.

(** ** Engines for the examples *)

Module SampleEngine.
Import Py Engine.

(** An [add_ocg] that does what the script expects of the engine ("add_ocg
    usually appends to the end of the root array"): the new group becomes
    object [child], is listed last in the flat list and last at the root of
    the ordering array of a document with inline properties. *)
Definition append_root (text : str) (child : N) : str :=
  match rev text with
  | c :: r => if eqc c chr_rbracket
              then rev r ++ of_string " " ++ ref_token child ++ of_string "]"
              else text
  | [] => text
  end.

Definition add_ocg_as (child : N) (d : Doc) (a : Writer.OcgArgs)
  : option (N * Doc) :=
  '(_, ocgs) ← xref_get_key d (pdf_catalog d) "OCProperties/OCGs";
  '(_, order) ← xref_get_key d (pdf_catalog d) "OCProperties/D/Order";
  let d1 := xref_set_key d child "Name"
              (of_string "(" ++ Writer.arg_name a ++ of_string ")") in
  let d2 := xref_set_key d1 (pdf_catalog d) "OCProperties/OCGs"
              (append_root ocgs child) in
  let d3 := xref_set_key d2 (pdf_catalog d) "OCProperties/D/Order"
              (append_root order child) in
  Some (child,
        {| layer_ui_configs :=
             layer_ui_configs d ++
             [{| ui_number := N.of_nat (length (layer_ui_configs d));
                 ui_text := Writer.arg_name a;
                 ui_on := Writer.arg_on a; ui_locked := false |}];
           pdf_catalog := pdf_catalog d3;
           xref_get_key := xref_get_key d3 |}).

Definition args (name : string) : Writer.OcgArgs :=
  {| Writer.arg_name := of_string name; Writer.arg_config := -1;
     Writer.arg_on := true; Writer.arg_intent := "View";
     Writer.arg_usage := "Artwork" |}.

(** Groups X (object 15) and P (object 5), both at the root. *)
Definition doc_XP : Doc :=
  Sample.mk_doc [Sample.layer 0 "X"; Sample.layer 1 "P"] 30
    (Sample.inline_ocprops "[15 0 R 5 0 R]" "[15 0 R 5 0 R]"
     ++ [Sample.name_of 15 "(X)"; Sample.name_of 5 "(P)"]).

(** Groups X (object 15), P (object 5) and C (object 20), all at the root:
    the ordering array as [add_ocg] leaves it when C is created. *)
Definition order_XPC : str := of_string "[15 0 R 5 0 R 20 0 R]".

(** The document of groups A and U after [add_ocg] created group C as
    object 9, and the document of groups X and P after it created group C
    as object 20. *)
Definition doc_AUC : Doc :=
  default Sample.doc_AU (snd <$> add_ocg_as 9 Sample.doc_AU (args "C")).

Definition doc_XPC : Doc :=
  default doc_XP (snd <$> add_ocg_as 20 doc_XP (args "C")).

(** The ordering array of a document with inline properties. *)
Definition order_of (d : Doc) : option str :=
  snd <$> xref_get_key d (pdf_catalog d) "OCProperties/D/Order".

(** An interpreter that keeps the pages of one document.  [delete_page]
    follows the engine: a negative number counts from the end, a number
    outside the document raises. *)
Definition delete_nth (i : nat) (l : list Z) : list Z := firstn i l ++ skipn (S i) l.

Definition page_run (c : Handle.pycode) (pages : list Z)
  : (string + Handle.pyval) * list Z :=
  let n := Z.of_nat (length pages) in
  match c with
  | Handle.PyPageCount => (inr (Handle.VNum n), pages)
  | Handle.PyDeletePage i =>
    if (- n <=? i) && (i <? n)
    then (inr Handle.VNone, delete_nth (Z.to_nat (i mod n)) pages)
    else (inl "bad page number(s)"%string, pages)
  | _ => (inr Handle.VNone, pages)
  end.

Definition page_engine : Handle.Pyodide :=
  {| Handle.istate := list Z;
     Handle.run := page_run;
     Handle.unlink := fun _ s => (inr tt, s) |}.

Definition open_world (pages : list Z) : Handle.World page_engine :=
  {| Handle.closed := false; Handle.py := (pages : Handle.istate page_engine);
     Handle.calls := []; Handle.heap := ∅ |}.

(** A document of ten pages, and the array [[5, 2, 7]] at address 0. *)
Definition world_527 : Handle.World page_engine :=
  Handle.with_heap _ (open_world [0; 1; 2; 3; 4; 5; 6; 7; 8; 9])
    {[ 0%nat := [5; 2; 7] ]}.

(** An engine for [split]: the state is the list of the open documents,
    a document is the list of its pages and a handle its position. *)
Definition docs := list (list Z).

Definition sp_open (b : list Z) : StateErr.ES docs string nat :=
  fun s => (inr (length s), s ++ [b]).
Definition sp_create : StateErr.ES docs string nat :=
  fun s => (inr (length s), s ++ [[]]).
Definition sp_pageCount (d : nat) : StateErr.ES docs string Z :=
  fun s => (inr (Z.of_nat (length (default [] (s !! d)))), s).
Definition sp_insertPdf (new src : nat) (a b : Z) : StateErr.ES docs string unit :=
  fun s =>
    let pages := default [] (s !! src) in
    let part := firstn (Z.to_nat (b - a + 1)) (skipn (Z.to_nat a) pages) in
    (inr tt, <[new := default [] (s !! new) ++ part]> s).
Definition sp_saveAsBlob (d : nat) : StateErr.ES docs string (list Z) :=
  fun s => (inr (default [] (s !! d)), s).
Definition sp_close (d : nat) : StateErr.ES docs string unit :=
  fun s => (inr tt, s).

Definition sp_split :=
  Facade.split docs (list Z) nat sp_open sp_create sp_pageCount sp_insertPdf
    sp_saveAsBlob sp_close.

(** An engine for [compressPdf] that writes [n] bytes whatever it reads;
    a document is the bytes it was opened from and has ten pages. *)
Definition cp_compress (n : nat) :=
  Facade.compressPdf (list Byte.byte)
    (fun b => Some b) (fun _ => 10)
    (fun d _ => Some d) (fun d _ => Some d) (fun d => Some d)
    (fun _ _ => Some (repeat Byte.x00 n)).

End SampleEngine.

(** ** Flat ordering arrays *)

Module Arrays.
Import Py.

(** The tokens of a list of references, one space apart. *)
Fixpoint tokens (xs : list N) : str :=
  match xs with
  | [] => []
  | [x] => ref_token x
  | x :: xs' => ref_token x ++ chr_space :: tokens xs'
  end.

(** The array [[x1 0 R x2 0 R ...]]. *)
Definition flat_array (xs : list N) : str :=
  chr_lbracket :: tokens xs ++ [chr_rbracket].

(** The same tokens, a space in front of each. *)
Definition spaced (xs : list N) : str :=
  xs ≫= fun x => chr_space :: ref_token x.

(** No reference of [xs] other than [x] has a number whose decimal digits
    end with those of [x], as 15 does for 5. *)
Definition no_suffix_clash (x : N) (xs : list N) : Prop :=
  forall y pre, y ∈ xs -> str_of_N y = pre ++ str_of_N x -> y = x.

End Arrays.

Module Nesting.
Import Py Reader.

(** Where the visits of one call of the scanner can stand: at the depth
    and under the parent of the call, or deeper, and then without parent or
    under a reference visited before, one level up. *)
Definition well_nested (depth parent last : N) (vs : list visit) : Prop :=
  forall i x d p,
    vs !! i = Some (x, d, p) ->
    (d = depth /\ p = parent)
    \/ ((depth < d)%N
        /\ (p = 0%N
            \/ (p = last /\ d = (depth + 1)%N)
            \/ exists j d' p', (j < i)%nat /\ vs !! j = Some (p, d', p')
                               /\ d = (d' + 1)%N)).

End Nesting.


(** The flat descriptor of a layer as the engine lists it. *)
Module Layers.
Import Py Engine Reader.

Definition ui_flat (u : UiLayer) : N * str * bool * bool :=
  (ui_number u, ui_text u, ui_on u, ui_locked u).

(** What the first loop has made of the layers read so far. *)
Definition filed (layers : list UiLayer) (m : layer_map_t) : Prop :=
  NoDup m.*1
  /\ (forall k, k ∈ m.*1 <-> k ∈ ui_number <$> layers)
  /\ (forall k v, (k, v) ∈ m ->
        exists pre u post,
          layers = pre ++ u :: post /\ k = ui_number u /\ v = initial_info u
          /\ Forall (fun w => ui_number w <> k) post).

End Layers.

(** The bracket depth at the end of a text that starts at depth [d]. *)
Module Depth.
Import Py.

Fixpoint depth_after (s : str) (d : Z) : Z :=
  match s with
  | [] => d
  | c :: s' =>
    depth_after s'
      (if eqc c chr_lbracket then d + 1
       else if eqc c chr_rbracket then d - 1 else d)
  end.

End Depth.

(** ** The script of [setLayerVisibility] (document.ts, lines 617-705) *)

Module Visibility.
Import Py Engine.

(** [p in s] *)
Definition contains (p s : str) : bool :=
  match find p s with Some _ => true | None => false end.

(** [a == b] on strings. *)
Definition str_eqb (a b : str) : bool := bool_decide (a = b).

(** [s.rstrip(']')] *)
Definition rstrip_bracket (s : str) : str :=
  rev (snd (span (eqc chr_rbracket) (rev s))).

Definition add_to_array (arr_str xref_ref : str) : str :=
  if negb (Reader.truthy arr_str) || str_eqb arr_str (of_string "null")
  then chr_lbracket :: xref_ref ++ [chr_rbracket]
  else if contains xref_ref arr_str then arr_str
  else rstrip_bracket arr_str ++ chr_space :: xref_ref ++ [chr_rbracket].

(** [re.sub(pattern, repl, s)] for a pattern that matches no empty text;
    [m] gives the length of the match of the pattern at the start of a
    text.  A match consumes a character or more, so [S (length s)] turns are
    enough. *)
Fixpoint re_sub (fuel : nat) (m : str -> option nat) (repl s : str) : str :=
  match fuel with
  | O => []
  | S fuel' =>
    match s with
    | [] => []
    | c :: s' =>
      match m s with
      | Some (S len) => repl ++ re_sub fuel' m repl (skipn (S len) s)
      | _ => c :: re_sub fuel' m repl s'
      end
    end
  end.

(** The pattern [r'\s*' + str(x) + r'\s+0\s+R'] at the start of a text.
    The number is a literal that starts with a digit, so the leading white
    space can only be matched in full. *)
Definition match_spaced_ref (digits s : str) : option nat :=
  let '(w0, r0) := span isspace s in
  if startswith digits r0 then
    let r1 := skipn (length digits) r0 in
    let '(w1, r2) := span isspace r1 in
    match w1, r2 with
    | _ :: _, z :: r3 =>
      if eqc z "0"%char then
        let '(w2, r4) := span isspace r3 in
        match w2, r4 with
        | _ :: _, c :: _ =>
          if eqc c "R"%char
          then Some (length w0 + length digits + length w1 + 1 + length w2 + 1)%nat
          else None
        | _, _ => None
        end
      else None
    | _, _ => None
    end
  else None.

(** The pattern [r'\s+']. *)
Definition match_spaces (s : str) : option nat :=
  match fst (span isspace s) with
  | [] => None
  | w => Some (length w)
  end.

(** [s.replace(old, new)] for a non-empty [old]. *)
Fixpoint str_replace (fuel : nat) (old new s : str) : str :=
  match fuel with
  | O => []
  | S fuel' =>
    match s with
    | [] => []
    | c :: s' =>
      if startswith old s && negb (Nat.eqb (length old) 0)
      then new ++ str_replace fuel' old new (skipn (length old) s)
      else c :: str_replace fuel' old new s'
    end
  end.

(** The helper of the script takes the token as a second argument and does
    not use it: the pattern is built from the number itself. *)
Definition remove_from_array (ocgXref : N) (arr_str : str) : str :=
  if negb (Reader.truthy arr_str) || str_eqb arr_str (of_string "null")
  then arr_str
  else
    let result := re_sub (S (length arr_str))
                    (match_spaced_ref (str_of_N ocgXref)) [] arr_str in
    let result := re_sub (S (length result)) match_spaces [chr_space] result in
    let result := str_replace (S (length result)) (of_string "[ ")
                    [chr_lbracket] result in
    str_replace (S (length result)) (of_string " ]") [chr_rbracket] result.

(** Where the default configuration is: [(d_xref, d_path)], or [None] when
    it is not found; the outer [None] is a raised exception. *)
Definition locate_config (d : Doc) : option (option (N * string)) :=
  let catalog_xref := pdf_catalog d in
  '(t, ocprop_val) ← xref_get_key d catalog_xref "OCProperties";
  if String.eqb t "dict" then
    '(t2, d_val) ← xref_get_key d catalog_xref "OCProperties/D";
    if String.eqb t2 "dict" then Some (Some (catalog_xref, "OCProperties/D"%string))
    else if negb (String.eqb t2 "null") then
      match search_indirect d_val with
      | Some x => Some (Some (x, ""%string))
      | None => Some None
      end
    else Some None
  else if negb (String.eqb t "null") then
    match search_indirect ocprop_val with
    | Some ocprop_xref =>
      '(t2, d_val) ← xref_get_key d ocprop_xref "D";
      if String.eqb t2 "dict" then Some (Some (ocprop_xref, "D"%string))
      else if negb (String.eqb t2 "null") then
        match search_indirect d_val with
        | Some x => Some (Some (x, ""%string))
        | None => Some None
        end
      else Some None
    | None => Some None
    end
  else Some None.

(** [d_path + "/ON" if d_path else "ON"] *)
Definition key_under (d_path name : string) : string :=
  if String.eqb d_path "" then name else (d_path ++ "/" ++ name)%string.

(** The array of a key, or the empty string when the key is absent. *)
Definition array_or_empty (tv : string * str) : str :=
  if negb (String.eqb (fst tv) "null") then snd tv else [].

(** [if new and new != "[]"] *)
Definition worth_writing (arr : str) : bool :=
  Reader.truthy arr && negb (str_eqb arr (of_string "[]")).

(** The script; [None] is a raised exception. *)
Definition setLayerVisibility (d : Doc) (ocgXref : N) (on : bool) : option Doc :=
  cfg ← locate_config d;
  '(d_xref, d_path) ← cfg;
  let ocg_ref := ref_token ocgXref in
  let on_key := key_under d_path "ON" in
  let off_key := key_under d_path "OFF" in
  on_tv ← xref_get_key d d_xref on_key;
  off_tv ← xref_get_key d d_xref off_key;
  if on then
    let new_on := add_to_array (array_or_empty on_tv) ocg_ref in
    let new_off := remove_from_array ocgXref (array_or_empty off_tv) in
    let d1 := xref_set_key d d_xref on_key new_on in
    Some (if worth_writing new_off then xref_set_key d1 d_xref off_key new_off
          else d1)
  else
    let new_off := add_to_array (array_or_empty off_tv) ocg_ref in
    let new_on := remove_from_array ocgXref (array_or_empty on_tv) in
    let d1 := xref_set_key d d_xref off_key new_off in
    Some (if worth_writing new_on then xref_set_key d1 d_xref on_key new_on
          else d1).

End Visibility.

Module SampleVisibility.
Import Py Engine Sample.

(** Groups A (object 5) and B (object 6); B alone is listed as hidden. *)
Definition doc_hidden : Doc :=
  mk_doc [layer 0 "A"; layer 1 "B"] 10
    (inline_ocprops "[5 0 R 6 0 R]" "[5 0 R 6 0 R]"
     ++ [ (1%N, "OCProperties/D"%string, ("dict"%string, of_string "<<...>>"));
          (1%N, "OCProperties/D/ON"%string, ("array"%string, of_string "[5 0 R]"));
          (1%N, "OCProperties/D/OFF"%string, ("array"%string, of_string "[6 0 R]")) ]).

(** Group A is shown; B (object 6) and C (object 7) are hidden. *)
Definition doc_two_hidden : Doc :=
  mk_doc [layer 0 "A"; layer 1 "B"; layer 2 "C"] 10
    (inline_ocprops "[5 0 R 6 0 R 7 0 R]" "[5 0 R 6 0 R 7 0 R]"
     ++ [ (1%N, "OCProperties/D"%string, ("dict"%string, of_string "<<...>>"));
          (1%N, "OCProperties/D/ON"%string, ("array"%string, of_string "[5 0 R]"));
          (1%N, "OCProperties/D/OFF"%string,
           ("array"%string, of_string "[6 0 R 7 0 R]")) ]).

End SampleVisibility.

(** An engine that also inserts pages: [insert_page(pno)] puts a new page
    (here the page 0) in front of the page [pno] and appends it for -1. *)
Module SampleInsert.

Definition insert_run (c : Handle.pycode) (pages : list Z)
  : (string + Handle.pyval) * list Z :=
  let n := Z.of_nat (length pages) in
  match c with
  | Handle.PyInsertPage i w h =>
    if (i =? -1) || (i =? n) then (inr Handle.VNone, pages ++ [0])
    else if (0 <=? i) && (i <? n)
         then (inr Handle.VNone,
               firstn (Z.to_nat i) pages ++ 0 :: skipn (Z.to_nat i) pages)
         else (inl "bad page number(s)"%string, pages)
  | _ => SampleEngine.page_run c pages
  end.

Definition insert_engine : Handle.Pyodide :=
  {| Handle.istate := list Z;
     Handle.run := insert_run;
     Handle.unlink := fun _ s => (inr tt, s) |}.

Definition open_world (pages : list Z) : Handle.World insert_engine :=
  {| Handle.closed := false; Handle.py := (pages : Handle.istate insert_engine);
     Handle.calls := []; Handle.heap := ∅ |}.

End SampleInsert.

(** ** The script of [deleteOCG] (document.ts, lines 717-812) *)

Module Deletion.
Import Py Engine Visibility.

(** [str(n)] on an integer. *)
Definition str_of_Z (z : Z) : str :=
  match z with
  | Zneg p => "-"%char :: str_of_N (Npos p)
  | _ => str_of_N (Z.to_N z)
  end.

Definition remove_xref_from_array (arr_str : str) (xref_to_remove : Z) : str :=
  re_sub (S (length arr_str)) (match_spaced_ref (str_of_Z xref_to_remove)) [] arr_str.

(** The body of [for key in ["ON", "OFF", "Order"]], under its [try]: an
    exception leaves the document as it is. *)
Definition update_key (target_xref : Z) (d_xref : N) (key : string) (d : Doc) : Doc :=
  match xref_get_key d d_xref key with
  | Some (tk, val) =>
    if negb (String.eqb tk "null") && Reader.truthy val
    then xref_set_key d d_xref key (remove_xref_from_array val target_xref)
    else d
  | None => d
  end.

Definition update_keys (target_xref : Z) (d_xref : N) (prefix : string) (d : Doc) : Doc :=
  fold_left (fun acc key => update_key target_xref d_xref (prefix ++ key)%string acc)
    ["ON"; "OFF"; "Order"]%string d.

(** The script; [None] is a raised exception.  The key of a loop turn,
    [d_prefix.rstrip('/') + '/' + key], is [d_prefix + key]. *)
Definition deleteOCG (d : Doc) (layerNumber : Z) : option Doc :=
  let catalog_xref := pdf_catalog d in
  '(t, ocprop_val) ← xref_get_key d catalog_xref "OCProperties";
  '(ocprop_xref, is_inline) ←
    (if String.eqb t "dict" then Some (catalog_xref, true)
     else match search_indirect ocprop_val with
          | Some r => Some (r, false)
          | None => None
          end);
  let ocgs_key := if is_inline : bool then "OCProperties/OCGs"%string else "OCGs"%string in
  '(t, ocgs_str) ← xref_get_key d ocprop_xref ocgs_key;
  if String.eqb t "null" || negb (Reader.truthy ocgs_str) then None
  else
    let ocg_xrefs := findall_refs ocgs_str in
    let target_xref :=
      if (layerNumber <? 0) || (layerNumber >=? Z.of_nat (length ocg_xrefs))
      then layerNumber
      else Z.of_N (nth (Z.to_nat layerNumber) ocg_xrefs 0%N) in
    let new_ocgs := remove_xref_from_array ocgs_str target_xref in
    let d1 := xref_set_key d ocprop_xref ocgs_key new_ocgs in
    '(t, d_val) ← xref_get_key d1 ocprop_xref
                    (if is_inline then "OCProperties/D"%string else "D"%string);
    if String.eqb t "dict" then
      let d_prefix := if is_inline then "OCProperties/D/"%string else "D/"%string in
      Some (update_keys target_xref ocprop_xref d_prefix d1)
    else if negb (String.eqb t "null") then
      match search_indirect d_val with
      | Some d_xref => Some (update_keys target_xref d_xref "" d1)
      | None => Some d1
      end
    else Some d1.

End Deletion.

(** An engine that searches: a page is its text, and a query is found on
    the pages whose text it is. *)
Module SampleSearch.

Definition search_run (c : Handle.pycode) (pages : list string)
  : (string + Handle.pyval) * list string :=
  match c with
  | Handle.PyPageCount => (inr (Handle.VNum (Z.of_nat (length pages))), pages)
  | Handle.PySearchFor i q =>
    (inr (Handle.VStr
            (if String.eqb (nth (Z.to_nat i) pages ""%string) q
             then "[[0, 0, 1, 1]]"%string else "[]"%string)), pages)
  | _ => (inr Handle.VNone, pages)
  end.

Definition search_engine : Handle.Pyodide :=
  {| Handle.istate := list string;
     Handle.run := search_run;
     Handle.unlink := fun _ s => (inr tt, s) |}.

Definition open_world (pages : list string) : Handle.World search_engine :=
  {| Handle.closed := false; Handle.py := (pages : Handle.istate search_engine);
     Handle.calls := []; Handle.heap := ∅ |}.

End SampleSearch.

(** ** More of the facade (pymupdf.ts) *)

(** *** The text of [textToPdf]

    A string of JavaScript is kept as the list of its characters; the
    replacements go character by character, so what holds below 256 holds
    for every code unit. *)

Module Escape.

Definition jstr := list ascii.
Definition lit (s : string) : jstr := list_ascii_of_string s.

Definition chr_newline : ascii := ascii_of_nat 10.
Definition chr_backslash : ascii := ascii_of_nat 92.
Definition chr_quote : ascii := ascii_of_nat 34.

(** [s.replace(/c/g, r)] for a pattern that is the one character [c]. *)
Definition replace_all (c : ascii) (r : jstr) (s : jstr) : jstr :=
  s ≫= fun x => if Ascii.eqb x c then r else [x].

Definition escapedText (text : jstr) : jstr :=
  replace_all chr_newline (lit "<br>")
  (replace_all chr_backslash [chr_backslash; chr_backslash]
  (replace_all "'" (lit "&#039;")
  (replace_all chr_quote (lit "&quot;")
  (replace_all ">" (lit "&gt;")
  (replace_all "<" (lit "&lt;")
  (replace_all "&" (lit "&amp;") text)))))).

(** What one character of the text becomes. *)
Definition escape_char (x : ascii) : jstr :=
  if Ascii.eqb x "&" then lit "&amp;"
  else if Ascii.eqb x "<" then lit "&lt;"
  else if Ascii.eqb x ">" then lit "&gt;"
  else if Ascii.eqb x chr_quote then lit "&quot;"
  else if Ascii.eqb x "'" then lit "&#039;"
  else if Ascii.eqb x chr_backslash then [chr_backslash; chr_backslash]
  else if Ascii.eqb x chr_newline then lit "<br>"
  else [x].

End Escape.

(** *** [convertPdfToRgb]

    The file system of the Ghostscript module is a map from paths to
    contents; [callMain] may do to it what it likes, and throws or returns an
    exit code. *)

Module Ghostscript.

Definition FS := gmap string (list Z).

Definition inputPath : string := "/tmp/cmyk_input.pdf".
Definition outputPath : string := "/tmp/rgb_output.pdf".

Definition args : list string :=
  [ "-dBATCH"; "-dNOPAUSE"; "-dNOSAFER"; "-dQUIET"; "-sDEVICE=pdfwrite";
    "-sColorConversionStrategy=sRGB"; "-sColorConversionStrategyForImages=sRGB";
    "-dConvertCMYKImagesToRGB=true"; "-dProcessColorModel=/DeviceRGB";
    "-dAutoFilterColorImages=true"; "-dAutoFilterGrayImages=true";
    "-dColorImageFilter=/DCTEncode"; "-dGrayImageFilter=/DCTEncode";
    "-dCompatibilityLevel=1.4";
    ("-sOutputFile=" ++ outputPath)%string; inputPath ]%string.

Inductive error :=
| Exception (e : string)         (* `Ghostscript threw exception: ${e}` *)
| ExitCode (code : Z)            (* `... failed with exit code ${exitCode}` *)
| NoOutput.                      (* 'Ghostscript did not produce output file' *)

(** [FS.unlink(path)]; [None] is the error it throws on a missing file. *)
Definition unlink (path : string) (fs : FS) : option FS :=
  match fs !! path with
  | Some _ => Some (delete path fs)
  | None => None
  end.

(** [try { gs.FS.unlink(path); } catch { }] *)
Definition try_unlink (path : string) (fs : FS) : FS :=
  default fs (unlink path fs).

Section Run.

Variable callMain : list string -> FS -> (string + Z) * FS.

Definition convertPdfToRgb (pdfData : list Z) (fs : FS) : (error + list Z) * FS :=
  let fs := <[inputPath := pdfData]> fs in
  match callMain args fs with
  | (inl e, fs) => (inl (Exception e), try_unlink inputPath fs)
  | (inr exitCode, fs) =>
    if negb (exitCode =? 0)
    then (inl (ExitCode exitCode), try_unlink outputPath (try_unlink inputPath fs))
    else
      match fs !! outputPath with
      | None => (inl NoOutput, try_unlink inputPath fs)
      | Some output =>
        (inr output, try_unlink outputPath (try_unlink inputPath fs))
      end
  end.

End Run.

End Ghostscript.

(** *** [pdfToImages] *)

Module Images.
Import StateErr.

Record ImageOptions := {
  format : option string;
  dpi : option Z;
  pages : option (list Z)
}.

Section Loop.

Variables (IState Blob Doc Image : Type).
Abbreviation E := (ES IState string).
Variable open : Blob -> E Doc.
Variable pageCount : Doc -> E Z.
(** The script of the loop, for a page, a resolution and a format. *)
Variable render : Doc -> Z -> Z -> string -> E Image.
Variable close : Doc -> E unit.

(** [Array.from({ length: pageCount }, (_, i) => i)] *)
Definition every_page (pageCount : Z) : list Z :=
  Z.of_nat <$> seq 0 (Z.to_nat pageCount).

(** [for (const pageIdx of pagesToExport)] *)
Fixpoint export_loop (doc : Doc) (format : string) (dpi pageCount : Z)
    (pagesToExport : list Z) (results : list Image) : E (list Image) :=
  match pagesToExport with
  | [] => mret results
  | pageIdx :: more =>
    if (pageIdx <? 0) || (pageIdx >=? pageCount)
    then export_loop doc format dpi pageCount more results
    else
      bytes ← render doc pageIdx dpi format;
      export_loop doc format dpi pageCount more (results ++ [bytes])
  end.

Definition pdfToImages (pdf : Blob) (options : option ImageOptions)
  : E (list Image) :=
  doc ← open pdf;
  let format := default "png"%string (options ≫= format) in
  let dpi := default 150 (options ≫= dpi) in
  pageCount ← pageCount doc;
  let pagesToExport := default (every_page pageCount) (options ≫= pages) in
  results ← export_loop doc format dpi pageCount pagesToExport [];
  close doc;;
  mret results.

(** The script on every page of a list, in its order. *)
Fixpoint render_all (doc : Doc) (format : string) (dpi : Z) (ps : list Z)
  : E (list Image) :=
  match ps with
  | [] => mret []
  | p :: ps' =>
    x ← render doc p dpi format;
    xs ← render_all doc format dpi ps';
    mret (x :: xs)
  end.

End Loop.

(** The indices the loop does not pass over. *)
Definition in_range (pageCount : Z) (pageIdx : Z) : bool :=
  negb ((pageIdx <? 0) || (pageIdx >=? pageCount)).

End Images.

(** *** The names of the handles: [open], [create], [constructor] *)

Module Names.
Import Py StateErr.

(** [`_doc${docId}`] and [`/input_${docId}`]; the counter stays far below
    2^53, where a number of JavaScript is an integer. *)
Definition docVar (docId : N) : str := of_string "_doc" ++ str_of_N docId.
Definition inputPath (docId : N) : str := of_string "/input_" ++ str_of_N docId.

Record Handle := { h_docVar : str; h_inputPath : str }.

Section Open.

Variables (IState Blob : Type).
Variable writeFile : str -> Blob -> IState -> IState.
(** [`${docVar} = pymupdf.open("${inputPath}")`], and [pymupdf.open()] for
    no path. *)
Variable run_open : str -> option str -> IState -> (string + unit) * IState.

(** The facade: its counter and the interpreter. *)
Definition Facade : Type := N * IState.

Definition open (input : Blob) : ES Facade string Handle :=
  fun '(docCounter, s) =>
    let docId := (docCounter + 1)%N in
    let s := writeFile (inputPath docId) input s in
    match run_open (docVar docId) (Some (inputPath docId)) s with
    | (inl e, s) => (inl e, (docId, s))
    | (inr _, s) =>
      (inr {| h_docVar := docVar docId; h_inputPath := inputPath docId |},
       (docId, s))
    end.

Definition create : ES Facade string Handle :=
  fun '(docCounter, s) =>
    let docId := (docCounter + 1)%N in
    match run_open (docVar docId) None s with
    | (inl e, s) => (inl e, (docId, s))
    | (inr _, s) =>
      (inr {| h_docVar := docVar docId; h_inputPath := inputPath docId |},
       (docId, s))
    end.

End Open.

(** The argument of the constructor: nothing, a string, or an object with
    an optional [assetPath]. *)
Inductive Options :=
| NoOptions
| PathString (s : str)
| OptionsObject (assetPath : option str).

Definition assetPath (options : Options) : str :=
  let p := match options with
           | PathString s => s
           | OptionsObject (Some s) => s
           | _ => of_string "./"
           end in
  if negb (endswith (of_string "/") p) then p ++ of_string "/" else p.

Definition getAssetPath (options : Options) (name : str) : str :=
  assetPath options ++ name.

End Names.

(** *** The file type of [convertToPdf] (pymupdf.ts, lines 367-376) *)

Module Convert.

Definition jstr := list ascii.
Definition lit (s : string) : jstr := list_ascii_of_string s.

(** [s.split(c)], [cur] being the piece read so far, backwards. *)
Fixpoint split_on (c : ascii) (s cur : jstr) : list jstr :=
  match s with
  | [] => [rev cur]
  | x :: s' =>
    if Ascii.eqb x c then rev cur :: split_on c s' []
    else split_on c s' (x :: cur)
  end.

Definition split (c : ascii) (s : jstr) : list jstr := split_on c s [].

(** [.pop()]: the last element, if any. *)
Definition pop (l : list jstr) : option jstr := last l.

(** [toLowerCase] on a character below 256: the letters A..Z and the
    accented capitals. *)
Definition lower_char (c : ascii) : ascii :=
  let n := nat_of_ascii c in
  if ((65 <=? n) && (n <=? 90)
      || (192 <=? n) && (n <=? 222) && negb (n =? 215))%nat
  then ascii_of_nat (n + 32) else c.

Definition toLowerCase (s : jstr) : jstr := map lower_char s.

(** [file instanceof File ? file.name : 'document'] *)
Definition filename_of (name : option jstr) : jstr := default (lit "document") name.

(** [options?.filetype ?? filename.split('.').pop()?.toLowerCase() ?? ''] *)
Definition ext_of (filetype : option jstr) (filename : jstr) : jstr :=
  match filetype with
  | Some f => f
  | None => default [] (toLowerCase <$> pop (split "." filename))
  end.

(** [ext ? `, filetype="${ext}"` : ''], as the argument the call gets. *)
Definition filetype_arg (ext : jstr) : option jstr :=
  match ext with [] => None | _ => Some ext end.

End Convert.

(** * Properties *)

(** ** [split] *)

Section SplitFacts.
Import StateErr Facade Ranges.

Variables (IState Blob Doc : Type).
Abbreviation E := (ES IState string).
Variable open : Blob -> E Doc.
Variable create : E Doc.
Variable pageCount : Doc -> E Z.
Variable insertPdf : Doc -> Doc -> Z -> Z -> E unit.
Variable saveAsBlob : Doc -> E Blob.
Variable close : Doc -> E unit.

Abbreviation split_loop := (Facade.split_loop IState Blob Doc create insertPdf saveAsBlob close).
Abbreviation extract_all := (Facade.extract_all IState Blob Doc create insertPdf saveAsBlob close).
Abbreviation split := (Facade.split IState Blob Doc open create pageCount insertPdf saveAsBlob close).

Lemma split_loop_kept source pc ranges : forall results s,
  split_loop source pc ranges results s =
  (bs ← extract_all source (kept pc ranges); mret (results ++ bs)) s.
Proof.
  induction ranges as [|r more IH]; intros results s.
  - cbn. unfold mbind, ES_bind, mret, ES_ret. by rewrite app_nil_r.
  - unfold kept. cbn [map List.filter]. unfold is_kept at 1. cbn [clamp fst snd].
    cbn [Facade.split_loop].
    destruct (Z.max 0 (start r) >? Z.min (pc - 1) (end_ r)) eqn:Hgt; cbn [negb].
    + apply IH.
    + change (clamp pc r) with (Z.max 0 (start r), Z.min (pc - 1) (end_ r)).
      cbn [Facade.extract_all].
      unfold mbind, ES_bind, mret, ES_ret.
      destruct (extract _ _ _ _ _ _ _ _ _ _ s) as [[e|b] s1]; [done|].
      rewrite IH. unfold mbind, ES_bind, mret, ES_ret. fold (kept pc more).
      destruct (extract_all source (kept pc more) s1) as [[e|bs] s2]; [done|].
      by rewrite <- app_assoc.
Qed.

Lemma extract_all_length source cs : forall s bs s',
  extract_all source cs s = (inr bs, s') -> length bs = length cs.
Proof.
  induction cs as [|[a b] cs IH]; intros s bs s' H.
  - cbn in H. by inversion H.
  - cbn [Facade.extract_all] in H.
    unfold mbind, ES_bind, mret, ES_ret in H.
    destruct (extract _ _ _ _ _ _ _ _ _ _ s) as [[e|x] s1]; [done|].
    destruct (extract_all source cs s1) as [[e|xs] s2] eqn:Hx; [done|].
    inversion H; subst. cbn. f_equal. eauto.
Qed.

Lemma kept_bounds pc ranges :
  Forall (fun c => 0 <= fst c /\ fst c <= snd c /\ snd c <= pc - 1) (kept pc ranges).
Proof.
  unfold kept. apply List.Forall_forall. intros [a b] Hin.
  apply List.filter_In in Hin as [Hin Hk].
  apply List.in_map_iff in Hin as [r [Hr _]].
  unfold clamp in Hr. inversion Hr; subst. unfold is_kept in Hk. cbn in *.
  lia.
Qed.

Lemma kept_length pc ranges : (length (kept pc ranges) <= length ranges)%nat.
Proof.
  unfold kept. etransitivity; [apply List.filter_length_le|]. by rewrite length_map.
Qed.

(** C10.  [split] clamps every requested range, start to at least 0 and end
    to at most [pageCount - 1], and passes over a range whose clamped start
    is beyond its clamped end without calling the engine and without an
    error: the call behaves as the extraction of the kept ranges alone, every
    kept range lies inside the document, and the blobs returned are as many
    as the kept ranges, which can be fewer than the ranges requested. *)
Theorem split_clamps_and_skips (pdf : Blob) (ranges : list Range) (s : IState) :
  split pdf ranges s =
    (source ← open pdf;
     pc ← pageCount source;
     results ← extract_all source (kept pc ranges);
     close source;;
     mret results) s
  /\ (forall source pc r more results s1,
        Z.max 0 (start r) > Z.min (pc - 1) (end_ r) ->
        split_loop source pc (r :: more) results s1 =
        split_loop source pc more results s1)
  /\ (forall pc,
        Forall (fun c => 0 <= fst c /\ fst c <= snd c /\ snd c <= pc - 1)
          (kept pc ranges)
        /\ (length (kept pc ranges) <= length ranges)%nat)
  /\ (forall results s',
        split pdf ranges s = (inr results, s') ->
        (length results <= length ranges)%nat).
Proof.
  assert (Heq : split pdf ranges s =
    (source ← open pdf;
     pc ← pageCount source;
     results ← extract_all source (kept pc ranges);
     close source;;
     mret results) s).
  { unfold split, Facade.split. unfold mbind, ES_bind.
    destruct (open pdf s) as [[e|source] s1]; [done|].
    destruct (pageCount source s1) as [[e|pc] s2]; [done|].
    rewrite split_loop_kept.
    unfold mbind, ES_bind, mret, ES_ret.
    by destruct (extract_all source (kept pc ranges) s2) as [[e|bs] s3]. }
  split; [exact Heq|]. split; [|split].
  - intros source pc r more results s1 Hgt.
    cbn [Facade.split_loop].
    by rewrite (proj2 (Z.gtb_gt _ _) Hgt).
  - intros pc. split; [apply kept_bounds | apply kept_length].
  - intros results s' H. rewrite Heq in H.
    unfold mbind, ES_bind, mret, ES_ret in H.
    destruct (open pdf s) as [[e|source] s1]; [done|].
    destruct (pageCount source s1) as [[e|pc] s2]; [done|].
    destruct (extract_all source (kept pc ranges) s2) as [[e|bs] s3] eqn:Hx; [done|].
    destruct (close source s3) as [[e|[]] s4]; [done|].
    inversion H; subst. apply extract_all_length in Hx. rewrite Hx.
    apply kept_length.
Qed.

End SplitFacts.

(** Three ranges on a five-page document: the second is beyond the end and
    is passed over, the third is cut to the last page. *)
Lemma split_clamps_and_skips_witness :
  let ranges := [ {| Facade.start := -2; Facade.end_ := 1 |};
                  {| Facade.start := 7; Facade.end_ := 9 |};
                  {| Facade.start := 3; Facade.end_ := 40 |} ] in
  fst (SampleEngine.sp_split [10; 11; 12; 13; 14] ranges [])
    = inr [[10; 11]; [13; 14]]
  /\ Ranges.kept 5 ranges = [(0, 1); (3, 4)]
  /\ (length [[10; 11]; [13; 14]] <= length ranges)%nat.
Proof.
  intros ranges.
  split; [reflexivity|]. split; [reflexivity|].
  apply (proj2 (proj2 (proj2 (split_clamps_and_skips _ _ _
    SampleEngine.sp_open SampleEngine.sp_create SampleEngine.sp_pageCount
    SampleEngine.sp_insertPdf SampleEngine.sp_saveAsBlob SampleEngine.sp_close
    [10; 11; 12; 13; 14] ranges []))) [[10; 11]; [13; 14]]
    (snd (SampleEngine.sp_split [10; 11; 12; 13; 14] ranges []))).
  reflexivity.
Defined.

(** ** [compressPdf] *)

Section CompressFacts.
Import Facade.

Variable PDoc : Type.
Variable pymupdf_open : list Byte.byte -> option PDoc.
Variable page_count : PDoc -> Z.
Variable scrub : PDoc -> ScrubArgs -> option PDoc.
Variable rewrite_images : PDoc -> ImageArgs -> option PDoc.
Variable subset_fonts : PDoc -> option PDoc.
Variable tobytes : PDoc -> TobytesArgs -> option (list Byte.byte).

Abbreviation compressPdf :=
  (Facade.compressPdf PDoc pymupdf_open page_count scrub rewrite_images
     subset_fonts tobytes).

(** What the script returns was measured where the script says: the page
    count on the document as opened, the size on the bytes written. *)
Lemma compress_script_inv input sa ci ia sf ta data cs pc :
  compress_script PDoc pymupdf_open page_count scrub rewrite_images
    subset_fonts tobytes input sa ci ia sf ta = Some (data, cs, pc) ->
  (exists doc, pymupdf_open input = Some doc /\ pc = page_count doc)
  /\ cs = Z.of_nat (length data).
Proof.
  unfold compress_script. intros H.
  destruct (pymupdf_open input) as [doc|]; [|done]. cbn in H.
  destruct (scrub doc sa) as [d1|]; [|done]. cbn in H.
  destruct (if ci then rewrite_images d1 ia else Some d1) as [d2|]; [|done]. cbn in H.
  destruct (if sf then subset_fonts d2 else Some d2) as [d3|]; [|done]. cbn in H.
  destruct (tobytes d3 ta) as [bytes|]; [|done]. cbn in H.
  inversion H; subst. eauto.
Qed.

(** C7, as amended.  The result of [compressPdf] reports the size of the
    input as given, the difference of the two sizes as the savings, the page
    count of the input as opened, before anything is changed, and the
    percentage the code computes: the ratio times 100, then times 10, rounded
    and divided by 10, each step in binary64, and 0 for an empty input.
    Nothing bounds the compressed size by the original one. *)
Theorem compressPdf_reports (pdf : list Byte.byte)
    (options : option CompressOptions) (r : CompressResult) :
  compressPdf pdf options = Some r ->
  let N := Z.of_nat (length pdf) in
  originalSize r = N
  /\ compressedSize r = Z.of_nat (length (blob r))
  /\ savings r = N - compressedSize r
  /\ (exists doc, pymupdf_open pdf = Some doc /\ pageCount r = page_count doc)
  /\ savingsPercent r = percent_as_computed N (compressedSize r).
Proof.
  intros H N. unfold Facade.compressPdf in H.
  match type of H with
  | context [compress_script _ _ _ _ _ _ _ ?i ?sa ?ci ?ia ?sf ?ta] =>
    destruct (compress_script PDoc pymupdf_open page_count scrub rewrite_images
                subset_fonts tobytes i sa ci ia sf ta)
      as [[[data cs] pc]|] eqn:Hs; [|done]
  end.
  apply compress_script_inv in Hs as [[doc [Ho Hp]] Hc].
  cbn in H. inversion H; subst; clear H. cbn.
  repeat split; eauto.
Qed.

End CompressFacts.

(** An input of 1600 bytes that compresses to 580 bytes. *)
Lemma compressPdf_reports_witness :
  exists r,
    SampleEngine.cp_compress 580 (repeat Byte.x00 1600) None = Some r
    /\ Facade.originalSize r = 1600
    /\ Facade.savings r = 1020
    /\ Facade.pageCount r = 10
    /\ Facade.savingsPercent r = Facade.percent_as_computed 1600 580.
Proof.
  destruct (SampleEngine.cp_compress 580 (repeat Byte.x00 1600) None)
    as [r|] eqn:Hr; [|vm_compute in Hr; discriminate].
  exists r. split; [reflexivity|].
  pose proof (compressPdf_reports _ _ _ _ _ _ _ _ _ _ Hr) as H.
  cbv zeta in H. destruct H as (H1 & H2 & H3 & [doc [Ho Hp]] & H5).
  assert (Hn : Z.of_nat (length (repeat Byte.x00 1600)) = 1600)
    by (vm_compute; reflexivity).
  rewrite Hn in *.
  assert (Hc : Facade.compressedSize r = 580).
  { vm_compute in Hr. inversion Hr. reflexivity. }
  rewrite Hc in *. repeat split; [exact H1 | exact H3 | | exact H5].
  inversion Ho; subst. exact Hp.
Defined.

(** C7, the counterexample.  On that input the code reports 63.7 and the
    formula of the claim gives 63.8: in binary64 the ratio 0.6375 times 100
    is just below 63.75, so that times 10 it rounds down, while times 1000
    it is 637.5 and rounds up. *)
Lemma compressPdf_percent_differs :
  exists r,
    SampleEngine.cp_compress 580 (repeat Byte.x00 1600) None = Some r
    /\ Facade.originalSize r = 1600
    /\ Facade.compressedSize r = 580
    /\ Facade.savingsPercent r = (Facade.of_Z 637 / Facade.of_Z 10)%float
    /\ Facade.percent_as_specified 1600 580 = (Facade.of_Z 638 / Facade.of_Z 10)%float
    /\ Facade.savingsPercent r <> Facade.percent_as_specified 1600 580.
Proof.
  eexists. split; [vm_compute; reflexivity|].
  repeat split; try (vm_compute; reflexivity).
  vm_compute. discriminate.
Qed.

(** ** The document handle *)

Section HandleFacts.
Import Handle.

Variable P : Pyodide.
Variable inputPath : string.

Abbreviation World := (Handle.World P).
Abbreviation close := (Handle.close P inputPath).
Abbreviation invoke := (Handle.invoke P).

Lemma ensureOpen_closed (w : World) :
  closed P w = true -> ensureOpen P w = (inl DocumentClosed, w).
Proof. unfold ensureOpen. by intros ->. Qed.

Lemma ensureOpen_open (w : World) :
  closed P w = false -> ensureOpen P w = (inr tt, w).
Proof. unfold ensureOpen. by intros ->. Qed.

(** A method that starts with [ensureOpen] throws on a closed handle, and
    the world, the log of interpreter calls included, is as it was. *)
Lemma guarded_closed {A} (k : unit -> M P A) (f : A -> retval) (w : World) :
  closed P w = true ->
  lift P f (ensureOpen P ≫= k) w = (inl DocumentClosed, w).
Proof.
  intros H. unfold lift, mbind, M_bind, bind. by rewrite ensureOpen_closed.
Qed.

Lemma close_closes (w : World) :
  fst (close w) = inr tt /\ closed P (snd (close w)) = true.
Proof.
  unfold Handle.close. destruct (closed P w) eqn:Hc; [done|].
  destruct (run P PyClose (py P w)) as [[msg|v] s1]; [done|].
  by destruct (unlink P inputPath s1).
Qed.

(** *** The generator of [pages()] *)

Lemma bind_assoc {A B C} (m : M P A) (k : A -> M P B) (h : B -> M P C) (w : World) :
  bind P (bind P m k) h w = bind P m (fun a => bind P (k a) h) w.
Proof. unfold bind. by destruct (m w) as [[e|a] w1]. Qed.

Lemma bind_ext_l {A B} (m m' : M P A) (k : A -> M P B) (w : World) :
  m w = m' w -> bind P m k w = bind P m' k w.
Proof. unfold bind. by intros ->. Qed.

Lemma drain_loop (k : nat) : forall (budget : nat) (count i : Z) (w : World),
  Z.to_nat (count - i) = k -> (k <= budget)%nat ->
  bind P (pages_loop P count i) (collect P budget) w = pages_from P i k w.
Proof.
  induction k as [|k IH]; intros budget count i w Hk Hb; unfold pages_loop.
  - destruct (Z.ltb_spec i count); [lia|]. done.
  - destruct (Z.ltb_spec i count); [|lia].
    destruct budget as [|budget]; [lia|].
    cbn [pages_from]. unfold mbind, M_bind. rewrite bind_assoc.
    unfold bind at 1 3. destruct (getPage P i w) as [[e|p] w1]; [done|].
    change (bind P (drain P (S budget) (AtYield count i))
              (fun ps => ret P (p :: ps)) w1
            = bind P (pages_from P (i + 1) k) (fun ps => ret P (p :: ps)) w1).
    apply bind_ext_l. apply (IH budget count (i + 1) w1); lia.
Qed.

(** The generator drained is [pages]: the same pages or the same error,
    and the same world. *)
Lemma drain_pages (w : World) :
  exists budget0, forall budget, (budget0 <= budget)%nat ->
    drain P budget AtStart w = pages P w.
Proof.
  unfold pages, mbind, M_bind.
  destruct (ensureOpen P w) as [[e|[]] w1] eqn:He.
  { exists 1%nat. intros [|budget] Hb; [lia|].
    cbn [drain next]. unfold mbind, M_bind. unfold bind. by rewrite He. }
  destruct (pageCount P w1) as [[e|count] w2] eqn:Hc.
  { exists 1%nat. intros [|budget] Hb; [lia|].
    cbn [drain next]. unfold mbind, M_bind. unfold bind. by rewrite He, Hc. }
  exists (S (Z.to_nat count)). intros [|budget] Hb; [lia|].
  transitivity (pages_from P 0 (Z.to_nat count) w2).
  - rewrite <- (drain_loop (Z.to_nat count) budget count 0 w2) by lia.
    cbn [drain next]. unfold mbind, M_bind, bind. by rewrite He, Hc.
  - unfold bind. by rewrite He, Hc.
Qed.

(** C5, as amended.  Once [close()] has been invoked, every accessor and
    every mutator of the handle but [pages()] throws 'Document has been
    closed' at the call and leaves the world as it found it, so that nothing
    reached the interpreter.  [pages()], a generator method, returns its
    generator and runs nothing; the first [next()] on that generator throws
    the same error, the world again as it was.  A second [close()] returns
    normally and changes nothing. *)
Theorem closed_handle_rejects (w : World) (c : method) :
  let w' := snd (close w) in
  fst (close w) = inr tt
  /\ closed P w' = true
  /\ match c with
     | CallPages =>
       invoke c w' = (inr (RGenerator AtStart), w')
       /\ next P AtStart w' = (inl DocumentClosed, w')
     | _ => invoke c w' = (inl DocumentClosed, w')
     end
  /\ calls P (snd (invoke c w')) = calls P w'
  /\ close w' = (inr tt, w').
Proof.
  intros w'. destruct (close_closes w) as [Hr Hc]. fold w' in Hc.
  split; [done|]. split; [done|]. split; [|split].
  - destruct c; cbn [Handle.invoke]; try (by apply guarded_closed).
    split; [done|]. cbn [next]. unfold mbind, M_bind, bind.
    by rewrite ensureOpen_closed.
  - assert (Hi : match c with
                 | CallPages => True
                 | _ => invoke c w' = (inl DocumentClosed, w')
                 end).
    { destruct c; cbn [Handle.invoke]; try (by apply guarded_closed). done. }
    destruct c; try (by rewrite Hi). done.
  - unfold Handle.close. by rewrite Hc.
Qed.

End HandleFacts.

(** C5, the counterexample.  On a handle that has been closed the call of
    [pages()] does not fail: it returns a generator, and the world is as it
    was.  The error comes when the generator is asked for its first page. *)
Lemma pages_call_not_rejected :
  let P := SampleEngine.page_engine in
  let w := snd (Handle.close P "/tmp/input_1" (SampleEngine.open_world [100; 101; 102])) in
  Handle.closed P w = true
  /\ Handle.invoke P Handle.CallPages w
     = (inr (Handle.RGenerator Handle.AtStart), w)
  /\ fst (Handle.invoke P Handle.CallPages w) <> inl Handle.DocumentClosed
  /\ Handle.next P Handle.AtStart w = (inl Handle.DocumentClosed, w)
  /\ Handle.calls P w = [Handle.PyClose].
Proof. cbv zeta. repeat split. vm_compute. discriminate. Qed.

(** *** Page indices *)

Section PageIndexFacts.
Import Handle.

Variable P : Pyodide.

(** The interpreter answers the page-count query with the number of pages
    of its document and is not changed by it. *)
Variable count : istate P -> Z.
Hypothesis page_count_query :
  forall s, run P PyPageCount s = (inr (VNum (count s)), s).

Lemma pageCount_open (w : World P) :
  closed P w = false ->
  pageCount P w = (inr (count (py P w)), asked P w [PyPageCount]).
Proof using page_count_query.
  intros Ho. unfold pageCount, mbind, M_bind, bind.
  rewrite ensureOpen_open by done.
  unfold runPython. rewrite page_count_query. done.
Qed.


Lemma asked_asked (w : World P) q1 q2 :
  asked P (asked P w q1) q2 = asked P w (q1 ++ q2).
Proof. unfold asked, with_py. cbn. by rewrite <- app_assoc. Qed.

Lemma getPage_open (w : World P) (index : Z) :
  closed P w = false ->
  let n := count (py P w) in
  getPage P index w =
    if index <? 0 then (inl (PageOutOfRange index (n - 1)), asked P w [PyPageCount])
    else if index >=? n
         then (inl (PageOutOfRange index (n - 1)), asked P w [PyPageCount; PyPageCount])
         else (inr {| page_index := index |}, asked P w [PyPageCount]).
Proof using page_count_query.
  intros Ho n. unfold getPage, mbind, M_bind, bind.
  rewrite ensureOpen_open by done.
  destruct (index <? 0) eqn:Hneg.
  - cbn. rewrite pageCount_open by done. done.
  - rewrite pageCount_open by done. cbn [mret M_ret ret].
    change (count (py P w)) with n.
    destruct (index >=? n) eqn:Hge; [|done].
    rewrite pageCount_open by done. rewrite asked_asked. done.
Qed.



End PageIndexFacts.



(** *** Bulk deletion *)

Section SortFacts.
Import Handle.

Lemma insert_desc_perm x l : Permutation (insert_desc x l) (x :: l).
Proof.
  induction l as [|y l IH]; cbn; [done|].
  destruct (y - x <=? 0); [done|].
  rewrite IH. apply perm_swap.
Qed.

Lemma sort_desc_perm l : Permutation (sort_desc l) l.
Proof.
  induction l as [|x l IH]; cbn; [done|].
  rewrite insert_desc_perm. by constructor.
Qed.

Lemma insert_desc_hd x y l :
  y <= x -> HdRel Z.ge x l -> HdRel Z.ge x (insert_desc y l).
Proof.
  intros Hyx Hl. destruct l as [|z l]; cbn.
  - constructor. lia.
  - inversion Hl; subst. destruct (z - y <=? 0); constructor; lia.
Qed.

Lemma insert_desc_sorted x l : Sorted Z.ge l -> Sorted Z.ge (insert_desc x l).
Proof.
  induction 1 as [|y l Hs IH Hh]; cbn.
  - by repeat constructor.
  - destruct (y - x <=? 0) eqn:Hc.
    + constructor; [by constructor|]. constructor. lia.
    + constructor; [done|]. apply insert_desc_hd; [lia|done].
Qed.

Lemma sort_desc_sorted l : Sorted Z.ge (sort_desc l).
Proof.
  induction l as [|x l IH]; cbn; [constructor|]. by apply insert_desc_sorted.
Qed.

(** Without repeated indices the order is strictly descending. *)
Lemma sort_desc_strict l : NoDup l -> Sorted Z.gt (sort_desc l).
Proof.
  intros Hnd.
  assert (Hnd' : NoDup (sort_desc l)).
  { by rewrite sort_desc_perm. }
  pose proof (sort_desc_sorted l) as Hs.
  induction Hs as [|x m Hs IH Hh]; [constructor|].
  apply NoDup_cons in Hnd' as [Hx Hm].
  constructor; [by apply IH|].
  destruct Hh as [|y m Hxy]; constructor.
  assert (x <> y) by (intros ->; apply Hx; by left).
  lia.
Qed.

End SortFacts.

Section DeletePagesFacts.
Import Handle.

Variable P : Pyodide.

Abbreviation same_but_heap := (Handle.same_but_heap P).

Abbreviation delete_call := (Handle.delete_call P).

Lemma bind_run {A B} (m : M P A) (k : A -> M P B) (w : World P) :
  (m ≫= k) w = match m w with
               | (inl e, w') => (inl e, w')
               | (inr a, w') => k a w'
               end.
Proof. done. Qed.

Lemma delete_step (i : Z) (w1 w2 : World P) :
  same_but_heap w1 w2 -> closed P w2 = false ->
  fst (delete_call i w1) = fst (deletePage P i w2)
  /\ same_but_heap (snd (delete_call i w1)) (snd (deletePage P i w2))
  /\ heap P (snd (delete_call i w1)) = heap P w1
  /\ heap P (snd (deletePage P i w2)) = heap P w2
  /\ closed P (snd (deletePage P i w2)) = false.
Proof.
  intros (Hc & Hp & Hl) Ho.
  unfold deletePage, Handle.delete_call, mbind, M_bind, bind.
  rewrite ensureOpen_open by done. unfold runPython. rewrite Hp, Hl.
  by destruct (run P (PyDeletePage i) (py P w2)) as [[msg|v] s].
Qed.

Lemma for_each_delete (l : list Z) : forall (w1 w2 : World P),
  same_but_heap w1 w2 -> closed P w2 = false ->
  fst (for_each P delete_call l w1) = fst (for_each P (deletePage P) l w2)
  /\ same_but_heap (snd (for_each P delete_call l w1))
                   (snd (for_each P (deletePage P) l w2))
  /\ heap P (snd (for_each P delete_call l w1)) = heap P w1
  /\ heap P (snd (for_each P (deletePage P) l w2)) = heap P w2.
Proof.
  induction l as [|i l IH]; intros w1 w2 Hs Ho; [done|].
  cbn [for_each]. rewrite !bind_run.
  destruct (delete_step i w1 w2 Hs Ho) as (H1 & H2 & H3 & H4 & H5).
  destruct (delete_call i w1) as [r1 w1'], (deletePage P i w2) as [r2 w2'].
  cbn [fst snd] in *. subst r2. destruct r1 as [e|[]]; [done|].
  destruct (IH w1' w2' H2 H5) as (G1 & G2 & G3 & G4).
  by rewrite G3, G4.
Qed.

(** What [deletePages] does before the loop. *)
Lemma deletePages_open (w : World P) (indices : addr) (l : list Z) :
  closed P w = false -> heap P w !! indices = Some l ->
  let copy := fresh (dom (heap P w)) in
  copy <> indices
  /\ deletePages P indices w =
     for_each P delete_call (sort_desc l)
       (with_heap P w (<[copy := sort_desc l]> (<[copy := l]> (heap P w)))).
Proof.
  intros Ho Hl copy.
  assert (Hne : copy <> indices).
  { intros Heq. pose proof (is_fresh (dom (heap P w))) as Hf. fold copy in Hf.
    rewrite Heq in Hf. apply Hf. apply elem_of_dom. eauto. }
  split; [done|].
  unfold deletePages, mbind, M_bind, bind.
  rewrite ensureOpen_open by done.
  unfold spread. rewrite Hl. cbn [default]. fold copy.
  unfold sort_in_place. cbn [heap with_heap]. rewrite lookup_insert_eq.
  unfold read_array. cbn [heap with_heap]. rewrite lookup_insert_eq. done.
Qed.

(** C4.  On an open document [deletePages(indices)] hands the interpreter
    the same deletions as one [deletePage] per index of the list sorted in
    descending order, issued on the original document: same outcome, same
    interpreter state, same calls.  The sorted list has the indices of the
    argument, each not below the next, and each above the next when no index
    is repeated. *)
Theorem deletePages_descending (w : World P) (indices : addr) (l : list Z) :
  closed P w = false -> heap P w !! indices = Some l ->
  let sorted := sort_desc l in
  Permutation sorted l
  /\ Sorted Z.ge sorted
  /\ (NoDup l -> Sorted Z.gt sorted)
  /\ fst (deletePages P indices w) = fst (for_each P (deletePage P) sorted w)
  /\ same_but_heap (snd (deletePages P indices w))
                   (snd (for_each P (deletePage P) sorted w)).
Proof.
  intros Ho Hl sorted.
  split; [apply sort_desc_perm|]. split; [apply sort_desc_sorted|].
  split; [apply sort_desc_strict|].
  destruct (deletePages_open w indices l Ho Hl) as [_ ->].
  match goal with
  | |- context [for_each P delete_call _ ?a] =>
    destruct (for_each_delete sorted a w) as (H1 & H2 & _); [done|done|]
  end.
  done.
Qed.

(** C9.  [deletePages] leaves the array it was given as it was: the sort
    works on a copy at a new address, and no array that existed before the
    call is changed. *)
Theorem deletePages_keeps_argument (w : World P) (indices : addr) (l : list Z) :
  heap P w !! indices = Some l ->
  heap P (snd (deletePages P indices w)) !! indices = Some l
  /\ (forall a, a ∈ dom (heap P w) ->
        heap P (snd (deletePages P indices w)) !! a = heap P w !! a).
Proof.
  intros Hl.
  assert (Hall : forall a, a ∈ dom (heap P w) ->
            heap P (snd (deletePages P indices w)) !! a = heap P w !! a).
  { intros a Ha. destruct (closed P w) eqn:Hc.
    - unfold deletePages, mbind, M_bind, bind. by rewrite ensureOpen_closed.
    - destruct (deletePages_open w indices l Hc Hl) as [_ ->].
      match goal with
      | |- context [for_each P delete_call ?s ?a] =>
        destruct (for_each_delete s a (with_py P w (py P w) (calls P w)))
          as (_ & _ & -> & _); [done|done|]
      end.
      cbn [heap with_heap]. rewrite !lookup_insert_ne; [done| |].
      all: intros Heq; pose proof (is_fresh (dom (heap P w))) as Hf;
        rewrite Heq in Hf; by apply Hf. }
  split; [|exact Hall].
  rewrite Hall; [done|]. apply elem_of_dom. eauto.
Qed.

End DeletePagesFacts.

(** [deletePages([5, 2, 7])] on a document of ten pages. *)
Lemma deletePages_descending_witness :
  Handle.sort_desc [5; 2; 7] = [7; 5; 2]
  /\ fst (Handle.deletePages SampleEngine.page_engine 0%nat SampleEngine.world_527)
     = fst (Handle.for_each _ (Handle.deletePage SampleEngine.page_engine)
              [7; 5; 2] SampleEngine.world_527)
  /\ Handle.calls _ (snd (Handle.deletePages SampleEngine.page_engine 0%nat SampleEngine.world_527))
     = [Handle.PyDeletePage 7; Handle.PyDeletePage 5; Handle.PyDeletePage 2]
  /\ Handle.py _ (snd (Handle.deletePages SampleEngine.page_engine 0%nat SampleEngine.world_527))
     = [0; 1; 3; 4; 6; 8; 9].
Proof.
  split; [reflexivity|]. split; [|split; vm_compute; reflexivity].
  apply (proj1 (proj2 (proj2 (proj2
    (deletePages_descending SampleEngine.page_engine SampleEngine.world_527 0%nat [5; 2; 7]
       eq_refl eq_refl))))).
Defined.

Lemma deletePages_keeps_argument_witness :
  Handle.heap _ (snd (Handle.deletePages SampleEngine.page_engine 0%nat SampleEngine.world_527))
    !! 0%nat = Some [5; 2; 7].
Proof.
  apply (proj1 (deletePages_keeps_argument SampleEngine.page_engine SampleEngine.world_527
                  0%nat [5; 2; 7] eq_refl)).
Defined.

(** ** The read path *)

Section ScannerFacts.
Import Py Engine Reader.

Lemma span_app f s a b : span f s = (a, b) -> s = a ++ b.
Proof.
  revert a b. induction s as [|c s IH]; intros a b H; cbn in H.
  - by inversion H.
  - destruct (f c).
    + destruct (span f s) as [a' b'] eqn:Hs. inversion H; subst.
      cbn. f_equal. by apply IH.
    + by inversion H.
Qed.

Lemma match_ref_length s x len :
  match_ref s = Some (x, len) -> (0 < len <= length s)%nat.
Proof.
  unfold match_ref.
  destruct (span isdecimal s) as [ds r1] eqn:H1.
  destruct ds as [|d0 ds]; [done|].
  destruct (span isspace r1) as [w1 r2] eqn:H2.
  destruct w1 as [|c1 w1]; [done|]. destruct r2 as [|z r3]; [done|].
  destruct (eqc z "0"); [|done].
  destruct (span isspace r3) as [w2 r4] eqn:H3.
  destruct w2 as [|c2 w2]; [done|]. destruct r4 as [|c r5]; [done|].
  destruct (eqc c "R"); [|done].
  intros H; inversion H; subst; clear H.
  apply span_app in H1, H2, H3. subst.
  rewrite !length_app. cbn. rewrite !length_app. cbn. lia.
Qed.

Lemma scan_close_le s : forall bd, (scan_close s bd <= length s)%nat.
Proof.
  induction s as [|c s IH]; intros [|bd]; cbn; try lia.
  apply le_n_S, IH.
Qed.

(** The scanner and the traversal run in step: the state the scanner
    reaches is the state the visits give, one after the other. *)
Lemma parse_loop_visits fuel : forall frames rest depth parent last st,
  parse_loop fuel frames rest depth parent last st =
  match visit_loop fuel frames rest depth parent last with
  | Some (vs, ok) =>
    Some ((if ok then Done else Raised) (fold_left apply_visit vs st))
  | None => None
  end.
Proof.
  induction fuel as [|fuel IH]; intros frames rest depth parent last st; [done|].
  cbn [parse_loop visit_loop].
  destruct rest as [|char rest']; [done|].
  destruct (eqc char chr_lbracket).
  { destruct frames as [|frames']; [done|].
    rewrite (IH frames').
    destruct (visit_loop fuel frames' _ _ _ _) as [[vs [|]]|]; [|done|done].
    rewrite (IH (S frames')).
    destruct (visit_loop fuel (S frames') _ _ _ _) as [[ws ok]|]; [|done].
    by rewrite fold_left_app. }
  destruct (eqc char chr_rbracket); [apply IH|].
  destruct (isdigit char); [|apply IH].
  destruct (match_ref (char :: rest')) as [[x len]|]; [|apply IH].
  rewrite IH. by destruct (visit_loop fuel frames _ _ _ _) as [[ws ok]|].
Qed.

(** Enough fuel: the traversal of a text needs fewer turns than the text
    has characters, plus one. *)
Lemma visit_loop_total fuel : forall frames rest depth parent last,
  (length rest < fuel)%nat ->
  is_Some (visit_loop fuel frames rest depth parent last).
Proof.
  induction fuel as [|fuel IH]; intros frames rest depth parent last Hlen; [lia|].
  cbn [visit_loop].
  destruct rest as [|char rest']; [by eexists|]. cbn in Hlen.
  assert (Hrest : is_Some (visit_loop fuel frames rest' depth parent last))
    by (apply IH; lia).
  destruct (eqc char chr_lbracket).
  { destruct frames as [|frames']; [by eexists|].
    pose proof (scan_close_le rest' 1) as Hk.
    destruct (IH frames' (firstn (scan_close rest' 1 - 1) rest')
                (depth + 1)%N last 0%N) as [[vs ok] ->].
    { rewrite length_take. lia. }
    destruct ok; [|by eexists].
    destruct (IH (S frames') (skipn (scan_close rest' 1) rest')
                depth parent last) as [[ws ok] ->].
    { rewrite length_drop. lia. }
    by eexists. }
  destruct (eqc char chr_rbracket); [done|].
  destruct (isdigit char); [|done].
  destruct (match_ref (char :: rest')) as [[x len]|] eqn:Hm; [|done].
  apply match_ref_length in Hm. cbn in Hm.
  destruct (IH frames (skipn len (char :: rest')) depth parent x) as [[ws ok] ->].
  { rewrite length_drop. cbn. lia. }
  by eexists.
Qed.

Lemma visit_order_array_total frames order_val depth parent :
  is_Some (visit_order_array frames order_val depth parent).
Proof.
  unfold visit_order_array. destruct frames; [by eexists|].
  apply visit_loop_total. lia.
Qed.

Lemma parse_order_array_visits frames order_val depth parent st :
  exists vs ok,
    visit_order_array frames order_val depth parent = Some (vs, ok)
    /\ parse_order_array frames order_val depth parent st =
       Some ((if ok then Done else Raised) (fold_left apply_visit vs st)).
Proof.
  destruct (visit_order_array_total frames order_val depth parent)
    as [[vs ok] Hv].
  exists vs, ok. split; [done|].
  unfold parse_order_array, visit_order_array in *.
  destruct frames as [|frames']; [by inversion Hv|].
  by rewrite parse_loop_visits, Hv.
Qed.

End ScannerFacts.

Section LayerMapFacts.
Import Py Engine Reader.

Lemma last_visit_from_acc num vs : forall k a,
  last_visit_from k num vs (Some a) =
  match last_visit_from k num vs None with
  | Some b => Some b
  | None => Some a
  end.
Proof.
  induction vs as [|[[m d] p] vs IH]; intros k a; [done|].
  cbn. destruct (m =? num)%N; [|apply IH].
  rewrite (IH (S k) (k, d, p)).
  by destruct (last_visit_from (S k) num vs None).
Qed.

Lemma assign_some x d p st num :
  xref_to_num st !! x = Some num ->
  assign x d p st =
  {| layer_map :=
       dict_update num (set_position d p (display_order st)) (layer_map st);
     xref_to_num := xref_to_num st;
     display_order := (display_order st + 1)%N |}.
Proof. unfold assign. by intros ->. Qed.

Lemma assign_none x d p st :
  xref_to_num st !! x = None -> assign x d p st = st.
Proof. unfold assign. by intros ->. Qed.

(** The state after a list of visits: the counter has advanced by the
    number of resolved visits, and every entry of [layer_map] has the place
    its last resolved visit gave it. *)
Lemma fold_visits_spec vs : forall st k,
  display_order st = N.of_nat k ->
  let rv := resolved (xref_to_num st) vs in
  let st' := fold_left apply_visit vs st in
  layer_map st' =
    map (fun kv => (fst kv, place rv k (fst kv) (snd kv))) (layer_map st)
  /\ xref_to_num st' = xref_to_num st
  /\ display_order st' = N.of_nat (k + length rv).
Proof.
  induction vs as [|[[x d] p] vs IH]; intros st k Hk; cbn zeta.
  - cbn. rewrite Nat.add_0_r. repeat split; [|done].
    unfold place. cbn. rewrite <- (map_id (layer_map st)) at 1.
    apply map_ext. by intros [].
  - cbn [fold_left apply_visit resolved omap list_omap].
    fold (resolved (xref_to_num st) vs).
    destruct (xref_to_num st !! x) as [num|] eqn:Hx;
      cbn [fmap option_fmap option_map];
      [rewrite (assign_some _ _ _ _ _ Hx) | rewrite (assign_none _ _ _ _ Hx)].
    + set (st1 := {| layer_map := _; xref_to_num := _; display_order := _ |}).
      destruct (IH st1 (S k)) as (H1 & H2 & H3).
      { unfold st1. cbn. lia. }
      cbn zeta in H1, H2, H3. change (xref_to_num st1) with (xref_to_num st) in *.
      rewrite H1, H2, H3. repeat split; [|cbn; f_equal; lia].
      unfold st1, dict_update. cbn [layer_map]. rewrite map_map.
      apply map_ext. intros [key v]. cbn [fst snd].
      unfold place. cbn [last_visit_from]. rewrite Hk.
      rewrite (N.eqb_sym num key).
      destruct (key =? num)%N; cbn [fst snd]; [|done].
      rewrite last_visit_from_acc.
      by destruct (last_visit_from (S k) key _ None) as [[[j d'] p']|].
    + by apply IH.
Qed.

(** *** What the steps before the scanner keep *)

Lemma dict_set_Forall (Q : N * LayerInfo -> Prop) k v m :
  Forall Q m -> Q (k, v) -> Forall Q (dict_set k v m).
Proof.
  intros Hm Hkv. induction Hm as [|[k' v'] m Hq Hm IH]; cbn.
  - by repeat constructor.
  - destruct (k' =? k)%N; by constructor.
Qed.

Lemma dict_update_Forall (Q : N * LayerInfo -> Prop) k f m :
  (forall kv, Q kv -> Q (fst kv, f (snd kv))) ->
  Forall Q m -> Forall Q (dict_update k f m).
Proof.
  intros Hf Hm. unfold dict_update. apply Forall_map.
  eapply Forall_impl; [exact Hm|]. intros kv Hq. cbn.
  destruct (fst kv =? k)%N; [by apply Hf|done].
Qed.

Lemma dict_update_flat k f m :
  (forall i, flat (f i) = flat i) ->
  map flat (values (dict_update k f m)) = map flat (values m).
Proof.
  intros Hf. unfold values, dict_update. rewrite !map_map.
  apply map_ext. intros kv. cbn. destruct (fst kv =? k)%N; [apply Hf|done].
Qed.

Lemma initial_layer_map_tidy layers : Forall tidy (initial_layer_map layers).
Proof.
  unfold initial_layer_map.
  assert (H : forall m, Forall tidy m ->
            Forall tidy (fold_left
              (fun m l => dict_set (ui_number l) (initial_info l) m) layers m)).
  { induction layers as [|l layers IH]; intros m Hm; [done|].
    cbn. apply IH. by apply dict_set_Forall. }
  apply H. constructor.
Qed.

Lemma resolve_xrefs_keeps d names xs : forall st,
  let st' := state_of (resolve_xrefs d names xs st) in
  (Forall tidy (layer_map st) -> Forall tidy (layer_map st'))
  /\ map flat (values (layer_map st')) = map flat (values (layer_map st))
  /\ display_order st' = display_order st.
Proof.
  induction xs as [|x xs IH]; intros st; cbn zeta; [done|].
  cbn [resolve_xrefs].
  destruct (xref_get_key d x "Name") as [[t_name name_val]|]; [|done].
  destruct (negb (String.eqb t_name "null") && truthy name_val); [|apply IH].
  destruct (names !! ocg_name_of name_val) as [num|]; [|apply IH].
  match goal with |- context [resolve_xrefs d names xs ?s] =>
    destruct (IH s) as (H1 & H2 & H3) end.
  cbn zeta in H1, H2, H3. cbn [layer_map display_order] in H1, H2, H3.
  rewrite H2, H3. repeat split; [|by apply dict_update_flat].
  intros Ht. apply H1. apply dict_update_Forall; [|done].
  by intros [k v] [Hn Hp].
Qed.

Lemma resolve_step_keeps d ocgs st :
  let st' := state_of (resolve_step d ocgs st) in
  (Forall tidy (layer_map st) -> Forall tidy (layer_map st'))
  /\ map flat (values (layer_map st')) = map flat (values (layer_map st))
  /\ display_order st' = display_order st.
Proof.
  unfold resolve_step. destruct ocgs as [s|]; [|done].
  destruct (truthy s); [|done]. apply resolve_xrefs_keeps.
Qed.

(** *** The sort *)

Lemma insert_sorted_perm x l : Permutation (insert_sorted x l) (x :: l).
Proof.
  induction l as [|y l IH]; cbn; [done|].
  destruct (displayOrder x <=? displayOrder y)%N; [done|].
  rewrite IH. apply perm_swap.
Qed.

Lemma sorted_perm l : Permutation (sorted l) l.
Proof.
  induction l as [|x l IH]; cbn; [done|].
  rewrite insert_sorted_perm. by constructor.
Qed.






(** *** The keys of [layer_map] *)





End LayerMapFacts.

Section ReadPathFacts.
Import Py Engine Reader.

Lemma tidy_placed_nil m : Forall tidy m -> Forall (placed []) m.
Proof. intros H. eapply Forall_impl; [exact H|]. by intros kv [? ?]. Qed.

Lemma place_placed rv m :
  Forall tidy m ->
  Forall (placed rv) (map (fun kv => (fst kv, place rv 0 (fst kv) (snd kv))) m).
Proof.
  intros Hm. apply Forall_map. eapply Forall_impl; [exact Hm|].
  intros [key v] [Hn Hp]. unfold placed, place, last_visit. cbn [fst snd] in *.
  destruct (last_visit_from 0 key rv None) as [[[j d'] p']|]; [|done].
  split; [done|]. done.
Qed.

Lemma place_flat rv m :
  map flat (values (map (fun kv => (fst kv, place rv 0 (fst kv) (snd kv))) m))
  = map flat (values m).
Proof.
  unfold values. rewrite !map_map. apply map_ext. intros [key v]. cbn.
  unfold place. by destruct (last_visit_from 0 key rv None) as [[[j d'] p']|].
Qed.

(** The read path comes to an end on every document, and the state it
    ends in has the flat descriptors of the first loop and every group in
    the place its last visit gave it. *)
Lemma read_path_state frames d :
  exists st,
    final_state frames d = Some st
    /\ map flat (values (layer_map st))
       = map flat (values (initial_layer_map (layer_ui_configs d)))
    /\ Forall (placed (visits frames d)) (layer_map st).
Proof.
  unfold final_state, try_block, visits, state_before_order.
  pose proof (initial_layer_map_tidy (layer_ui_configs d)) as Hinit.
  destruct (locate d) as [[ocgs_str order_str]|]; cbn [mbind option_bind].
  2:{ eexists. split; [done|]. split; [done|]. by apply tidy_placed_nil. }
  destruct (resolve_step_keeps d ocgs_str (initial_state d)) as (Ht & Hf & Hd).
  cbn zeta in Ht, Hf, Hd. specialize (Ht Hinit).
  destruct (resolve_step d ocgs_str (initial_state d)) as [st1|st1];
    cbn [state_of] in *.
  2:{ eexists. split; [done|]. split; [done|]. by apply tidy_placed_nil. }
  unfold order_step. destruct order_str as [s|].
  2:{ eexists. split; [done|]. split; [done|]. by apply tidy_placed_nil. }
  destruct (truthy s).
  2:{ eexists. split; [done|]. split; [done|]. by apply tidy_placed_nil. }
  set (st0 := {| layer_map := layer_map st1; xref_to_num := xref_to_num st1;
                 display_order := 0 |}).
  destruct (parse_order_array_visits frames (inner_order_of s) 0 0 st0)
    as (vs & ok & Hv & Hp).
  rewrite Hp, Hv. cbn [fmap option_fmap option_map].
  destruct (fold_visits_spec vs st0 0 eq_refl) as (H1 & H2 & H3).
  cbn zeta in H1, H2, H3. change (xref_to_num st0) with (xref_to_num st1) in *.
  change (layer_map st0) with (layer_map st1) in *.
  exists (fold_left apply_visit vs st0).
  split; [by destruct ok|]. rewrite H1. split.
  - by rewrite place_flat.
  - by apply place_placed.
Qed.

Lemma getLayerConfig_state frames d st :
  final_state frames d = Some st ->
  getLayerConfig frames d = Some (sorted (values (layer_map st))).
Proof. unfold getLayerConfig. by intros ->. Qed.





End ReadPathFacts.

Section LayerListFacts.
Import Py Engine Reader Layers.

Lemma dict_set_keys k0 v0 (m : layer_map_t) :
  NoDup m.*1 ->
  NoDup (dict_set k0 v0 m).*1
  /\ (forall k, k ∈ (dict_set k0 v0 m).*1 <-> k = k0 \/ k ∈ m.*1)
  /\ (forall kv, kv ∈ dict_set k0 v0 m ->
        kv = (k0, v0) \/ (kv ∈ m /\ fst kv <> k0)).
Proof.
  induction m as [|[k' v'] m IH]; cbn [dict_set]; intros Hnd.
  - split; [cbn; apply NoDup_singleton|]. split.
    + intros k. cbn. rewrite list_elem_of_singleton, elem_of_nil. tauto.
    + intros kv. rewrite list_elem_of_singleton. by left.
  - cbn in Hnd. apply NoDup_cons in Hnd as [Hk' Hnd].
    destruct (N.eqb_spec k' k0) as [->|Hne].
    + split; [cbn; by apply NoDup_cons|]. split.
      * intros k. cbn. rewrite !elem_of_cons. tauto.
      * intros kv. rewrite elem_of_cons. intros [->|Hin]; [by left|].
        right. split; [by right|]. intros Heq. apply Hk'.
        rewrite <- Heq. apply list_elem_of_fmap. by exists kv.
    + destruct (IH Hnd) as (H1 & H2 & H3). split; [|split].
      * cbn. apply NoDup_cons. split; [|done]. rewrite H2. tauto.
      * intros k. cbn. rewrite !elem_of_cons, H2. tauto.
      * intros kv. rewrite elem_of_cons. intros [->|Hin].
        -- right. split; [by left|done].
        -- destruct (H3 kv Hin) as [?|[? ?]]; [by left|].
           right. split; [by right|done].
Qed.

Lemma filed_step layers u m :
  filed layers m ->
  filed (layers ++ [u]) (dict_set (ui_number u) (initial_info u) m).
Proof.
  intros (Hnd & Hk & Hv).
  destruct (dict_set_keys (ui_number u) (initial_info u) m Hnd) as (H1 & H2 & H3).
  split; [done|]. split.
  - intros k. rewrite H2, fmap_app, elem_of_app, Hk. cbn.
    rewrite list_elem_of_singleton. tauto.
  - intros k v Hin. destruct (H3 _ Hin) as [Heq|[Hin' Hne]].
    + inversion Heq; subst. exists layers, u, []. by rewrite Forall_nil.
    + destruct (Hv k v Hin') as (pre & u' & post & -> & -> & -> & Hp).
      exists pre, u', (post ++ [u]). rewrite <- app_assoc. split; [done|].
      split; [done|]. split; [done|]. rewrite Forall_app, Forall_singleton.
      split; [done|]. cbn in Hne. congruence.
Qed.

Lemma filed_fold layers : forall seen m,
  filed seen m ->
  filed (seen ++ layers)
    (fold_left (fun m l => dict_set (ui_number l) (initial_info l) m) layers m).
Proof.
  induction layers as [|u layers IH]; intros seen m H; cbn.
  - by rewrite app_nil_r.
  - replace (seen ++ u :: layers) with ((seen ++ [u]) ++ layers)
      by (by rewrite <- app_assoc).
    apply IH. by apply filed_step.
Qed.

Lemma initial_layer_map_filed layers : filed layers (initial_layer_map layers).
Proof.
  apply (filed_fold layers [] []). split; [constructor|]. split.
  - intros k. cbn. by rewrite !elem_of_nil.
  - intros k v Hin. by apply elem_of_nil in Hin.
Qed.


End LayerListFacts.

(** *** The [try] block left at any point *)

Section InterruptedFacts.
Import Py Engine Reader.








(** *** The visits made before the exception *)









End InterruptedFacts.

Section ReadPathClaims.
Import Py Engine Reader.








(** The same document under the three ways of leaving the block: at the
    end, on a full stack at the first array, and after the visit to C. *)
Example getLayerConfig_three_ways :
  Sample.summary <$> default [] (Reader.getLayerConfig 1000 Sample.doc_nested)
  = [("A"%string, (0, 0, 0)%N); ("C"%string, (1, 5, 1)%N);
     ("B"%string, (2, 9, 2)%N)]
  /\ Sample.summary <$> default [] (Reader.getLayerConfig 2 Sample.doc_nested)
     = [("A"%string, (0, 0, 0)%N); ("B"%string, (0, 0, 0)%N);
        ("C"%string, (0, 0, 0)%N)]
  /\ Sample.summary <$>
       default [] (Reader.getLayerConfig_until 1000 (Some 5%nat) Sample.doc_nested)
     = [("A"%string, (0, 0, 0)%N); ("B"%string, (0, 0, 0)%N);
        ("C"%string, (1, 5, 1)%N)].
Proof. repeat split; vm_compute; reflexivity. Qed.

End ReadPathClaims.

(** ** The write path *)

Section EditorFacts.
Import Py Editor.

Lemma eqc_eq a b : eqc a b = true <-> a = b.
Proof. apply Ascii.eqb_eq. Qed.

Lemma startswith_app p : forall s,
  startswith p s = true -> s = p ++ skipn (length p) s.
Proof.
  induction p as [|a p IH]; intros s H; [done|].
  destruct s as [|b s]; [done|]. cbn in H.
  apply andb_true_iff in H as [Hab Hs]. apply eqc_eq in Hab as ->.
  cbn. f_equal. by apply IH.
Qed.

Lemma lstrip_app s :
  exists ws, s = ws ++ lstrip s /\ Forall (fun c => isspace c = true) ws.
Proof.
  unfold lstrip. induction s as [|c s (ws & Hs & Hw)]; cbn.
  - by exists [].
  - destruct (isspace c) eqn:Hc.
    + destruct (span isspace s) as [a b]. cbn in *. exists (c :: ws).
      split; [by rewrite Hs at 1|]. by constructor.
    + by exists [].
Qed.

(** Once the token is removed the loop copies what is left. *)
Lemma remove_child_loop_removed c_ref fuel : forall rest depth,
  (length rest <= fuel)%nat ->
  remove_child_loop fuel c_ref rest depth true = rest.
Proof.
  induction fuel as [|fuel IH]; intros rest depth Hlen.
  - by destruct rest; [|cbn in Hlen; lia].
  - destruct rest as [|char rest']; [done|]. cbn in Hlen.
    cbn [remove_child_loop negb andb].
    destruct (eqc char chr_lbracket); [f_equal; apply IH; lia|].
    destruct (eqc char chr_rbracket); f_equal; apply IH; lia.
Qed.

(** Step 1 removes at most one occurrence of the token, with the white
    space after it, and adds nothing. *)
Lemma remove_child_loop_spec c_ref fuel : forall rest depth,
  (length rest < fuel)%nat ->
  let cleaned := remove_child_loop fuel c_ref rest depth false in
  cleaned = rest
  \/ exists pre ws post,
       rest = pre ++ c_ref ++ ws ++ post
       /\ cleaned = pre ++ post
       /\ Forall (fun c => isspace c = true) ws.
Proof.
  induction fuel as [|fuel IH]; intros rest depth Hlen; [lia|].
  destruct rest as [|char rest']; [by left|]. cbn in Hlen.
  cbn [remove_child_loop negb andb]. cbv zeta.
  assert (Hcopy : forall depth',
    char :: remove_child_loop fuel c_ref rest' depth' false = char :: rest'
    \/ exists pre ws post,
         char :: rest' = pre ++ c_ref ++ ws ++ post
         /\ char :: remove_child_loop fuel c_ref rest' depth' false = pre ++ post
         /\ Forall (fun c => isspace c = true) ws).
  { intros depth'. destruct (IH rest' depth') as [->|(pre & ws & post & H1 & H2 & H3)];
      [lia|by left|].
    right. exists (char :: pre), ws, post. cbn. by rewrite <- H1, H2. }
  destruct (eqc char chr_lbracket); [apply Hcopy|].
  destruct (eqc char chr_rbracket); [apply Hcopy|].
  destruct (((depth =? 1) && startswith c_ref (char :: rest')
             && boundary_ok c_ref (char :: rest'))%bool) eqn:Hm; [|apply Hcopy].
  apply andb_true_iff in Hm as [Hm _]. apply andb_true_iff in Hm as [_ Hs].
  apply startswith_app in Hs.
  destruct (lstrip_app (skipn (length c_ref) (char :: rest'))) as (ws & Hw & Hsp).
  right. exists [], ws, (lstrip (skipn (length c_ref) (char :: rest'))).
  split; [by rewrite <- Hw|]. split; [|done].
  cbn [app]. apply remove_child_loop_removed.
  assert (Hlen' : length (skipn (length c_ref) (char :: rest'))
                  = (length ws + length (lstrip (skipn (length c_ref) (char :: rest'))))%nat)
    by (by rewrite Hw at 1; rewrite length_app).
  rewrite length_drop in Hlen'. cbn [length] in Hlen'. lia.
Qed.

Lemma remove_child_from_root_spec order_string c_ref :
  let cleaned := remove_child_from_root order_string c_ref in
  cleaned = order_string
  \/ exists pre ws post,
       order_string = pre ++ c_ref ++ ws ++ post
       /\ cleaned = pre ++ post
       /\ Forall (fun c => isspace c = true) ws.
Proof. apply remove_child_loop_spec. lia. Qed.

End EditorFacts.

Section WriterFacts.
Import Py Engine Writer.

Variable add_ocg : Doc -> OcgArgs -> option (N * Doc).

(** What the script does when it does not find the parent.  Step 1 has
    taken the new token out of the root before step 2 looks for the token of
    the parent, and [if p_idx != -1] has no other branch: nothing is put
    back, and the text is written all the same.  The text written back is
    the ordering array with at most one occurrence of the new token, and the
    white space after it, taken out; the call returns the reference of the
    new group and no error reaches the caller. *)
Theorem addOCGWithParent_parent_missing (d d1 : Doc) (args : OcgArgs)
    (parentXref child_xref order_xref : N) (order_key_path : string)
    (order_str : str) (loc : location) :
  add_ocg d args = Some (child_xref, d1) ->
  locate_order d1 = Some loc ->
  writable loc = Some (order_key_path, order_xref, order_str) ->
  find (ref_token parentXref)
       (Editor.remove_child_from_root order_str (ref_token child_xref)) = None ->
  let cleaned := Editor.remove_child_from_root order_str (ref_token child_xref) in
  addOCGWithParent add_ocg d args parentXref
    = Returned child_xref (xref_set_key d1 order_xref order_key_path cleaned)
  /\ xref_get_key (doc_of (addOCGWithParent add_ocg d args parentXref))
       order_xref order_key_path = Some ("array"%string, cleaned)
  /\ (cleaned = order_str
      \/ exists pre ws post,
           order_str = pre ++ ref_token child_xref ++ ws ++ post
           /\ cleaned = pre ++ post
           /\ Forall (fun c => isspace c = true) ws).
Proof.
  intros Hadd Hloc Hw Hfind cleaned.
  assert (Hcall : addOCGWithParent add_ocg d args parentXref
    = Returned child_xref (xref_set_key d1 order_xref order_key_path cleaned)).
  { unfold addOCGWithParent. rewrite Hadd, Hloc, Hw.
    unfold Editor.modify_pdf_order.
    destruct order_str as [|c s].
    - by destruct loc as [[[p|] [x|]] [o|]]; cbn in Hw.
    - unfold Editor.insert_child. fold cleaned in Hfind. fold cleaned.
      by rewrite Hfind. }
  split; [exact Hcall|]. split.
  - rewrite Hcall. cbn. by rewrite N.eqb_refl, String.eqb_refl.
  - apply remove_child_from_root_spec.
Qed.

End WriterFacts.

(** Group C is added under group U, which the ordering array does not
    list. *)
Lemma addOCGWithParent_parent_missing_witness :
  Writer.addOCGWithParent (SampleEngine.add_ocg_as 9) Sample.doc_AU
    (SampleEngine.args "C") 6
  = Writer.Returned 9
      (Engine.xref_set_key SampleEngine.doc_AUC 1 "OCProperties/D/Order"
         (Editor.remove_child_from_root (Py.of_string "[5 0 R 9 0 R]")
            (Py.ref_token 9))).
Proof.
  apply (proj1 (addOCGWithParent_parent_missing (SampleEngine.add_ocg_as 9)
    Sample.doc_AU SampleEngine.doc_AUC (SampleEngine.args "C") 6 9 1
    "OCProperties/D/Order" (Py.of_string "[5 0 R 9 0 R]")
    (Some "OCProperties/D/Order"%string, Some 1%N,
     Some (Py.of_string "[5 0 R 9 0 R]"))
    ltac:(vm_compute; reflexivity) ltac:(vm_compute; reflexivity)
    ltac:(vm_compute; reflexivity) ltac:(vm_compute; reflexivity))).
Defined.

(** C1, the failing input.  [add_ocg] has put group C (object 9) at the
    root of the ordering array; the parent asked for, object 6, is not in
    it.  The call returns 9 and raises nothing, but the array is written
    back without the token of C: the group is not left at the root, it is in
    no place of the ordering array, and the read path finds it outside the
    hierarchy. *)
Lemma new_group_dropped_from_order :
  let r := Writer.addOCGWithParent (SampleEngine.add_ocg_as 9) Sample.doc_AU
             (SampleEngine.args "C") 6 in
  SampleEngine.order_of SampleEngine.doc_AUC = Some (Py.of_string "[5 0 R 9 0 R]")
  /\ Py.find (Py.ref_token 6) (Py.of_string "[5 0 R 9 0 R]") = None
  /\ Writer.returned r = Some 9%N
  /\ SampleEngine.order_of (Writer.doc_of r) = Some (Py.of_string "[5 0 R ]")
  /\ SampleEngine.order_of (Writer.doc_of r)
     <> SampleEngine.order_of SampleEngine.doc_AUC
  /\ Py.find (Py.ref_token 9) (Py.of_string "[5 0 R ]") = None
  /\ Sample.summary <$> default [] (Reader.getLayerConfig 1000 (Writer.doc_of r))
     = [("A"%string, (0, 0, 0)%N); ("U"%string, (0, 0, 0)%N);
        ("C"%string, (0, 0, 0)%N)]
  /\ Reader.visits 1000 (Writer.doc_of r) = [(0, 0, 0)%N].
Proof.
  cbv zeta. repeat split; try (vm_compute; reflexivity).
  vm_compute. discriminate.
Qed.

(** C2, the failing input.  Groups X (object 15) and P (object 5) are at
    the root; group C (object 20) is added under P.  The search for the
    token "5 0 R" stops inside "15 0 R", the token of X: C is written into
    a new array after X, and the read path reports it at depth 1 under
    object 15, not under object 5. *)
Lemma child_attached_to_wrong_parent :
  let r := Writer.addOCGWithParent (SampleEngine.add_ocg_as 20) SampleEngine.doc_XP
             (SampleEngine.args "C") 5 in
  SampleEngine.order_of SampleEngine.doc_XPC = Some SampleEngine.order_XPC
  /\ Py.find (Py.ref_token 5) (Py.of_string "[15 0 R 5 0 R ]") = Some 2%nat
  /\ Editor.modify_pdf_order SampleEngine.order_XPC (Py.ref_token 5) (Py.ref_token 20)
     = Py.of_string "[15 0 R [20 0 R] 5 0 R ]"
  /\ Writer.returned r = Some 20%N
  /\ SampleEngine.order_of (Writer.doc_of r)
     = Some (Py.of_string "[15 0 R [20 0 R] 5 0 R ]")
  /\ Sample.summary <$> default [] (Reader.getLayerConfig 1000 (Writer.doc_of r))
     = [("X"%string, (0, 0, 0)%N); ("C"%string, (1, 15, 1)%N);
        ("P"%string, (0, 0, 2)%N)].
Proof. cbv zeta. repeat split; vm_compute; reflexivity. Qed.

(** Under a parent whose token is not part of another one the same call
    does what is asked: C under A, at depth 1, in a new array or in the
    array of the children A has. *)
Example child_attached_to_parent :
  let r := Writer.addOCGWithParent (SampleEngine.add_ocg_as 9) Sample.doc_AU
             (SampleEngine.args "C") 5 in
  SampleEngine.order_of (Writer.doc_of r) = Some (Py.of_string "[5 0 R [9 0 R] ]")
  /\ Sample.summary <$> default [] (Reader.getLayerConfig 1000 (Writer.doc_of r))
     = [("A"%string, (0, 0, 0)%N); ("U"%string, (0, 0, 0)%N);
        ("C"%string, (1, 5, 1)%N)].
Proof. cbv zeta. repeat split; vm_compute; reflexivity. Qed.

Example child_joins_existing_children :
  let r := Writer.addOCGWithParent (SampleEngine.add_ocg_as 9) Sample.doc_AB
             (SampleEngine.args "C") 5 in
  SampleEngine.order_of (Writer.doc_of r)
    = Some (Py.of_string "[5 0 R [6 0 R 9 0 R] ]")
  /\ Sample.summary <$> default [] (Reader.getLayerConfig 1000 (Writer.doc_of r))
     = [("A"%string, (0, 0, 0)%N); ("B"%string, (1, 5, 1)%N);
        ("C"%string, (1, 5, 2)%N)].
Proof. cbv zeta. repeat split; vm_compute; reflexivity. Qed.

(** ** The patterns and the fuel of the loops *)

Section FuelFacts.
Import Py Editor.

Example match_ref_at_token :
  match_ref (of_string "15 0 R 5 0 R") = Some (15%N, 6%nat).
Proof. reflexivity. Qed.

Example match_ref_needs_generation_zero :
  match_ref (of_string "20 1 R") = None.
Proof. reflexivity. Qed.

Example findall_refs_in_array :
  findall_refs (of_string "[15 0 R 5 0 R 20 1 R 7  0 R]") = [15%N; 5%N; 7%N].
Proof. reflexivity. Qed.

Example ref_token_of_20 : ref_token 20 = of_string "20 0 R".
Proof. reflexivity. Qed.

(** [findall] needs no more turns than the text has characters, plus one:
    more fuel changes nothing. *)
Lemma findall_refs_from_enough f1 : forall f2 s,
  (length s < f1)%nat -> (length s < f2)%nat ->
  findall_refs_from f1 s = findall_refs_from f2 s.
Proof.
  induction f1 as [|f1 IH]; intros f2 s H1 H2; [lia|].
  destruct f2 as [|f2]; [lia|]. cbn [findall_refs_from].
  destruct (match_ref s) as [[n len]|] eqn:Hm.
  - apply match_ref_length in Hm. f_equal.
    apply IH; rewrite length_drop; lia.
  - destruct s as [|c s']; [done|]. cbn in H1, H2. apply IH; lia.
Qed.

(** So does step 1 of the editor. *)
Lemma remove_child_loop_enough c_ref f1 : forall f2 rest depth,
  (length rest < f1)%nat -> (length rest < f2)%nat ->
  remove_child_loop f1 c_ref rest depth false
  = remove_child_loop f2 c_ref rest depth false.
Proof.
  induction f1 as [|f1 IH]; intros f2 rest depth H1 H2; [lia|].
  destruct f2 as [|f2]; [lia|]. cbn [remove_child_loop negb andb].
  destruct rest as [|char rest']; [done|]. cbn in H1, H2.
  destruct (eqc char chr_lbracket); [f_equal; apply IH; lia|].
  destruct (eqc char chr_rbracket); [f_equal; apply IH; lia|].
  destruct (((depth =? 1) && startswith c_ref (char :: rest')
             && boundary_ok c_ref (char :: rest'))%bool);
    [|f_equal; apply IH; lia].
  destruct (lstrip_app (skipn (length c_ref) (char :: rest'))) as (ws & Hw & _).
  assert (Hlen : (length (lstrip (skipn (length c_ref) (char :: rest')))
                  <= S (length rest'))%nat).
  { assert (H : length (skipn (length c_ref) (char :: rest'))
                = (length ws + length (lstrip (skipn (length c_ref) (char :: rest'))))%nat)
      by (by rewrite Hw at 1; rewrite length_app).
    rewrite length_drop in H. cbn [length] in H. lia. }
  rewrite !remove_child_loop_removed by lia. done.
Qed.

End FuelFacts.

(** * Further properties *)

(** ** The tokens the editor writes and the pattern the reader matches *)

Section TokenFacts.
Import Py.

(** The digits of a decimal number, most significant first. *)
Lemma int_of_digits_uint (d : Decimal.uint) : forall acc,
  fold_left (fun acc c => (acc * 10 + digit_val c)%N)
    (of_string (NilEmpty.string_of_uint d)) acc
  = (acc * 10 ^ DecimalPos.Unsigned.usize d
     + DecimalPos.Unsigned.of_lu (Decimal.rev d))%N.
Proof.
  induction d; intros acc;
    cbn [NilEmpty.string_of_uint of_string list_ascii_of_string fold_left];
    [cbn; lia | ..];
    unfold Decimal.rev at 1; cbn [Decimal.revapp];
    match goal with
    | |- context [DecimalPos.Unsigned.of_lu (Decimal.revapp d ?x)] =>
      rewrite (DecimalPos.Unsigned.of_lu_revapp d x)
    end;
    rewrite IHd; cbn [DecimalPos.Unsigned.usize DecimalPos.Unsigned.of_lu];
    rewrite N.pow_succ_r';
    change (digit_val "0") with 0%N; change (digit_val "1") with 1%N;
    change (digit_val "2") with 2%N; change (digit_val "3") with 3%N;
    change (digit_val "4") with 4%N; change (digit_val "5") with 5%N;
    change (digit_val "6") with 6%N; change (digit_val "7") with 7%N;
    change (digit_val "8") with 8%N; change (digit_val "9") with 9%N;
    ring.
Qed.

Lemma digits_decimal (d : Decimal.uint) :
  Forall (fun c => isdecimal c = true) (of_string (NilEmpty.string_of_uint d)).
Proof. induction d; cbn; constructor; done. Qed.

Lemma to_uint_string (n : N) :
  NilZero.string_of_uint (N.to_uint n) = NilEmpty.string_of_uint (N.to_uint n)
  /\ N.to_uint n <> Decimal.Nil.
Proof.
  assert (H : N.to_uint n <> Decimal.Nil).
  { destruct n; [done|]. apply DecimalPos.Unsigned.to_uint_nonnil. }
  split; [|done]. unfold NilZero.string_of_uint. by destruct (N.to_uint n).
Qed.

(** [int(str(n)) == n] *)
Lemma int_of_str (n : N) : int_of_digits (str_of_N n) = n.
Proof.
  unfold int_of_digits, str_of_N. rewrite (proj1 (to_uint_string n)).
  rewrite int_of_digits_uint. cbn [N.mul].
  rewrite <- DecimalPos.Unsigned.of_uint_alt.
  apply DecimalN.Unsigned.of_to.
Qed.

Lemma str_of_N_digits (n : N) :
  Forall (fun c => isdecimal c = true) (str_of_N n) /\ str_of_N n <> [].
Proof.
  unfold str_of_N. destruct (to_uint_string n) as [-> Hn].
  split; [apply digits_decimal|]. by destruct (N.to_uint n).
Qed.

Lemma span_all f (a : str) c (rest : str) :
  Forall (fun x => f x = true) a -> f c = false ->
  span f (a ++ c :: rest) = (a, c :: rest).
Proof.
  intros Ha Hc. induction Ha as [|x a Hx Ha IH]; cbn.
  - by rewrite Hc.
  - by rewrite Hx, IH.
Qed.

Lemma match_ref_token (n : N) (rest : str) :
  match_ref (ref_token n ++ rest) = Some (n, length (ref_token n)).
Proof.
  destruct (str_of_N_digits n) as [Hd Hne].
  unfold match_ref, ref_token. rewrite <- app_assoc. cbn [of_string list_ascii_of_string app].
  rewrite (span_all isdecimal (str_of_N n) " "%char) by done.
  destruct (str_of_N n) as [|d0 ds] eqn:Hs; [done|]. rewrite <- Hs.
  cbn [span]. change (isspace " ") with true. cbn iota.
  change (isspace "0") with false. cbn iota.
  change (eqc "0" "0") with true. cbn iota.
  change (isspace " ") with true. cbn iota. change (isspace "R") with false.
  cbn iota. change (eqc "R" "R") with true. cbn iota.
  rewrite int_of_str. f_equal. f_equal. rewrite length_app. cbn. lia.
Qed.

Lemma str_of_N_inj (n m : N) : str_of_N n = str_of_N m -> n = m.
Proof. intros H. by rewrite <- (int_of_str n), <- (int_of_str m), H. Qed.

Lemma ref_token_inj (n m : N) : ref_token n = ref_token m -> n = m.
Proof. intros H. apply app_inv_tail in H. by apply str_of_N_inj. Qed.

(** X1 (document.ts, the f-strings of addOCGWithParent and the pattern of
    getLayerConfig): the token the editor writes for a reference,
    [f"{n} 0 R"], is matched by the pattern of the reader, whatever follows
    it, as the reference [n] and over its whole length; and no other
    reference has the same token. *)
Theorem match_ref_ref_token (n : N) (rest : str) :
  match_ref (ref_token n ++ rest) = Some (n, length (ref_token n))
  /\ forall m, ref_token n = ref_token m -> n = m.
Proof.
  split; [apply match_ref_token|]. intros m. apply ref_token_inj.
Qed.

End TokenFacts.

(** ** Brackets: the editor and the reader *)

Section BracketFacts.
Import Py Editor Reader.

Lemma find_scan_close (s : str) : forall (d : nat) (k : nat),
  (0 < d)%nat ->
  find_close s (Z.of_nat d) = Some k ->
  scan_close s d = S k /\ s !! k = Some chr_rbracket.
Proof.
  induction s as [|c s IH]; intros d k Hd H; [done|].
  destruct d as [|d]; [lia|]. cbn [find_close scan_close] in *.
  destruct (eqc c chr_lbracket) eqn:Hl.
  - replace (Z.of_nat (S d) + 1) with (Z.of_nat (S (S d))) in H by lia.
    destruct (Z.eqb_spec (Z.of_nat (S (S d))) 0) as [Hz|Hz]; [lia|].
    destruct (find_close s (Z.of_nat (S (S d)))) as [k'|] eqn:Hf; [|done].
    inversion H; subst. destruct (IH (S (S d)) k') as [-> Hk]; [lia|done|done].
  - destruct (eqc c chr_rbracket) eqn:Hr.
    + replace (Z.of_nat (S d) - 1) with (Z.of_nat d) in H by lia.
      destruct (Z.eqb_spec (Z.of_nat d) 0) as [Hz|Hz].
      * inversion H; subst. assert (d = 0%nat) as -> by lia.
        apply Ascii.eqb_eq in Hr as ->. split; [by destruct s|done].
      * destruct (find_close s (Z.of_nat d)) as [k'|] eqn:Hf; [|done].
        inversion H; subst. cbn [Nat.pred].
        destruct (IH d k') as [-> Hk]; [lia|done|done].
    + destruct (Z.eqb_spec (Z.of_nat (S d)) 0) as [Hz|Hz]; [lia|].
      destruct (find_close s (Z.of_nat (S d))) as [k'|] eqn:Hf; [|done].
      inversion H; subst. destruct (IH (S d) k') as [-> Hk]; [lia|done|done].
Qed.

Lemma find_scan_open (s : str) : forall (d : nat),
  (0 < d)%nat ->
  find_close s (Z.of_nat d) = None -> scan_close s d = length s.
Proof.
  induction s as [|c s IH]; intros d Hd H; [by destruct d|].
  destruct d as [|d]; [lia|]. cbn [find_close scan_close length] in *.
  destruct (eqc c chr_lbracket) eqn:Hl.
  - replace (Z.of_nat (S d) + 1) with (Z.of_nat (S (S d))) in H by lia.
    destruct (Z.eqb_spec (Z.of_nat (S (S d))) 0) as [Hz|Hz]; [lia|].
    destruct (find_close s (Z.of_nat (S (S d)))) eqn:Hf; [done|].
    f_equal. apply IH; [lia|done].
  - destruct (eqc c chr_rbracket) eqn:Hr.
    + replace (Z.of_nat (S d) - 1) with (Z.of_nat d) in H by lia.
      destruct (Z.eqb_spec (Z.of_nat d) 0) as [Hz|Hz]; [done|].
      destruct (find_close s (Z.of_nat d)) eqn:Hf; [done|].
      f_equal. cbn [Nat.pred]. apply IH; [lia|done].
    + destruct (Z.eqb_spec (Z.of_nat (S d)) 0) as [Hz|Hz]; [lia|].
      destruct (find_close s (Z.of_nat (S d))) eqn:Hf; [done|].
      f_equal. apply IH; [lia|done].
Qed.

(** X2.  The editor and the reader agree on the bracket that closes an
    array.  Where the editor finds it, at offset [k] after the opening
    bracket, there is a closing bracket, and what the reader takes for the
    children of the array is the text before it; where the editor finds
    none and inserts nothing, the reader runs to the end of the text and
    leaves out its last character. *)
Theorem closing_bracket_agreed (s : str) :
  match find_close s 1 with
  | Some k =>
    s !! k = Some chr_rbracket
    /\ firstn (scan_close s 1 - 1) s = firstn k s
    /\ skipn (scan_close s 1) s = skipn (S k) s
  | None =>
    firstn (scan_close s 1 - 1) s = firstn (length s - 1) s
    /\ skipn (scan_close s 1) s = []
  end.
Proof.
  destruct (find_close s 1) as [k|] eqn:H.
  - destruct (find_scan_close s 1 k) as [-> Hk]; [lia|done|].
    by rewrite Nat.sub_succ, Nat.sub_0_r.
  - rewrite (find_scan_open s 1) by (lia || done).
    split; [done|]. apply skipn_all.
Qed.

End BracketFacts.

(** ** The traversal of the ordering array *)

Section TraversalFacts.
Import Py Reader Nesting.

Lemma well_nested_cons depth parent last x vs :
  well_nested depth parent x vs ->
  well_nested depth parent last ((x, depth, parent) :: vs).
Proof.
  intros H [|i] y d p Hi; cbn in Hi.
  - inversion Hi; subst. by left.
  - destruct (H i y d p Hi) as [?|[Hd [?|[[-> ->]|(j & d' & p' & Hj & Hl & ->)]]]].
    + by left.
    + right. split; [done|]. by left.
    + right. split; [done|]. right. right.
      exists 0%nat, depth, parent. split; [lia|]. done.
    + right. split; [done|]. right. right.
      exists (S j), d', p'. split; [lia|]. done.
Qed.

Lemma well_nested_app depth parent last ns ws :
  well_nested (depth + 1) last 0 ns ->
  well_nested depth parent last ws ->
  well_nested depth parent last (ns ++ ws).
Proof.
  intros Hn Hw i y d p Hi. unfold visit in *.
  destruct (decide (i < length ns)%nat) as [Hlt|Hge].
  - rewrite lookup_app_l in Hi by done.
    right. destruct (Hn i y d p Hi) as [[-> ->]|[Hd [?|[[-> ->]|(j & d' & p' & Hj & Hl & ->)]]]].
    + split; [lia|]. right. by left.
    + split; [lia|]. by left.
    + split; [lia|]. by left.
    + split; [lia|]. right. right. exists j, d', p'.
      split; [done|]. rewrite lookup_app_l; [done|]. by eapply lookup_lt_Some.
  - rewrite lookup_app_r in Hi by lia.
    destruct (Hw _ y d p Hi) as [?|[Hd [?|[?|(j & d' & p' & Hj & Hl & ->)]]]].
    + by left.
    + right. split; [done|]. by left.
    + right. split; [done|]. right. by left.
    + right. split; [done|]. right. right.
      exists (length ns + j)%nat, d', p'. split; [lia|].
      rewrite lookup_app_r by lia. by replace (length ns + j - length ns)%nat with j by lia.
Qed.

Lemma visit_loop_well_nested fuel : forall frames rest depth parent last vs ok,
  visit_loop fuel frames rest depth parent last = Some (vs, ok) ->
  well_nested depth parent last vs.
Proof.
  induction fuel as [|fuel IH]; intros frames rest depth parent last vs ok H; [done|].
  cbn [visit_loop] in H.
  destruct rest as [|char rest'].
  { inversion H; subst. by intros i x d p Hi. }
  destruct (eqc char chr_lbracket).
  { destruct frames as [|frames'].
    { inversion H; subst. by intros i x d p Hi. }
    destruct (visit_loop fuel frames' _ _ _ _) as [[ns [|]]|] eqn:Hn; [| |done].
    - destruct (visit_loop fuel (S frames') _ _ _ _) as [[ws ok']|] eqn:Hw; [|done].
      inversion H; subst. apply well_nested_app; eauto.
    - inversion H; subst. rewrite <- (app_nil_r vs).
      apply well_nested_app; [eauto|]. by intros i x d p Hi. }
  destruct (eqc char chr_rbracket); [eauto|].
  destruct (isdigit char); [|eauto].
  destruct (match_ref (char :: rest')) as [[x len]|]; [|eauto].
  destruct (visit_loop fuel frames _ _ _ _) as [[ws ok']|] eqn:Hw; [|done].
  inversion H; subst. apply well_nested_cons. eauto.
Qed.

(** X3.  The hierarchy the scanner reads is well formed, whatever the text:
    a visit at depth 0 has no parent, and a deeper visit has no parent or has
    for parent a reference visited before it, exactly one level up. *)
Theorem visits_well_nested (frames : nat) (order_val : str)
    (vs : list visit) (ok : bool) :
  visit_order_array frames order_val 0 0 = Some (vs, ok) ->
  forall i x d p,
    vs !! i = Some (x, d, p) ->
    (d = 0%N /\ p = 0%N)
    \/ ((0 < d)%N
        /\ (p = 0%N
            \/ exists j d' p', (j < i)%nat /\ vs !! j = Some (p, d', p')
                               /\ d = (d' + 1)%N)).
Proof.
  unfold visit_order_array. intros H i x d p Hi.
  destruct frames as [|frames']; [by inversion H; subst|].
  apply visit_loop_well_nested in H.
  destruct (H i x d p Hi) as [?|[Hd [?|[[-> ->]|?]]]]; auto.
Qed.

End TraversalFacts.

(** The third visit of "5 0 R [6 0 R [7 0 R]] 8 0 R": reference 7, at
    depth 2 under reference 6, which is visited before it at depth 1. *)
Lemma visits_well_nested_witness :
  let vs := [(5, 0, 0); (6, 1, 5); (7, 2, 6); (8, 0, 0)]%N in
  (2 = 0 /\ 6 = 0)%N
  \/ ((0 < 2)%N
      /\ ((6 = 0)%N
          \/ exists j d' p', (j < 2)%nat /\ vs !! j = Some (6%N, d', p')
                             /\ 2%N = (d' + 1)%N)).
Proof.
  exact (visits_well_nested 1000 (Py.of_string "5 0 R [6 0 R [7 0 R]] 8 0 R")
           [(5, 0, 0); (6, 1, 5); (7, 2, 6); (8, 0, 0)]%N true
           ltac:(vm_compute; reflexivity) 2%nat 7%N 2%N 6%N eq_refl).
Defined.

(** ** Flat arrays *)

Section FlatArrayFacts.
Import Py Reader Arrays.

Lemma decimal_char c :
  isdecimal c = true ->
  eqc c chr_lbracket = false /\ eqc c chr_rbracket = false
  /\ isdigit c = true /\ isspace c = false.
Proof. destruct c as [[] [] [] [] [] [] [] []]; by cbn. Qed.

Lemma ref_token_head n :
  exists c t, ref_token n = c :: t /\ isdecimal c = true.
Proof.
  destruct (str_of_N_digits n) as [Hd Hne]. unfold ref_token.
  destruct (str_of_N n) as [|c t]; [done|]. exists c, (t ++ of_string " 0 R").
  split; [done|]. by inversion Hd.
Qed.

(** One turn of the scanner on a token. *)
Lemma visit_loop_token fuel frames n rest depth parent last :
  visit_loop (S fuel) frames (ref_token n ++ rest) depth parent last =
  match visit_loop fuel frames rest depth parent n with
  | Some (ws, ok) => Some ((n, depth, parent) :: ws, ok)
  | None => None
  end.
Proof.
  cbn [visit_loop]. destruct (ref_token_head n) as (c & t & Ht & Hc).
  destruct (decimal_char c Hc) as (Hl & Hr & Hd & _).
  destruct (ref_token n ++ rest) as [|c' r'] eqn:Hs; [by rewrite Ht in Hs|].
  assert (c' = c) as -> by (rewrite Ht in Hs; by inversion Hs).
  rewrite Hl, Hr, Hd. rewrite <- Hs.
  rewrite match_ref_token. by rewrite drop_app_length.
Qed.

Lemma visit_loop_tokens xs : forall fuel frames depth parent last,
  (length (tokens xs) < fuel)%nat ->
  visit_loop fuel frames (tokens xs) depth parent last
  = Some (map (fun x => (x, depth, parent)) xs, true).
Proof.
  induction xs as [|x xs IH]; intros fuel frames depth parent last Hf.
  - destruct fuel; [lia|done].
  - destruct fuel as [|fuel]; [lia|].
    destruct xs as [|y xs].
    + cbn [tokens map]. rewrite <- (app_nil_r (ref_token x)).
      rewrite visit_loop_token. cbn [tokens] in Hf.
      destruct fuel; [destruct (ref_token_head x) as (c & t & Ht & _);
                      rewrite Ht in Hf; cbn in Hf; lia|done].
    + change (tokens (x :: y :: xs))
        with (ref_token x ++ chr_space :: tokens (y :: xs)) in *.
      rewrite visit_loop_token.
      rewrite length_app in Hf. cbn [length] in Hf.
      assert (0 < length (ref_token x))%nat
        by (destruct (ref_token_head x) as (c & t & -> & _); cbn; lia).
      destruct fuel as [|fuel]; [lia|].
      cbn [visit_loop]. change (eqc chr_space chr_lbracket) with false.
      change (eqc chr_space chr_rbracket) with false.
      change (isdigit chr_space) with false. cbn iota.
      rewrite IH by lia. done.
Qed.

Lemma lstrip_nonspace c (s : str) : isspace c = false -> lstrip (c :: s) = c :: s.
Proof. unfold lstrip. cbn [span]. by intros ->. Qed.

Lemma rstrip_nonspace c (s : str) : isspace c = false -> rstrip (s ++ [c]) = s ++ [c].
Proof.
  intros Hc. unfold rstrip. rewrite rev_unit, lstrip_nonspace by done.
  cbn [rev]. by rewrite rev_involutive.
Qed.

Lemma inner_order_of_flat xs : inner_order_of (flat_array xs) = tokens xs.
Proof.
  unfold inner_order_of, flat_array.
  assert (Hs : strip (chr_lbracket :: tokens xs ++ [chr_rbracket])
               = chr_lbracket :: tokens xs ++ [chr_rbracket]).
  { unfold strip. rewrite lstrip_nonspace by done.
    change (chr_lbracket :: tokens xs ++ [chr_rbracket])
      with ((chr_lbracket :: tokens xs) ++ [chr_rbracket]).
    by apply rstrip_nonspace. }
  rewrite Hs. cbn [startswith]. change (eqc chr_lbracket chr_lbracket) with true.
  cbn [andb]. unfold endswith.
  change (chr_lbracket :: tokens xs ++ [chr_rbracket])
    with ((chr_lbracket :: tokens xs) ++ [chr_rbracket]).
  rewrite rev_unit. cbn [rev app startswith].
  change (eqc chr_rbracket chr_rbracket) with true. cbn [andb].
  unfold slice_1_m1, slice. cbn [length skipn]. rewrite length_app. cbn [length].
  replace (S (length (tokens xs) + 1) - 1 - 1)%nat with (length (tokens xs)) by lia.
  change (drop 0 (tokens xs ++ [chr_rbracket]))
    with (tokens xs ++ [chr_rbracket]).
  by rewrite take_app_length.
Qed.

(** X4.  A flat ordering array, the tokens of [n] references one space
    apart between brackets, is read as [n] groups at the root, in the order
    of the array, each at depth 0 and without parent; one stack frame is
    enough. *)
Theorem flat_array_read (frames : nat) (xs : list N) :
  visit_order_array (S frames) (inner_order_of (flat_array xs)) 0 0
  = Some (map (fun x => (x, 0, 0)%N) xs, true).
Proof.
  rewrite inner_order_of_flat. unfold visit_order_array.
  apply visit_loop_tokens. lia.
Qed.

End FlatArrayFacts.

(** ** One descriptor per group *)

Section DescriptorFacts.
Import Py Engine Reader Layers.

(** X5.  The read path returns one descriptor for each layer number the
    engine lists, and no other: no number twice, and every descriptor with
    the number, the name and the two flags of a layer of the list, the last
    one that has the number when several do. *)
Theorem getLayerConfig_one_per_number (frames : nat) (d : Doc) (l : list LayerInfo) :
  getLayerConfig frames d = Some l ->
  NoDup (number <$> l)
  /\ (forall n, n ∈ number <$> l <-> n ∈ ui_number <$> layer_ui_configs d)
  /\ (forall i, i ∈ l ->
        exists pre u post,
          layer_ui_configs d = pre ++ u :: post
          /\ flat i = ui_flat u
          /\ Forall (fun w => ui_number w <> number i) post).
Proof.
  intros Hl. destruct (read_path_state frames d) as (st & Hst & Hflat & _).
  rewrite (getLayerConfig_state _ _ _ Hst) in Hl. inversion Hl; subst; clear Hl.
  destruct (initial_layer_map_filed (layer_ui_configs d)) as (Hnd & Hk & Hv).
  pose proof (initial_layer_map_tidy (layer_ui_configs d)) as Htidy.
  set (m0 := initial_layer_map (layer_ui_configs d)) in *.
  assert (Hnum : number <$> values (layer_map st) = m0.*1).
  { transitivity ((fun f => f.1.1.1) <$> (flat <$> values (layer_map st))).
    - rewrite <- list_fmap_compose. by apply list_fmap_ext.
    - change (flat <$> values (layer_map st)) with (map flat (values (layer_map st))).
      rewrite Hflat. unfold values. rewrite !map_map.
      apply map_ext_Forall. eapply Forall_impl; [exact Htidy|].
      by intros [k v] [Hn _]. }
  assert (Hin0 : forall i, i ∈ values (layer_map st) ->
            exists v0, (number i, v0) ∈ m0 /\ flat v0 = flat i).
  { intros i Hi.
    assert (Hf : flat i ∈ map flat (values m0)).
    { rewrite <- Hflat. apply list_elem_of_fmap. by exists i. }
    apply list_elem_of_fmap in Hf as (v0 & Hfv & Hv0).
    unfold values in Hv0. apply list_elem_of_fmap in Hv0 as ([k v] & -> & Hkv).
    exists v. split; [|done]. rewrite Forall_forall in Htidy.
    destruct (Htidy _ Hkv) as [Hn _]. cbn in Hn, Hfv.
    replace (number i) with k; [done|].
    unfold flat in Hfv. inversion Hfv. congruence. }
  split; [|split].
  - rewrite sorted_perm. by rewrite Hnum.
  - intros n. rewrite sorted_perm, Hnum. apply Hk.
  - intros i Hi. rewrite sorted_perm in Hi.
    destruct (Hin0 i Hi) as (v0 & Hv0 & Hf).
    destruct (Hv _ _ Hv0) as (pre & u & post & Hl & Hn & -> & Hp).
    exists pre, u, post. split; [done|]. split; [by rewrite <- Hf|done].
Qed.

(** Two layers with the number 0: the descriptor is the one of the second. *)
Lemma getLayerConfig_one_per_number_witness :
  let d := Sample.mk_doc [Sample.layer 0 "A"; Sample.layer 0 "B"; Sample.layer 1 "C"] 10 [] in
  exists l,
    getLayerConfig 1000 d = Some l
    /\ NoDup (number <$> l)
    /\ Sample.summary <$> l
       = [("B"%string, (0, 0, 0)%N); ("C"%string, (0, 0, 0)%N)].
Proof.
  intros d.
  destruct (getLayerConfig 1000 d) as [l|] eqn:Hl; [|vm_compute in Hl; discriminate].
  exists l. split; [done|].
  split; [exact (proj1 (getLayerConfig_one_per_number 1000 d l Hl))|].
  vm_compute in Hl. inversion Hl. reflexivity.
Defined.

(** *** Groups of the same name *)

Lemma build_names_fold (m : layer_map_t) : forall (acc : gmap str N) name,
  Forall (fun kv => text (snd kv) <> name) m ->
  fold_left (fun acc kv => <[text (snd kv) := fst kv]> acc) m acc !! name
  = acc !! name.
Proof.
  induction m as [|kv m IH]; intros acc name Hm; [done|].
  apply Forall_cons in Hm as [Hkv Hm]. cbn. rewrite IH by done.
  by rewrite lookup_insert_ne.
Qed.

(** X6.  A name is matched to the last group that has it: among groups of
    the same display name, only the last of the layer list is given an
    object reference by the read path; a name that no group has is matched
    to none. *)
Theorem name_to_num_last_wins (m1 m2 : layer_map_t) (k : N) (v : LayerInfo) :
  Forall (fun kv => text (snd kv) <> text v) m2 ->
  build_name_to_num (m1 ++ (k, v) :: m2) !! text v = Some k.
Proof.
  intros Hm2. unfold build_name_to_num. rewrite fold_left_app. cbn.
  rewrite build_names_fold by done. apply lookup_insert_eq.
Qed.

Lemma name_to_num_last_wins_witness :
  let a := initial_info (Sample.layer 0 "Same") in
  let b := initial_info (Sample.layer 1 "Same") in
  build_name_to_num [(0%N, a); (1%N, b)] !! of_string "Same" = Some 1%N.
Proof.
  intros a b.
  exact (name_to_num_last_wins [(0%N, a)] [] 1%N b (Forall_nil_2 _)).
Defined.

End DescriptorFacts.

(** ** The two steps of the editor *)

Section EditorSteps.
Import Py Editor Depth.

Lemma depth_after_app a b d : depth_after (a ++ b) d = depth_after b (depth_after a d).
Proof. revert d. induction a as [|c a IH]; intros d; [done|]. cbn. apply IH. Qed.

Lemma remove_child_loop_depth c_ref fuel : forall rest depth,
  (length rest < fuel)%nat ->
  let cleaned := remove_child_loop fuel c_ref rest depth false in
  cleaned = rest
  \/ exists pre ws post,
       rest = pre ++ c_ref ++ ws ++ post
       /\ cleaned = pre ++ post
       /\ Forall (fun c => isspace c = true) ws
       /\ depth_after pre depth = 1
       /\ boundary_ok c_ref (c_ref ++ ws ++ post) = true.
Proof.
  induction fuel as [|fuel IH]; intros rest depth Hlen; [lia|].
  destruct rest as [|char rest']; [by left|]. cbn in Hlen.
  cbn [remove_child_loop negb andb]. cbv zeta.
  assert (Hcopy : forall depth',
    depth' = (if eqc char chr_lbracket then depth + 1
              else if eqc char chr_rbracket then depth - 1 else depth) ->
    char :: remove_child_loop fuel c_ref rest' depth' false = char :: rest'
    \/ exists pre ws post,
         char :: rest' = pre ++ c_ref ++ ws ++ post
         /\ char :: remove_child_loop fuel c_ref rest' depth' false = pre ++ post
         /\ Forall (fun c => isspace c = true) ws
         /\ depth_after pre depth = 1
         /\ boundary_ok c_ref (c_ref ++ ws ++ post) = true).
  { intros depth' Hd.
    destruct (IH rest' depth') as [->|(pre & ws & post & H1 & H2 & H3 & H4 & H5)];
      [lia|by left|].
    right. exists (char :: pre), ws, post. cbn [app depth_after].
    rewrite <- H1, H2, <- Hd. done. }
  destruct (eqc char chr_lbracket) eqn:Hl; [by apply Hcopy|].
  destruct (eqc char chr_rbracket) eqn:Hr; [by apply Hcopy|].
  destruct (((depth =? 1) && startswith c_ref (char :: rest')
             && boundary_ok c_ref (char :: rest'))%bool) eqn:Hm; [|by apply Hcopy].
  apply andb_true_iff in Hm as [Hm Hb]. apply andb_true_iff in Hm as [Hd Hs].
  apply startswith_app in Hs. apply Z.eqb_eq in Hd.
  destruct (lstrip_app (skipn (length c_ref) (char :: rest'))) as (ws & Hw & Hsp).
  right. exists [], ws, (lstrip (skipn (length c_ref) (char :: rest'))).
  split; [by rewrite <- Hw|]. split; [|split; [done|split; [done|]]].
  - cbn [app]. apply remove_child_loop_removed.
    assert (Hlen' : length (skipn (length c_ref) (char :: rest'))
                    = (length ws + length (lstrip (skipn (length c_ref) (char :: rest'))))%nat)
      by (by rewrite Hw at 1; rewrite length_app).
    rewrite length_drop in Hlen'. cbn [length] in Hlen'. lia.
  - by rewrite <- Hw, <- Hs.
Qed.

(** X7.  Step 1 of the editor takes the token of the new group out at the
    root of the array only: when it removes an occurrence, with the white
    space after it, the text before that occurrence ends at bracket depth 1
    and the token is followed by a space, a closing bracket or the end of
    the text; an occurrence inside a nested array is left where it is. *)
Theorem removal_is_at_root (order_string c_ref : str) :
  remove_child_from_root order_string c_ref <> order_string ->
  exists pre ws post,
    order_string = pre ++ c_ref ++ ws ++ post
    /\ remove_child_from_root order_string c_ref = pre ++ post
    /\ Forall (fun c => isspace c = true) ws
    /\ depth_after pre 0 = 1
    /\ boundary_ok c_ref (c_ref ++ ws ++ post) = true.
Proof.
  intros Hne.
  destruct (remove_child_loop_depth c_ref (S (length order_string)) order_string 0)
    as [H|H]; [lia|done|done].
Qed.

Lemma removal_is_at_root_witness :
  exists pre ws post,
    of_string "[5 0 R [9 0 R] 9 0 R ]" = pre ++ ref_token 9 ++ ws ++ post
    /\ remove_child_from_root (of_string "[5 0 R [9 0 R] 9 0 R ]") (ref_token 9)
       = pre ++ post
    /\ Forall (fun c => isspace c = true) ws
    /\ depth_after pre 0 = 1
    /\ boundary_ok (ref_token 9) (ref_token 9 ++ ws ++ post) = true.
Proof.
  apply removal_is_at_root. vm_compute. discriminate.
Defined.

(** *** Step 2 *)

Lemma first_nonspace_spaces (ws : str) c (t : str) :
  Forall (fun x => isspace x = true) ws -> isspace c = false ->
  first_nonspace (ws ++ c :: t) = Some (length ws).
Proof.
  intros Hw Hc. induction Hw as [|x ws Hx Hw IH]; cbn.
  - by rewrite Hc.
  - by rewrite Hx, IH.
Qed.

Lemma first_nonspace_none (ws : str) :
  Forall (fun x => isspace x = true) ws -> first_nonspace ws = None.
Proof.
  intros Hw. induction Hw as [|x ws Hx Hw IH]; cbn; [done|]. by rewrite Hx, IH.
Qed.

Lemma nth_error_middle (a : str) c (b : str) :
  nth_error (a ++ c :: b) (length a) = Some c.
Proof. induction a; cbn; auto. Qed.

Lemma drop_middle (a p b : str) : skipn (length a + length p) (a ++ p ++ b) = b.
Proof. rewrite app_assoc, <- length_app. apply drop_app_length. Qed.

Lemma take_middle (a p b : str) : firstn (length a + length p) (a ++ p ++ b) = a ++ p.
Proof. rewrite app_assoc, <- length_app. apply take_app_length. Qed.

(** The parent has no array of children: a new one is made. *)
Lemma insert_child_new (a p b c ws : str) x (t : str) :
  find p (a ++ p ++ b) = Some (length a) ->
  b = ws ++ x :: t ->
  Forall (fun x => isspace x = true) ws ->
  isspace x = false -> x <> chr_lbracket ->
  insert_child (a ++ p ++ b) p c
  = a ++ p ++ of_string " [" ++ c ++ of_string "]" ++ b.
Proof.
  intros Hfind Hb Hws Hx Hne. unfold insert_child. rewrite Hfind. cbv zeta.
  pose proof (drop_middle a p b) as Hskip. pose proof (take_middle a p b) as Htake.
  unfold insertion. rewrite Hskip. subst b.
  rewrite first_nonspace_spaces by done. cbn [fmap option_fmap option_map].
  replace (a ++ p ++ ws ++ x :: t) with ((a ++ p ++ ws) ++ x :: t)
    by (by rewrite <- !app_assoc).
  replace (length a + length p + length ws)%nat with (length (a ++ p ++ ws))
    by (rewrite !length_app; lia).
  rewrite nth_error_middle.
  destruct (eqc x chr_lbracket) eqn:He; [by apply Ascii.eqb_eq in He|].
  rewrite <- !app_assoc. rewrite Htake, Hskip. by rewrite <- !app_assoc.
Qed.

(** X8.  Step 2 on a text in which the token of the parent first occurs
    after [a].  When the next character that is not white space opens an
    array that is closed, the token of the child goes in front of the bracket
    that closes it, after a space; when it opens an array that is never
    closed, the text is left as it is; in every other case a new array with
    the child alone is put right after the token of the parent. *)
Theorem insert_child_places (a p b c : str) :
  find p (a ++ p ++ b) = Some (length a) ->
  (forall ws body rest,
     b = ws ++ chr_lbracket :: body ++ chr_rbracket :: rest ->
     Forall (fun x => isspace x = true) ws ->
     find_close (body ++ chr_rbracket :: rest) 1 = Some (length body) ->
     insert_child (a ++ p ++ b) p c
     = a ++ p ++ ws ++ chr_lbracket :: body ++ of_string " " ++ c
         ++ chr_rbracket :: rest)
  /\ (forall ws tail,
        b = ws ++ chr_lbracket :: tail ->
        Forall (fun x => isspace x = true) ws ->
        find_close tail 1 = None ->
        insert_child (a ++ p ++ b) p c = a ++ p ++ b)
  /\ (forall ws x t,
        b = ws ++ x :: t ->
        Forall (fun x => isspace x = true) ws ->
        isspace x = false -> x <> chr_lbracket ->
        insert_child (a ++ p ++ b) p c
        = a ++ p ++ of_string " [" ++ c ++ of_string "]" ++ b)
  /\ (Forall (fun x => isspace x = true) b ->
        insert_child (a ++ p ++ b) p c
        = a ++ p ++ of_string " [" ++ c ++ of_string "]" ++ b).
Proof.
  intros Hfind.
  split; [|split; [|split]]; [| |intros ws x t; by apply insert_child_new|];
    unfold insert_child; rewrite Hfind; cbv zeta;
    pose proof (drop_middle a p b) as Hskip; pose proof (take_middle a p b) as Htake;
    unfold insertion; rewrite Hskip.
  - intros ws body rest -> Hws Hclose.
    rewrite first_nonspace_spaces by done. cbn [fmap option_fmap option_map].
    replace (a ++ p ++ ws ++ chr_lbracket :: body ++ chr_rbracket :: rest)
      with ((a ++ p ++ ws) ++ chr_lbracket :: body ++ chr_rbracket :: rest)
      by (by rewrite <- !app_assoc).
    replace (length a + length p + length ws)%nat with (length (a ++ p ++ ws))
      by (rewrite !length_app; lia).
    rewrite (nth_error_middle (a ++ p ++ ws) chr_lbracket (body ++ chr_rbracket :: rest)).
    change (eqc chr_lbracket chr_lbracket) with true. cbn iota.
    replace (length (a ++ p ++ ws) + 1)%nat
      with (length ((a ++ p ++ ws) ++ [chr_lbracket])) by (rewrite !length_app; cbn; lia).
    replace ((a ++ p ++ ws) ++ chr_lbracket :: body ++ chr_rbracket :: rest)
      with (((a ++ p ++ ws) ++ [chr_lbracket]) ++ body ++ chr_rbracket :: rest)
      by (by rewrite <- !app_assoc).
    rewrite drop_app_length, Hclose. cbn [fmap option_fmap option_map].
    replace (length ((a ++ p ++ ws) ++ [chr_lbracket]) + length body)%nat
      with (length (((a ++ p ++ ws) ++ [chr_lbracket]) ++ body))
      by (rewrite !length_app; lia).
    rewrite (app_assoc _ body), take_app_length, drop_app_length.
    rewrite <- !app_assoc. done.
  - intros ws tail -> Hws Hclose.
    rewrite first_nonspace_spaces by done. cbn [fmap option_fmap option_map].
    replace (a ++ p ++ ws ++ chr_lbracket :: tail)
      with ((a ++ p ++ ws) ++ chr_lbracket :: tail)
      by (by rewrite <- !app_assoc).
    replace (length a + length p + length ws)%nat with (length (a ++ p ++ ws))
      by (rewrite !length_app; lia).
    rewrite nth_error_middle. change (eqc chr_lbracket chr_lbracket) with true.
    cbn iota.
    replace (length (a ++ p ++ ws) + 1)%nat
      with (length ((a ++ p ++ ws) ++ [chr_lbracket])) by (rewrite !length_app; cbn; lia).
    replace ((a ++ p ++ ws) ++ chr_lbracket :: tail)
      with (((a ++ p ++ ws) ++ [chr_lbracket]) ++ tail) at 1
      by (by rewrite <- !app_assoc).
    rewrite drop_app_length, Hclose. done.
  - intros Hb. rewrite first_nonspace_none by done.
    cbn [fmap option_fmap option_map]. rewrite Htake, Hskip.
    by rewrite <- !app_assoc.
Qed.

End EditorSteps.

(** The parent 5 has the child 6 already; 9 joins it. *)
Lemma insert_child_places_witness :
  Editor.insert_child (Py.of_string "[5 0 R [6 0 R] ]") (Py.ref_token 5) (Py.ref_token 9)
  = Py.of_string "[5 0 R [6 0 R 9 0 R] ]".
Proof.
  exact (proj1 (insert_child_places (Py.of_string "[") (Py.ref_token 5)
                  (Py.of_string " [6 0 R] ]") (Py.ref_token 9) eq_refl)
           (Py.of_string " ") (Py.of_string "6 0 R") (Py.of_string " ]")
           eq_refl (Forall_cons_2 (fun c => Py.isspace c = true) " "%char [] eq_refl (Forall_nil_2 _)) eq_refl).
Defined.


(** ** Layer visibility *)

Section VisibilityFacts.
Import Py Engine Visibility Arrays.

Example remove_from_array_ex :
  remove_from_array 6 (of_string "[5 0 R 6 0 R  7 0 R]") = of_string "[5 0 R 7 0 R]".
Proof. vm_compute. reflexivity. Qed.

Lemma startswith_prefix (p s : str) : startswith p (p ++ s) = true.
Proof.
  induction p as [|a p IH]; [done|]. cbn. rewrite IH.
  unfold eqc. by rewrite Ascii.eqb_refl.
Qed.

Lemma contains_middle (x p y : str) : contains p (x ++ p ++ y) = true.
Proof.
  unfold contains. induction x as [|c x IH]; cbn [app].
  - destruct (p ++ y) eqn:E; cbn [find]; rewrite <- ?E, startswith_prefix; done.
  - cbn [find]. destruct (startswith p (c :: x ++ p ++ y)); [done|].
    destruct (find p (x ++ p ++ y)); done.
Qed.

Lemma add_to_array_contains (arr_str xref_ref : str) :
  contains xref_ref (add_to_array arr_str xref_ref) = true.
Proof.
  unfold add_to_array.
  destruct (negb (Reader.truthy arr_str) || str_eqb arr_str (of_string "null")).
  - apply (contains_middle [chr_lbracket] xref_ref [chr_rbracket]).
  - destruct (contains xref_ref arr_str) eqn:Hc; [done|].
    rewrite cons_middle, (app_assoc _ [chr_space]).
    apply (contains_middle _ xref_ref [chr_rbracket]).
Qed.

(** X9 (document.ts, add_to_array): the array the helper returns names
    the reference, and adding the same reference again changes nothing. *)
Theorem add_to_array_idempotent (arr_str xref_ref : str) :
  contains xref_ref (add_to_array arr_str xref_ref) = true
  /\ add_to_array (add_to_array arr_str xref_ref) xref_ref
     = add_to_array arr_str xref_ref.
Proof.
  pose proof (add_to_array_contains arr_str xref_ref) as Hin.
  split; [done|].
  unfold add_to_array at 1.
  destruct (negb (Reader.truthy (add_to_array arr_str xref_ref))
            || str_eqb (add_to_array arr_str xref_ref) (of_string "null")) eqn:Hn.
  - exfalso. apply orb_true_iff in Hn as [Hn|Hn].
    + unfold add_to_array in Hn, Hin.
      destruct (negb (Reader.truthy arr_str) || str_eqb arr_str (of_string "null")) eqn:Ha.
      * done.
      * destruct (contains xref_ref arr_str).
        -- apply orb_false_iff in Ha as [Ha _]. by rewrite Ha in Hn.
        -- unfold Reader.truthy in Hn. rewrite length_app in Hn. cbn in Hn.
           destruct (Nat.eqb_spec (length (rstrip_bracket arr_str) + S (length (xref_ref ++ [chr_rbracket]))) 0) as [Hz|Hz]; [lia|done].
    + unfold str_eqb in Hn. apply bool_decide_eq_true in Hn.
      unfold add_to_array in Hn.
      destruct (negb (Reader.truthy arr_str) || str_eqb arr_str (of_string "null")) eqn:Ha.
      * done.
      * destruct (contains xref_ref arr_str).
        -- apply orb_false_iff in Ha as [_ Ha].
           unfold str_eqb in Ha. apply bool_decide_eq_false in Ha. done.
        -- apply (f_equal (@rev ascii)) in Hn.
           rewrite cons_middle, (app_assoc _ [chr_space]), (app_assoc _ xref_ref),
             rev_unit in Hn.
           done.
  - by rewrite Hin.
Qed.

Lemma key_under_differ (d_path : string) :
  String.eqb (key_under d_path "ON") (key_under d_path "OFF") = false
  /\ String.eqb (key_under d_path "OFF") (key_under d_path "ON") = false.
Proof.
  unfold key_under. destruct (String.eqb d_path "") eqn:E; [done|].
  clear E.
  assert (H : (d_path ++ "/" ++ "ON")%string <> (d_path ++ "/" ++ "OFF")%string).
  { induction d_path as [|c p IH]; intros E; [by inversion E|].
    apply IH. by inversion E. }
  split; apply String.eqb_neq; congruence.
Qed.

(** X10 (document.ts, setLayerVisibility): when the script ends without an
    exception, the array it leaves under [ON] (turning a layer on) or under
    [OFF] (turning it off) names the layer. *)
Theorem setLayerVisibility_lists (d d' : Doc) (ocgXref : N) (on : bool) :
  setLayerVisibility d ocgXref on = Some d' ->
  exists d_xref d_path v,
    locate_config d = Some (Some (d_xref, d_path))
    /\ snd <$> xref_get_key d' d_xref (key_under d_path (if on then "ON" else "OFF"))
       = Some v
    /\ contains (ref_token ocgXref) v = true.
Proof.
  unfold setLayerVisibility. intros H.
  destruct (locate_config d) as [[[d_xref d_path]|]|]; [|done|done].
  cbn in H.
  destruct (xref_get_key d d_xref (key_under d_path "ON")) as [on_tv|]; [|done].
  destruct (xref_get_key d d_xref (key_under d_path "OFF")) as [off_tv|]; [|done].
  cbn in H. destruct (key_under_differ d_path) as [Hk1 Hk2].
  exists d_xref, d_path.
  destruct on.
  - exists (add_to_array (array_or_empty on_tv) (ref_token ocgXref)).
    split; [done|]. split; [|apply add_to_array_contains].
    inversion H; subst d'; clear H.
    destruct (worth_writing _); cbn;
      rewrite ?N.eqb_refl, ?String.eqb_refl, ?Hk1; done.
  - exists (add_to_array (array_or_empty off_tv) (ref_token ocgXref)).
    split; [done|]. split; [|apply add_to_array_contains].
    inversion H; subst d'; clear H.
    destruct (worth_writing _); cbn;
      rewrite ?N.eqb_refl, ?String.eqb_refl, ?Hk2; done.
Qed.

Lemma startswith_decimal_no (c : ascii) (t rest : str) (x : ascii) :
  isdecimal c = true -> isdecimal x = false -> startswith (c :: t) (x :: rest) = false.
Proof.
  intros Hc Hx. cbn. destruct (eqc c x) eqn:E; [|done].
  apply Ascii.eqb_eq in E. subst. by rewrite Hc in Hx.
Qed.

Lemma re_sub_only_member (x : N) (fuel : nat) :
  re_sub (S (S (S fuel))) (match_spaced_ref (str_of_N x)) [] (flat_array [x])
  = of_string "[]".
Proof.
  destruct (str_of_N_digits x) as [Hd Hne].
  destruct (str_of_N x) as [|c t] eqn:Hs; [done|].
  assert (Hc : isdecimal c = true) by (by inversion Hd).
  destruct (decimal_char c Hc) as (_ & _ & _ & Hsp).
  unfold flat_array, tokens, ref_token. rewrite Hs.
  cbn [re_sub].
  assert (H1 : match_spaced_ref (c :: t)
                 (chr_lbracket :: ((c :: t) ++ of_string " 0 R") ++ [chr_rbracket])
               = None).
  { unfold match_spaced_ref. cbn [span]. change (isspace chr_lbracket) with false.
    cbn iota. by rewrite (startswith_decimal_no c t _ chr_lbracket Hc). }
  rewrite H1. clear H1.
  assert (H2 : match_spaced_ref (c :: t)
                 (((c :: t) ++ of_string " 0 R") ++ [chr_rbracket])
               = Some (S (length t + 4))).
  { unfold match_spaced_ref. cbn [app span]. rewrite Hsp. cbn iota.
    rewrite <- app_assoc, (app_comm_cons t), startswith_prefix.
    rewrite drop_app_length. vm_compute span. cbn iota beta.
    change (eqc "0" "0") with true. change (eqc "R" "R") with true.
    cbn iota. f_equal. cbn [length]. lia. }
  cbn [app] in *. rewrite H2. cbn [app].
  replace (S (length t + 4)) with (length ((c :: t) ++ of_string " 0 R")).
  2: { rewrite length_app. cbn [length of_string list_ascii_of_string]. lia. }
  change (c :: (t ++ of_string " 0 R") ++ [chr_rbracket])
    with (((c :: t) ++ of_string " 0 R") ++ [chr_rbracket]).
  rewrite drop_app_length.
  assert (H3 : match_spaced_ref (c :: t) [chr_rbracket] = None).
  { unfold match_spaced_ref. cbn [span]. change (isspace chr_rbracket) with false.
    cbn iota. by rewrite (startswith_decimal_no c t _ chr_rbracket Hc). }
  rewrite H3. destruct fuel; reflexivity.
Qed.

Lemma remove_only_member (x : N) :
  remove_from_array x (flat_array [x]) = of_string "[]".
Proof.
  unfold remove_from_array.
  replace (negb (Reader.truthy (flat_array [x]))
           || str_eqb (flat_array [x]) (of_string "null")) with false by done.
  assert (Hl : exists f, length (flat_array [x]) = S (S f)).
  { unfold flat_array. cbn [length]. rewrite length_app. cbn [length].
    exists (length (tokens [x]) + 0)%nat. lia. }
  destruct Hl as [f ->]. rewrite re_sub_only_member. reflexivity.
Qed.

(** X11 (document.ts, setLayerVisibility): a layer that is the only member
    of the [OFF] array stays in it when it is turned on, because the script
    does not write an empty array; afterwards both [ON] and [OFF] name the
    layer. *)
Theorem last_hidden_layer_stays_listed (d d' : Doc) (ocgXref d_xref : N)
    (d_path t : string) :
  locate_config d = Some (Some (d_xref, d_path)) ->
  xref_get_key d d_xref (key_under d_path "OFF") = Some (t, flat_array [ocgXref]) ->
  t <> "null"%string ->
  setLayerVisibility d ocgXref true = Some d' ->
  xref_get_key d' d_xref (key_under d_path "OFF") = Some (t, flat_array [ocgXref])
  /\ exists v, snd <$> xref_get_key d' d_xref (key_under d_path "ON") = Some v
              /\ contains (ref_token ocgXref) v = true.
Proof.
  intros Hloc Hoff Ht. unfold setLayerVisibility. rewrite Hloc. cbn.
  destruct (xref_get_key d d_xref (key_under d_path "ON")) as [on_tv|]; [|done].
  rewrite Hoff. cbn [mbind option_bind].
  assert (Ha : array_or_empty (t, flat_array [ocgXref]) = flat_array [ocgXref]).
  { unfold array_or_empty. cbn [fst snd]. apply String.eqb_neq in Ht. by rewrite Ht. }
  rewrite Ha, remove_only_member.
  change (worth_writing (of_string "[]")) with false. cbn iota.
  intros [= <-]. destruct (key_under_differ d_path) as [Hk1 Hk2].
  split.
  - cbn. by rewrite Hk2, andb_false_r.
  - eexists. split; [|apply add_to_array_contains].
    cbn. by rewrite N.eqb_refl, String.eqb_refl.
Qed.

End VisibilityFacts.

Lemma setLayerVisibility_lists_witness :
  exists d', Visibility.setLayerVisibility SampleVisibility.doc_hidden 5 false = Some d'
  /\ exists d_xref d_path v,
       Visibility.locate_config SampleVisibility.doc_hidden = Some (Some (d_xref, d_path))
       /\ snd <$> Engine.xref_get_key d' d_xref (Visibility.key_under d_path "OFF") = Some v
       /\ Visibility.contains (Py.ref_token 5) v = true.
Proof.
  eexists. split; [reflexivity|].
  apply (setLayerVisibility_lists SampleVisibility.doc_hidden _ 5 false).
  reflexivity.
Defined.

(** Turning group B on in the sample: it is the one hidden group. *)
Lemma last_hidden_layer_stays_listed_witness :
  exists d', Visibility.setLayerVisibility SampleVisibility.doc_hidden 6 true = Some d'
  /\ Engine.xref_get_key d' 1 "OCProperties/D/OFF"
     = Some ("array"%string, Py.of_string "[6 0 R]")
  /\ snd <$> Engine.xref_get_key d' 1 "OCProperties/D/ON"
     = Some (Py.of_string "[5 0 R 6 0 R]").
Proof.
  eexists. split; [reflexivity|].
  split.
  - apply (last_hidden_layer_stays_listed SampleVisibility.doc_hidden _ 6 1
             "OCProperties/D" "array"); [reflexivity|reflexivity|done|reflexivity].
  - reflexivity.
Defined.

(** ** Pages of a handle *)

Section PageFacts.
Import Handle.

Variable P : Pyodide.

(** The interpreter answers the page-count query with the number of pages
    of its document and is not changed by it. *)
Variable count : istate P -> Z.
Hypothesis page_count_query :
  forall s, run P PyPageCount s = (inr (VNum (count s)), s).

Lemma pages_from_open (k : nat) : forall (i : Z) (w : World P),
  closed P w = false -> 0 <= i ->
  ((0 < k)%nat -> i + Z.of_nat k <= count (py P w)) ->
  pages_from P i k w
  = (inr (map (fun j => {| page_index := i + Z.of_nat j |}) (seq 0 k)),
     asked P w (repeat PyPageCount k)).
Proof using page_count_query.
  induction k as [|k IH]; intros i w Ho Hi Hk.
  - cbn. unfold asked, with_py. rewrite app_nil_r. by destruct w.
  - cbn [pages_from]. unfold mbind, M_bind, bind.
    rewrite (getPage_open P count page_count_query w i Ho). cbv zeta.
    specialize (Hk ltac:(lia)).
    destruct (Z.ltb_spec i 0) as [?|_]; [lia|].
    destruct (Z.geb_spec i (count (py P w))) as [?|_]; [lia|].
    rewrite IH; [|done|lia|cbn; lia].
    cbn [mret M_ret]. unfold ret. rewrite asked_asked.
    cbn [seq map]. rewrite Z.add_0_r, <- seq_shift, map_map.
    do 3 f_equal. apply map_ext. intros j. f_equal. lia.
Qed.

(** X12 (document.ts, pages): on an open handle the generator, run to its
    end, yields the pages 0, 1, ..., count-1 in this order, and nothing but
    page-count queries reaches the interpreter: one for the bound and one
    for each page. *)
Theorem pages_lists_every_page (w : World P) :
  closed P w = false ->
  pages P w
  = (inr (map (fun j => {| page_index := Z.of_nat j |})
            (seq 0 (Z.to_nat (count (py P w))))),
     asked P w (repeat PyPageCount (S (Z.to_nat (count (py P w)))))).
Proof using page_count_query.
  intros Ho. unfold pages, mbind, M_bind, bind.
  rewrite ensureOpen_open by done.
  rewrite (pageCount_open P count page_count_query w Ho).
  rewrite pages_from_open; [|done|lia|cbn; lia].
  by rewrite asked_asked.
Qed.

(** X13 (document.ts, insertBlankPage): the insertion is sent to the
    interpreter first, with the A4 size 595 x 842 for what is left out, and
    the index is checked afterwards against the page count the insertion
    left.  When the interpreter accepted the index and this check refuses
    it, the method throws and the inserted page stays. *)
Theorem insertBlankPage_checks_afterwards (w : World P) (index : Z)
    (width height : option Z) :
  closed P w = false ->
  let code := PyInsertPage index (default 595 width) (default 842 height) in
  let s1 := snd (run P code (py P w)) in
  let after := insertBlankPage P index width height w in
  head (skipn (length (calls P w)) (calls P (snd after))) = Some code
  /\ py P (snd after) = s1
  /\ (forall v, fst (run P code (py P w)) = inr v ->
        fst after = if (index <? 0) || (index >=? count s1)
                    then inl (PageOutOfRange index (count s1 - 1))
                    else inr {| page_index := index |}).
Proof using page_count_query.
  intros Ho code s1 after. subst after. unfold insertBlankPage, mbind, M_bind, bind.
  rewrite ensureOpen_open by done. unfold runPython. fold code.
  subst s1. destruct (run P code (py P w)) as [[msg|v] s] eqn:Hr; cbn [fst snd].
  - cbn. rewrite drop_app_length. by repeat split.
  - rewrite (getPage_open P count page_count_query) by done. cbv zeta.
    cbn [py with_py calls].
    destruct (index <? 0); [|destruct (index >=? count s)]; cbn;
      rewrite <- ?app_assoc, drop_app_length; repeat split; try done;
      by intros ? [= <-].
Qed.

(** The interpreter answers a search without changing. *)
Variable hits : istate P -> Z -> string -> string.
Hypothesis search_query :
  forall s i q, run P (PySearchFor i q) s = (inr (VStr (hits s i q)), s).

Lemma flat_map_after_map {A B C} (g : A -> B) (f : B -> list C) (l : list A) :
  flat_map f (map g l) = flat_map (fun x => f (g x)) l.
Proof. induction l as [|x l IH]; [done|]. cbn. by rewrite IH. Qed.

Lemma searchText_from_open (query : string) (k : nat) :
  forall budget i (results : list (Z * string)) (w : World P),
  closed P w = false -> 0 <= i ->
  Z.to_nat (count (py P w) - i) = k -> (k < budget)%nat ->
  searchText_from P budget i query results w
  = (inr (results ++ map (fun j => (i + Z.of_nat j, hits (py P w) (i + Z.of_nat j) query))
                       (seq 0 k)),
     asked P w
       (flat_map (fun j => [PyPageCount; PyPageCount;
                            PySearchFor (i + Z.of_nat j) query]) (seq 0 k)
        ++ [PyPageCount])).
Proof using page_count_query search_query.
  induction k as [|k IH]; intros budget i results w Ho Hi Hk Hb;
    (destruct budget as [|budget]; [lia|]); cbn [searchText_from];
    unfold mbind, M_bind, bind;
    rewrite (pageCount_open P count page_count_query w Ho).
  - destruct (Z.ltb_spec i (count (py P w))) as [?|_]; [lia|].
    cbn [mret M_ret map seq flat_map app]. unfold ret. by rewrite app_nil_r.
  - destruct (Z.ltb_spec i (count (py P w))) as [_|?]; [|lia].
    rewrite (getPage_open P count page_count_query _ i) by done. cbv zeta.
    cbn [py asked with_py].
    destruct (Z.ltb_spec i 0) as [?|_]; [lia|].
    destruct (Z.geb_spec i (count (py P w))) as [?|_]; [lia|].
    unfold searchFor, mbind, M_bind, bind, runPython.
    cbn [page_index py asked with_py calls]. rewrite search_query.
    cbn [mret M_ret]. unfold ret.
    rewrite IH; [|done|lia|cbn; lia|lia].
    cbn [py with_py closed calls asked]. f_equal.
    + f_equal. rewrite <- app_assoc. f_equal. cbn [seq map app].
      rewrite Z.add_0_r. f_equal. rewrite <- seq_shift, map_map.
      apply map_ext. intros j.
      by replace (i + 1 + Z.of_nat j) with (i + Z.of_nat (S j)) by lia.
    + unfold asked, with_py. cbn [closed py calls heap]. f_equal.
      rewrite <- !app_assoc. f_equal. cbn [seq flat_map app].
      rewrite Z.add_0_r. do 3 f_equal.
      rewrite <- seq_shift, flat_map_after_map.
      f_equal. apply flat_map_ext. intros j.
      by replace (i + 1 + Z.of_nat j) with (i + Z.of_nat (S j)) by lia.
Qed.

(** X27 (document.ts, searchText): on an open handle whose interpreter
    answers page counts and searches without changing, the pages are
    searched in their order, each once, and the hits come back in that
    order; the page count is asked for twice a page, once by the loop and
    once by [getPage], and once more at the end. *)
Theorem searchText_page_order (query : string) (w : World P) :
  closed P w = false ->
  let n := Z.to_nat (count (py P w)) in
  searchText P (S n) query w
  = (inr (map (fun j => (Z.of_nat j, hits (py P w) (Z.of_nat j) query)) (seq 0 n)),
     asked P w
       (flat_map (fun j => [PyPageCount; PyPageCount; PySearchFor (Z.of_nat j) query])
          (seq 0 n)
        ++ [PyPageCount])).
Proof using page_count_query search_query.
  intros Ho n. unfold searchText, mbind, M_bind, bind.
  rewrite ensureOpen_open by done.
  rewrite (searchText_from_open query n); [done|done|lia| |lia].
  subst n. f_equal. lia.
Qed.

End PageFacts.

Section PermissionFacts.
Import Handle.

(** X14 (document.ts, save): the permission value has the bit 2 for
    printing, 3 for modifying, 4 for copying and 5 for annotating, each one
    set unless the option is [false], and no other bit; with no permissions
    given it is 60. *)
Theorem permValue_bits (perms : option Permissions) :
  let v := permValue perms in
  Z.testbit v 2 = not_false (perms ≫= perm_print)
  /\ Z.testbit v 3 = not_false (perms ≫= perm_modify)
  /\ Z.testbit v 4 = not_false (perms ≫= perm_copy)
  /\ Z.testbit v 5 = not_false (perms ≫= perm_annotate)
  /\ Z.land v 60 = v
  /\ permValue None = 60.
Proof.
  unfold permValue.
  destruct (not_false (perms ≫= perm_print)), (not_false (perms ≫= perm_modify)),
    (not_false (perms ≫= perm_copy)), (not_false (perms ≫= perm_annotate));
    by vm_compute.
Qed.

End PermissionFacts.

(** Three pages; a blank page is appended with the index -1 of the engine,
    and the method throws. *)
Lemma insertBlankPage_checks_afterwards_witness :
  let w := SampleInsert.open_world [100; 101; 102] in
  let after := Handle.insertBlankPage SampleInsert.insert_engine (-1) None None w in
  Handle.py _ (snd after) = [100; 101; 102; 0]
  /\ fst after = inl (Handle.PageOutOfRange (-1) 3).
Proof.
  intros w after.
  pose proof (insertBlankPage_checks_afterwards SampleInsert.insert_engine
                (fun s => Z.of_nat (length s)) (fun s => eq_refl) w (-1) None None
                eq_refl) as H.
  cbv zeta in H. destruct H as (_ & Hs & Hr). split.
  - exact Hs.
  - exact (Hr Handle.VNone eq_refl).
Defined.

Lemma pages_lists_every_page_witness :
  fst (Handle.pages SampleEngine.page_engine (SampleEngine.open_world [100; 101; 102]))
  = inr [ {| Handle.page_index := 0 |}; {| Handle.page_index := 1 |};
          {| Handle.page_index := 2 |} ].
Proof.
  rewrite (pages_lists_every_page SampleEngine.page_engine
             (fun s => Z.of_nat (length s)) (fun s => eq_refl)
             (SampleEngine.open_world [100; 101; 102]) eq_refl).
  reflexivity.
Defined.

(** Three pages, the first and the last with the text that is looked for. *)
Lemma searchText_page_order_witness :
  fst (Handle.searchText SampleSearch.search_engine 4 "a"
         (SampleSearch.open_world ["a"; "b"; "a"]%string))
  = inr [(0, "[[0, 0, 1, 1]]"%string); (1, "[]"%string); (2, "[[0, 0, 1, 1]]"%string)].
Proof.
  exact (f_equal fst
           (searchText_page_order SampleSearch.search_engine
              (fun s => Z.of_nat (length s)) (fun s => eq_refl)
              (fun s i q => if String.eqb (nth (Z.to_nat i) s ""%string) q
                            then "[[0, 0, 1, 1]]"%string else "[]"%string)
              (fun s i q => eq_refl) "a"
              (SampleSearch.open_world ["a"; "b"; "a"]%string) eq_refl)).
Defined.

(** ** The facade *)

Section EscapeFacts.
Import Escape.

Lemma replace_all_bind (c : ascii) (r : jstr) (f : ascii -> jstr) (s : jstr) :
  replace_all c r (s ≫= f) = s ≫= fun x => replace_all c r (f x).
Proof.
  unfold replace_all. induction s as [|x s IH]; [done|].
  by rewrite !bind_cons, bind_app, IH.
Qed.

Lemma escape_char_chain (x : ascii) :
  replace_all chr_newline (lit "<br>")
  (replace_all chr_backslash [chr_backslash; chr_backslash]
  (replace_all "'" (lit "&#039;")
  (replace_all chr_quote (lit "&quot;")
  (replace_all ">" (lit "&gt;")
  (replace_all "<" (lit "&lt;")
  (replace_all "&" (lit "&amp;") [x]))))))
  = escape_char x.
Proof. destruct x as [[] [] [] [] [] [] [] []]; reflexivity. Qed.

Lemma escape_char_clean (x : ascii) :
  Forall (fun c => c <> "'"%char /\ c <> chr_quote /\ c <> chr_newline) (escape_char x).
Proof.
  destruct x as [[] [] [] [] [] [] [] []]; cbv; repeat constructor; discriminate.
Qed.

(** X15 (pymupdf.ts, textToPdf): the seven replacements in a row amount to
    one pass that maps each character of the text on its own: the
    ampersands of the entities written by an earlier step are not escaped
    again.  The escaped text holds no quote of either kind and no line
    feed, so it cannot end the literal of the script it is pasted into. *)
Theorem escapedText_one_pass (text : jstr) :
  escapedText text = text ≫= escape_char
  /\ Forall (fun c => c <> "'"%char /\ c <> chr_quote /\ c <> chr_newline)
       (escapedText text).
Proof.
  assert (H : escapedText text = text ≫= escape_char).
  { unfold escapedText.
    replace (replace_all "&" (lit "&amp;") text)
      with (text ≫= fun x => replace_all "&" (lit "&amp;") [x]).
    2: { unfold replace_all. apply list_bind_ext; [|done].
         intros x. by rewrite bind_singleton. }
    rewrite !replace_all_bind.
    apply list_bind_ext; [|done]. intros x. apply escape_char_chain. }
  split; [done|]. rewrite H.
  apply Forall_bind, Forall_forall. intros x _. apply escape_char_clean.
Qed.

End EscapeFacts.

Section GhostscriptFacts.
Import Ghostscript.

Variable callMain : list string -> FS -> (string + Z) * FS.

Lemma try_unlink_gone (path : string) (fs : FS) : try_unlink path fs !! path = None.
Proof.
  unfold try_unlink, unlink. destruct (fs !! path) eqn:E; cbn; [|done].
  apply lookup_delete_eq.
Qed.

Lemma try_unlink_other (path q : string) (fs : FS) :
  path <> q -> try_unlink path fs !! q = fs !! q.
Proof.
  intros Hne. unfold try_unlink, unlink. destruct (fs !! path) eqn:E; cbn; [|done].
  by apply lookup_delete_ne.
Qed.

(** X16 (pymupdf.ts, convertPdfToRgb): whatever Ghostscript does, the input
    file is gone from its file system when the function ends.  Bytes are
    returned only when [callMain] gave the exit code 0 and left an output
    file, and they are the content of that file, which is removed as well;
    a non-zero exit code removes both files. *)
Theorem convertPdfToRgb_cleans_up (pdfData : list Z) (fs : FS) :
  let after := convertPdfToRgb callMain pdfData fs in
  let ran := callMain args (<[inputPath := pdfData]> fs) in
  snd after !! inputPath = None
  /\ match fst after with
     | inr output =>
       fst ran = inr 0 /\ snd ran !! outputPath = Some output
       /\ snd after !! outputPath = None
     | inl (ExitCode code) =>
       fst ran = inr code /\ code <> 0 /\ snd after !! outputPath = None
     | inl NoOutput =>
       fst ran = inr 0 /\ snd ran !! outputPath = None
       /\ snd after !! outputPath = None
     | inl (Exception e) => fst ran = inl e
     end.
Proof.
  intros after ran. subst after ran. unfold convertPdfToRgb.
  assert (Hne : inputPath <> outputPath) by done.
  destruct (callMain args (<[inputPath:=pdfData]> fs)) as [[e|code] fs1]; cbn [fst snd].
  - split; [apply try_unlink_gone|done].
  - destruct (Z.eqb_spec code 0) as [->|Hc]; cbn [negb fst snd].
    + destruct (fs1 !! outputPath) as [output|] eqn:Ho; cbn [fst snd].
      * split; [|by rewrite try_unlink_gone].
        rewrite try_unlink_other by done. apply try_unlink_gone.
      * split; [apply try_unlink_gone|].
        rewrite try_unlink_other by done. done.
    + split; [|by rewrite try_unlink_gone].
      rewrite try_unlink_other by done. apply try_unlink_gone.
Qed.

End GhostscriptFacts.

Section ImagesFacts.
Import StateErr Images.

Variables (IState Blob Doc Image : Type).
Abbreviation EI := (ES IState string).
Variable open : Blob -> EI Doc.
Variable pageCount : Doc -> EI Z.
Variable render : Doc -> Z -> Z -> string -> EI Image.
Variable close : Doc -> EI unit.

Abbreviation export_loop := (Images.export_loop IState Doc Image render).
Abbreviation render_all := (Images.render_all IState Doc Image render).
Abbreviation pdfToImages := (Images.pdfToImages IState Blob Doc Image open pageCount render close).

Lemma es_bind_ext {S E A B} (m : ES S E A) (k1 k2 : A -> ES S E B) (s : S) :
  (forall a s', k1 a s' = k2 a s') -> (m ≫= k1) s = (m ≫= k2) s.
Proof.
  intros H. unfold mbind, ES_bind. destruct (m s) as [[e|a] s']; [done|apply H].
Qed.

Lemma es_bind_run {S E A B} (m1 m2 : ES S E A) (k : A -> ES S E B) (s : S) :
  m1 s = m2 s -> (m1 ≫= k) s = (m2 ≫= k) s.
Proof. intros H. unfold mbind, ES_bind. by rewrite H. Qed.

Lemma es_bind_ret {S E A} (m : ES S E A) (s : S) : (x ← m; mret x) s = m s.
Proof. unfold mbind, ES_bind, mret, ES_ret. by destruct (m s) as [[e|a] s']. Qed.

Lemma export_loop_filter doc format dpi pc ps : forall results s,
  export_loop doc format dpi pc ps results s =
  (xs ← render_all doc format dpi (filter (fun p => in_range pc p = true) ps);
   mret (results ++ xs)) s.
Proof.
  induction ps as [|p more IH]; intros results s.
  - cbn. unfold mbind, ES_bind, mret, ES_ret. by rewrite app_nil_r.
  - cbn [Images.export_loop].
    destruct ((p <? 0) || (p >=? pc)) eqn:Hout.
    + rewrite filter_cons_False; [apply IH|].
      unfold in_range. by rewrite Hout.
    + rewrite filter_cons_True by (unfold in_range; by rewrite Hout).
      cbn [Images.render_all]. unfold mbind, ES_bind, mret, ES_ret.
      destruct (render doc p dpi format s) as [[e|x] s1]; [done|].
      rewrite IH. unfold mbind, ES_bind, mret, ES_ret.
      destruct (render_all doc format dpi _ s1) as [[e|xs] s2]; [done|].
      by rewrite <- app_assoc.
Qed.

Lemma every_page_in_range pc :
  filter (fun p => in_range pc p = true) (every_page pc) = every_page pc.
Proof.
  assert (H : Forall (fun p => in_range pc p = true) (every_page pc)).
  { unfold every_page. apply Forall_fmap, Forall_forall. intros i Hi.
    apply elem_of_seq in Hi. cbn. unfold in_range.
    destruct (Z.ltb_spec (Z.of_nat i) 0); [lia|].
    destruct (Z.geb_spec (Z.of_nat i) pc); [lia|done]. }
  induction H as [|p l Hp Hl IH]; [done|].
  by rewrite filter_cons_True, IH.
Qed.

(** X17 (pymupdf.ts, pdfToImages): the pages asked for are rendered in the
    order given, a page named twice is rendered twice, and an index below 0
    or not below the page count is passed over without an error; with no
    [pages] option every page of the document is rendered.  The format is
    [png] and the resolution 150 unless given. *)
Theorem pdfToImages_skips_out_of_range (pdf : Blob) (options : option ImageOptions)
    (s : IState) :
  pdfToImages pdf options s =
    (doc ← open pdf;
     pc ← pageCount doc;
     results ← render_all doc (default "png"%string (options ≫= format))
                 (default 150 (options ≫= dpi))
                 (filter (fun p => in_range pc p = true)
                    (default (every_page pc) (options ≫= pages)));
     close doc;;
     mret results) s
  /\ (options ≫= pages = None ->
      pdfToImages pdf options s =
        (doc ← open pdf;
         pc ← pageCount doc;
         results ← render_all doc (default "png"%string (options ≫= format))
                     (default 150 (options ≫= dpi)) (every_page pc);
         close doc;;
         mret results) s).
Proof.
  assert (Heq : pdfToImages pdf options s =
    (doc ← open pdf;
     pc ← pageCount doc;
     results ← render_all doc (default "png"%string (options ≫= format))
                 (default 150 (options ≫= dpi))
                 (filter (fun p => in_range pc p = true)
                    (default (every_page pc) (options ≫= pages)));
     close doc;;
     mret results) s).
  { unfold Images.pdfToImages.
    apply es_bind_ext. intros doc s1. apply es_bind_ext. intros pc s2.
    apply es_bind_run. rewrite export_loop_filter. cbn [app].
    apply es_bind_ret. }
  split; [exact Heq|].
  intros Hnone. rewrite Heq, Hnone. cbn [default].
  apply es_bind_ext. intros doc s1. apply es_bind_ext. intros pc s2.
  by rewrite every_page_in_range.
Qed.

End ImagesFacts.

Section NamesFacts.
Import Py StateErr Names.

Variables (IState Blob : Type).
Variable writeFile : str -> Blob -> IState -> IState.
Variable run_open : str -> option str -> IState -> (string + unit) * IState.

(** X18 (pymupdf.ts, open and create): each call takes the next number of
    the counter, also when the interpreter raises, and a handle that is
    returned carries the variable [_doc<n>] and the path [/input_<n>] of that
    number; different numbers give different variables and paths, so no two
    handles of a facade share a name. *)
Theorem handles_take_fresh_names (input : Blob) (docCounter : N) (s : IState) :
  fst (snd (open IState Blob writeFile run_open input (docCounter, s))) = (docCounter + 1)%N
  /\ fst (snd (create IState run_open (docCounter, s))) = (docCounter + 1)%N
  /\ (forall h st,
        open IState Blob writeFile run_open input (docCounter, s) = (inr h, st)
        \/ create IState run_open (docCounter, s) = (inr h, st) ->
        h = {| h_docVar := docVar (docCounter + 1);
               h_inputPath := inputPath (docCounter + 1) |})
  /\ (forall n m, docVar n = docVar m \/ inputPath n = inputPath m -> n = m).
Proof.
  unfold open, create. repeat split.
  - by destruct (run_open _ (Some _) _) as [[e|u] s1].
  - by destruct (run_open _ None _) as [[e|u] s1].
  - intros h st [H|H].
    + destruct (run_open _ (Some _) _) as [[e|u] s1]; [done|]. by inversion H.
    + destruct (run_open _ None _) as [[e|u] s1]; [done|]. by inversion H.
  - intros n m [H|H]; unfold docVar, inputPath in H;
      apply app_inv_head in H; by apply str_of_N_inj.
Qed.

Lemma endswith_slash (p : str) : endswith (of_string "/") (p ++ of_string "/") = true.
Proof.
  unfold endswith. change (of_string "/") with ["/"%char].
  by rewrite rev_unit.
Qed.

(** X19 (pymupdf.ts, constructor): the asset path of a facade always ends
    with a slash: a path that has one is kept as it is, any other gets one
    appended (the empty string becomes the root), and with no path given it
    is [./]. *)
Theorem assetPath_ends_with_slash (options : Options) :
  endswith (of_string "/") (assetPath options) = true
  /\ (forall s, endswith (of_string "/") s = true ->
        assetPath (PathString s) = s /\ assetPath (OptionsObject (Some s)) = s)
  /\ (forall s, endswith (of_string "/") s = false ->
        assetPath (PathString s) = s ++ of_string "/"
        /\ assetPath (OptionsObject (Some s)) = s ++ of_string "/")
  /\ assetPath NoOptions = of_string "./"
  /\ assetPath (OptionsObject None) = of_string "./"
  /\ assetPath (PathString []) = of_string "/".
Proof.
  repeat split.
  - unfold assetPath.
    destruct options as [|s|[s|]]; try done;
      destruct (endswith (of_string "/") s) eqn:E; cbn [negb]; try done;
      apply endswith_slash.
  - unfold assetPath. by rewrite H.
  - unfold assetPath. by rewrite H.
  - unfold assetPath. by rewrite H.
  - unfold assetPath. by rewrite H.
Qed.

End NamesFacts.

(** ** Taking a reference out of an array *)

Section SubFacts.
Import Py Visibility.

Ltac len_lia :=
  repeat (cbn [length app of_string list_ascii_of_string] in *;
          rewrite ?length_app in * );
  lia.

Lemma re_sub_fuel m repl : forall n f1 f2 s,
  (length s <= n)%nat -> (length s < f1)%nat -> (length s < f2)%nat ->
  re_sub f1 m repl s = re_sub f2 m repl s.
Proof.
  induction n as [|n IH]; intros f1 f2 s Hn H1 H2.
  - destruct s; [|cbn in Hn; lia]. destruct f1, f2; try lia; done.
  - destruct f1 as [|f1]; [lia|]. destruct f2 as [|f2]; [lia|].
    destruct s as [|c s']; [done|]. cbn [re_sub].
    destruct (m (c :: s')) as [[|len]|].
    + f_equal. apply IH; cbn in *; lia.
    + f_equal. apply IH; rewrite ?length_drop; cbn in *; lia.
    + f_equal. apply IH; cbn in *; lia.
Qed.

Lemma re_sub_none m repl fuel c s' :
  m (c :: s') = None -> (length (c :: s') < fuel)%nat ->
  re_sub fuel m repl (c :: s') = c :: re_sub fuel m repl s'.
Proof.
  intros Hm Hf. destruct fuel as [|f]; [lia|].
  rewrite <- (re_sub_fuel m repl (length s') f (S f) s') by (cbn in *; lia).
  cbn [re_sub]. by rewrite Hm.
Qed.

Lemma re_sub_some m repl fuel s len :
  m s = Some (S len) -> s <> [] -> (length s < fuel)%nat ->
  re_sub fuel m repl s = repl ++ re_sub fuel m repl (skipn (S len) s).
Proof.
  intros Hm Hs Hf. destruct fuel as [|f]; [lia|]. destruct s as [|c s']; [done|].
  rewrite <- (re_sub_fuel m repl (length s') f (S f) (skipn (S len) (c :: s')))
    by (rewrite ?length_drop; cbn in *; lia).
  cbn [re_sub]. by rewrite Hm.
Qed.

Lemma re_sub_nil m repl fuel : re_sub fuel m repl [] = [].
Proof. by destruct fuel. Qed.

Variable dx : str.
Hypothesis dx_digits : Forall (fun c => isdecimal c = true) dx.
Hypothesis dx_some : dx <> [].

Lemma msr_nondigit (ws : str) c (s : str) :
  Forall (fun c => isspace c = true) ws -> isspace c = false -> isdecimal c = false ->
  match_spaced_ref dx (ws ++ c :: s) = None.
Proof using dx_digits dx_some.
  intros Hws Hc Hd. unfold match_spaced_ref. rewrite (span_all isspace ws c s) by done.
  destruct dx as [|d0 dt]; [done|]. inversion dx_digits; subst.
  by rewrite (startswith_decimal_no d0 dt s c).
Qed.

Lemma msr_digits_other (ws d' t : str) :
  Forall (fun c => isspace c = true) ws ->
  Forall (fun c => isdecimal c = true) d' -> d' <> [] -> d' <> dx ->
  match t with [] => True | c :: _ => isdecimal c = false end ->
  match_spaced_ref dx (ws ++ d' ++ t) = None.
Proof using dx_digits dx_some.
  intros Hws Hd' Hne Hdx Ht. unfold match_spaced_ref.
  destruct d' as [|e d'']; [done|]. inversion Hd' as [|? ? He Hd'']; subst.
  destruct (decimal_char e He) as (_ & _ & _ & Hsp).
  cbn [app]. rewrite (span_all isspace ws e (d'' ++ t)) by done.
  destruct (startswith dx (e :: d'' ++ t)) eqn:E; [|done].
  apply startswith_app in E.
  destruct (Nat.lt_trichotomy (length dx) (length (e :: d''))) as [Hlt|[Heq|Hgt]].
  - assert (Hdrop : exists e' r, skipn (length dx) (e :: d'' ++ t) = e' :: r
                                 /\ isdecimal e' = true).
    { change (e :: d'' ++ t) with ((e :: d'') ++ t).
      rewrite drop_app_le by lia.
      destruct (skipn (length dx) (e :: d'')) as [|e' r] eqn:Hk.
      - apply (f_equal length) in Hk. rewrite length_drop in Hk. cbn in *. lia.
      - exists e', (r ++ t). split; [done|].
        assert (Hin : Forall (fun c => isdecimal c = true) (e' :: r)).
        { rewrite <- Hk. by apply Forall_drop. }
        by inversion Hin. }
    destruct Hdrop as (e' & r & -> & He').
    destruct (decimal_char e' He') as (_ & _ & _ & Hsp').
    cbn [span]. by rewrite Hsp'.
  - exfalso. apply Hdx. change (e :: d'' ++ t) with ((e :: d'') ++ t) in E.
    by apply app_inj_1 in E as [? _].
  - exfalso. remember (e :: d'') as d1 eqn:Hd1.
    change (e :: d'' ++ t) with ((e :: d'') ++ t) in E. rewrite <- Hd1 in E.
    destruct (lookup_lt_is_Some_2 dx (length d1) Hgt) as [c Hc].
    pose proof (proj1 (Forall_lookup _ _) dx_digits _ _ Hc) as Hcd. cbn in Hcd.
    assert (Hl : (d1 ++ t) !! length d1 = Some c).
    { rewrite E. by rewrite lookup_app_l by lia. }
    rewrite lookup_app_r, Nat.sub_diag in Hl by lia.
    destruct t as [|c' t']; [done|]. cbn in Hl. inversion Hl; subst c'.
    by rewrite Hcd in Ht.
Qed.

Lemma msr_zero_R (ws rest : str) :
  Forall (fun c => isspace c = true) ws ->
  match_spaced_ref dx (ws ++ of_string "0 R" ++ rest) = None.
Proof using dx_digits dx_some.
  intros Hws. destruct (decide (dx = of_string "0")) as [->|Hne].
  - unfold match_spaced_ref. cbn [of_string list_ascii_of_string app].
    rewrite (span_all isspace ws "0"%char) by done. reflexivity.
  - apply (msr_digits_other ws (of_string "0") (of_string " R" ++ rest)); try done.
    by repeat constructor.
Qed.

Lemma msr_match (ws rest : str) :
  Forall (fun c => isspace c = true) ws ->
  match_spaced_ref dx (ws ++ dx ++ of_string " 0 R" ++ rest)
  = Some (S (length ws + length dx + 3)).
Proof using dx_digits dx_some.
  intros Hws. unfold match_spaced_ref.
  destruct dx as [|d0 dt] eqn:Hdx; [done|]. inversion dx_digits as [|? ? Hd0 _]; subst.
  destruct (decimal_char d0 Hd0) as (_ & _ & _ & Hsp).
  cbn [app]. rewrite (span_all isspace ws d0) by done.
  change (d0 :: dt ++ of_string " 0 R" ++ rest) with ((d0 :: dt) ++ of_string " 0 R" ++ rest).
  rewrite startswith_prefix, drop_app_length.
  cbn [of_string list_ascii_of_string app span].
  change (isspace " ") with true. cbn iota. change (isspace "0") with false.
  cbn iota. change (eqc "0" "0") with true. cbn iota.
  change (isspace "R") with false. cbn iota. change (eqc "R" "R") with true.
  cbn iota. f_equal. cbn [length]. lia.
Qed.

(** A token whose digits do not end with [dx] is copied. *)
Lemma pass1_digits fuel (t : str) : forall d' : str,
  Forall (fun c => isdecimal c = true) d' ->
  (forall pre d'', d' = pre ++ d'' -> d'' <> [] -> d'' <> dx) ->
  match t with [] => True | c :: _ => isdecimal c = false end ->
  (length (d' ++ t) < fuel)%nat ->
  re_sub fuel (match_spaced_ref dx) [] (d' ++ t)
  = d' ++ re_sub fuel (match_spaced_ref dx) [] t.
Proof using dx_digits dx_some.
  induction d' as [|e d'' IH]; intros Hd Hsuf Ht Hf; [done|].
  cbn [app]. rewrite re_sub_none; [|
    apply (msr_digits_other [] (e :: d'') t); try done; by apply (Hsuf [])|done].
  f_equal. apply IH; [by inversion Hd| |done|cbn in Hf; lia].
  intros pre d3 -> Hne. by apply (Hsuf (e :: pre)).
Qed.

Lemma pass1_tail fuel (rest : str) :
  (length (of_string " 0 R" ++ rest) < fuel)%nat ->
  re_sub fuel (match_spaced_ref dx) [] (of_string " 0 R" ++ rest)
  = of_string " 0 R" ++ re_sub fuel (match_spaced_ref dx) [] rest.
Proof using dx_digits dx_some.
  intros Hf. cbn [of_string list_ascii_of_string app] in *. cbn [length] in Hf.
  rewrite re_sub_none;
    [|exact (msr_zero_R [" "%char] rest ltac:(by repeat constructor))|cbn; lia].
  rewrite re_sub_none; [|exact (msr_zero_R [] rest ltac:(done))|cbn; lia].
  rewrite re_sub_none;
    [|exact (msr_nondigit [" "%char] "R"%char rest ltac:(by repeat constructor)
               eq_refl eq_refl)|cbn; lia].
  rewrite re_sub_none;
    [|exact (msr_nondigit [] "R"%char rest ltac:(done) eq_refl eq_refl)|cbn; lia].
  done.
Qed.

Lemma pass1_keep fuel (d' rest : str) :
  Forall (fun c => isdecimal c = true) d' -> d' <> [] ->
  (forall pre, d' <> pre ++ dx) ->
  (length (chr_space :: d' ++ of_string " 0 R" ++ rest) < fuel)%nat ->
  re_sub fuel (match_spaced_ref dx) [] (d' ++ of_string " 0 R" ++ rest)
  = d' ++ of_string " 0 R" ++ re_sub fuel (match_spaced_ref dx) [] rest
  /\ re_sub fuel (match_spaced_ref dx) [] (chr_space :: d' ++ of_string " 0 R" ++ rest)
  = chr_space :: d' ++ of_string " 0 R" ++ re_sub fuel (match_spaced_ref dx) [] rest.
Proof using dx_digits dx_some.
  intros Hd Hne Hsuf Hf.
  assert (H1 : re_sub fuel (match_spaced_ref dx) [] (d' ++ of_string " 0 R" ++ rest)
               = d' ++ of_string " 0 R" ++ re_sub fuel (match_spaced_ref dx) [] rest).
  { rewrite pass1_digits; [|done| |done|len_lia].
    - rewrite pass1_tail; [done|]. len_lia.
    - intros pre d3 -> _ ->. by apply (Hsuf pre). }
  split; [done|].
  rewrite re_sub_none; [by rewrite H1| |done].
  apply (msr_digits_other [chr_space] d' (of_string " 0 R" ++ rest)); try done.
  - by repeat constructor.
  - intros ->. by apply (Hsuf []).
Qed.

Lemma pass1_drop fuel (ws rest : str) :
  Forall (fun c => isspace c = true) ws ->
  (length (ws ++ dx ++ of_string " 0 R" ++ rest) < fuel)%nat ->
  re_sub fuel (match_spaced_ref dx) [] (ws ++ dx ++ of_string " 0 R" ++ rest)
  = re_sub fuel (match_spaced_ref dx) [] rest.
Proof using dx_digits dx_some.
  intros Hws Hf. rewrite (re_sub_some _ _ _ _ _ (msr_match ws rest Hws)); [|
    destruct ws, dx; done|done].
  cbn [app]. f_equal.
  rewrite (app_assoc dx), (app_assoc ws).
  replace (S (length ws + length dx + 3))
    with (length (ws ++ dx ++ of_string " 0 R")).
  2: { rewrite !length_app. cbn. lia. }
  apply drop_app_length.
Qed.

End SubFacts.

Section RemovalFacts.
Import Py Visibility Arrays.

Ltac len_lia :=
  repeat (cbn [length app of_string list_ascii_of_string] in *;
          rewrite ?length_app in * );
  lia.

Lemma spaced_cons (y : N) (ys : list N) :
  spaced (y :: ys) = chr_space :: str_of_N y ++ of_string " 0 R" ++ spaced ys.
Proof. unfold spaced. rewrite bind_cons. unfold ref_token. cbn. by rewrite <- app_assoc. Qed.

Lemma tokens_spaced (y : N) (ys : list N) : tokens (y :: ys) = ref_token y ++ spaced ys.
Proof.
  revert y. induction ys as [|z ys IH]; intros y.
  - cbn. by rewrite app_nil_r.
  - change (tokens (y :: z :: ys)) with (ref_token y ++ chr_space :: tokens (z :: ys)).
    rewrite IH. unfold spaced. by rewrite bind_cons.
Qed.

Lemma pass1_bracket (x : N) fuel :
  (1 < fuel)%nat ->
  re_sub fuel (match_spaced_ref (str_of_N x)) [] [chr_rbracket] = [chr_rbracket].
Proof.
  intros Hf. destruct (str_of_N_digits x) as [Hd Hne].
  rewrite re_sub_none; [by rewrite re_sub_nil| |cbn; lia].
  exact (msr_nondigit _ Hd Hne [] chr_rbracket [] ltac:(done) eq_refl eq_refl).
Qed.

Lemma pass1_spaced (x : N) fuel : forall ys,
  no_suffix_clash x ys ->
  (length (spaced ys ++ [chr_rbracket]) < fuel)%nat ->
  re_sub fuel (match_spaced_ref (str_of_N x)) [] (spaced ys ++ [chr_rbracket])
  = spaced (filter (fun y => y <> x) ys) ++ [chr_rbracket].
Proof.
  destruct (str_of_N_digits x) as [Hd Hne].
  induction ys as [|y ys IH]; intros Hc Hf.
  - cbn. apply pass1_bracket. cbn in Hf. lia.
  - assert (Hc' : no_suffix_clash x ys).
    { intros z pre Hz. apply Hc. by right. }
    rewrite spaced_cons in *. cbn [app] in *. rewrite <- !app_assoc in *.
    destruct (decide (y = x)) as [->|Hyx].
    + rewrite filter_cons_False by (intros H; by apply H).
      etransitivity;
        [apply (pass1_drop _ Hd Hne fuel [chr_space] (spaced ys ++ [chr_rbracket]));
         [by repeat constructor|done]|].
      apply IH; [done|]. len_lia.
    + rewrite filter_cons_True by done. rewrite spaced_cons. cbn [app].
      rewrite <- !app_assoc.
      destruct (str_of_N_digits y) as [Hdy Hney].
      destruct (pass1_keep _ Hd Hne fuel (str_of_N y) (spaced ys ++ [chr_rbracket])
                  Hdy Hney) as [_ ->].
      { intros pre Hpre. apply Hyx. apply (Hc y pre); [by left|done]. }
      { done. }
      rewrite IH; [done|done|]. len_lia.
Qed.

(** The first pass on a flat array. *)
Lemma pass1_flat (x : N) fuel (xs : list N) :
  no_suffix_clash x xs ->
  (length (flat_array xs) < fuel)%nat ->
  re_sub fuel (match_spaced_ref (str_of_N x)) [] (flat_array xs)
  = chr_lbracket ::
      match xs with
      | [] => []
      | y :: ys => (if decide (y = x) then [] else ref_token y)
                   ++ spaced (filter (fun y => y <> x) ys)
      end ++ [chr_rbracket].
Proof.
  intros Hc Hf. destruct (str_of_N_digits x) as [Hd Hne]. unfold flat_array in *.
  rewrite re_sub_none; [|
    exact (msr_nondigit _ Hd Hne [] chr_lbracket _ ltac:(done) eq_refl eq_refl)|done].
  f_equal. destruct xs as [|y ys].
  - cbn. apply pass1_bracket. cbn in Hf. lia.
  - assert (Hc' : no_suffix_clash x ys).
    { intros z pre Hz. apply Hc. by right. }
    rewrite tokens_spaced in *. unfold ref_token in *. rewrite <- !app_assoc in *.
    destruct (decide (y = x)) as [->|Hyx].
    + etransitivity;
        [apply (pass1_drop _ Hd Hne fuel [] (spaced ys ++ [chr_rbracket]));
         [done|len_lia]|].
      cbn [app]. apply pass1_spaced; [done|]. len_lia.
    + destruct (str_of_N_digits y) as [Hdy Hney].
      destruct (pass1_keep _ Hd Hne fuel (str_of_N y) (spaced ys ++ [chr_rbracket])
                  Hdy Hney) as [-> _].
      { intros pre Hpre. apply Hyx. apply (Hc y pre); [by left|done]. }
      { len_lia. }
      rewrite pass1_spaced; [by rewrite <- !app_assoc|done|]. len_lia.
Qed.

(** The second pass: every run of white space is one space already. *)
Lemma pass2_char fuel c (s : str) :
  isspace c = false -> (length (c :: s) < fuel)%nat ->
  re_sub fuel match_spaces [chr_space] (c :: s)
  = c :: re_sub fuel match_spaces [chr_space] s.
Proof.
  intros Hc Hf. apply re_sub_none; [|done].
  unfold match_spaces. cbn [span]. by rewrite Hc.
Qed.

Lemma pass2_space fuel c (s : str) :
  isspace c = false -> (length (chr_space :: c :: s) < fuel)%nat ->
  re_sub fuel match_spaces [chr_space] (chr_space :: c :: s)
  = chr_space :: re_sub fuel match_spaces [chr_space] (c :: s).
Proof.
  intros Hc Hf.
  rewrite (re_sub_some match_spaces [chr_space] fuel _ 0); [done| |done|done].
  unfold match_spaces. cbn [span]. change (isspace chr_space) with true.
  cbn iota. by rewrite Hc.
Qed.

Lemma pass2_digits fuel (t : str) : forall d : str,
  Forall (fun c => isdecimal c = true) d ->
  (length (d ++ t) < fuel)%nat ->
  re_sub fuel match_spaces [chr_space] (d ++ t)
  = d ++ re_sub fuel match_spaces [chr_space] t.
Proof.
  induction d as [|e d IH]; intros Hd Hf; [done|].
  inversion Hd as [|? ? He Hd']; subst.
  destruct (decimal_char e He) as (_ & _ & _ & Hsp).
  cbn [app]. rewrite pass2_char by done. f_equal. apply IH; [done|]. len_lia.
Qed.

Lemma pass2_tail fuel (rest : str) :
  (length (of_string " 0 R" ++ rest) < fuel)%nat ->
  re_sub fuel match_spaces [chr_space] (of_string " 0 R" ++ rest)
  = of_string " 0 R" ++ re_sub fuel match_spaces [chr_space] rest.
Proof.
  intros Hf. cbn [of_string list_ascii_of_string app] in *.
  rewrite (pass2_space fuel "0"%char) by done.
  rewrite (pass2_char fuel "0"%char) by (done || len_lia).
  rewrite (pass2_space fuel "R"%char) by (done || len_lia).
  rewrite (pass2_char fuel "R"%char) by (done || len_lia).
  done.
Qed.

Lemma pass2_token fuel (y : N) (rest : str) :
  (length (chr_space :: ref_token y ++ rest) < fuel)%nat ->
  re_sub fuel match_spaces [chr_space] (ref_token y ++ rest)
  = ref_token y ++ re_sub fuel match_spaces [chr_space] rest
  /\ re_sub fuel match_spaces [chr_space] (chr_space :: ref_token y ++ rest)
     = chr_space :: ref_token y ++ re_sub fuel match_spaces [chr_space] rest.
Proof.
  intros Hf. destruct (str_of_N_digits y) as [Hd Hne].
  assert (H1 : re_sub fuel match_spaces [chr_space] (ref_token y ++ rest)
               = ref_token y ++ re_sub fuel match_spaces [chr_space] rest).
  { unfold ref_token in *. rewrite <- !app_assoc in *.
    rewrite pass2_digits by (done || len_lia).
    rewrite pass2_tail by len_lia. done. }
  split; [done|].
  rewrite <- H1. unfold ref_token in *.
  destruct (str_of_N y) as [|e d]; [done|]. inversion Hd as [|? ? He _]; subst.
  destruct (decimal_char e He) as (_ & _ & _ & Hsp).
  cbn [app] in *. by apply pass2_space.
Qed.

Lemma pass2_bracket fuel :
  (1 < fuel)%nat ->
  re_sub fuel match_spaces [chr_space] [chr_rbracket] = [chr_rbracket].
Proof. intros Hf. rewrite pass2_char; [by rewrite re_sub_nil|done|cbn; lia]. Qed.

Lemma pass2_spaced fuel : forall ys,
  (length (spaced ys ++ [chr_rbracket]) < fuel)%nat ->
  re_sub fuel match_spaces [chr_space] (spaced ys ++ [chr_rbracket])
  = spaced ys ++ [chr_rbracket].
Proof.
  induction ys as [|y ys IH]; intros Hf.
  - apply pass2_bracket. cbn in Hf. lia.
  - unfold spaced in *. rewrite bind_cons in *. fold (spaced ys) in *.
    cbn [app] in *. rewrite <- !app_assoc in *.
    destruct (pass2_token fuel y (spaced ys ++ [chr_rbracket])) as [_ ->]; [done|].
    rewrite IH; [done|]. len_lia.
Qed.

(** No text of tokens has a space in front of a closing bracket, or an
    opening bracket. *)
Lemma find_none_cons (old : str) c (s : str) :
  startswith old (c :: s) = false -> find old s = None -> find old (c :: s) = None.
Proof. intros H1 H2. cbn [find]. by rewrite H1, H2. Qed.

Lemma str_replace_absent (old new : str) : forall (s : str) fuel,
  find old s = None -> (length s < fuel)%nat -> str_replace fuel old new s = s.
Proof.
  induction s as [|c s IH]; intros fuel Hn Hf; destruct fuel as [|f]; try (cbn in Hf; lia).
  - done.
  - cbn [find] in Hn. cbn [str_replace].
    destruct (startswith old (c :: s)); [done|]. cbn [andb].
    destruct (find old s) eqn:E; [done|]. f_equal. apply IH; [done|]. cbn in Hf. lia.
Qed.

Lemma find_absent_head c0 (old : str) : forall s : str,
  Forall (fun c => c <> c0) s -> find (c0 :: old) s = None.
Proof.
  induction s as [|c s IH]; intros Hs; [done|].
  inversion Hs as [|? ? Hc Hs']; subst. apply find_none_cons; [|by apply IH].
  cbn. destruct (eqc c0 c) eqn:E; [|done]. apply eqc_eq in E. by subst.
Qed.

Lemma token_chars (y : N) :
  Forall (fun c => c <> chr_lbracket) (ref_token y).
Proof.
  destruct (str_of_N_digits y) as [Hd _]. unfold ref_token.
  apply Forall_app. split.
  - eapply Forall_impl; [exact Hd|]. intros c Hc ->. done.
  - by repeat constructor.
Qed.

Lemma spaced_chars (ys : list N) :
  Forall (fun c => c <> chr_lbracket) (spaced ys ++ [chr_rbracket]).
Proof.
  apply Forall_app. split; [|by repeat constructor].
  unfold spaced. apply Forall_bind, Forall_forall. intros y _.
  cbn. constructor; [done|apply token_chars].
Qed.

Lemma find4_digits (t : str) : forall d : str,
  Forall (fun c => isdecimal c = true) d ->
  find (of_string " ]") t = None -> find (of_string " ]") (d ++ t) = None.
Proof.
  induction d as [|e d IH]; intros Hd Ht; [done|].
  inversion Hd as [|? ? He Hd']; subst. cbn [app].
  apply find_none_cons; [|by apply IH].
  cbn [startswith of_string list_ascii_of_string].
  destruct (eqc " " e) eqn:E; [|done]. apply eqc_eq in E. by subst.
Qed.

Lemma find4_token (y : N) (rest : str) :
  find (of_string " ]") rest = None ->
  find (of_string " ]") (ref_token y ++ rest) = None
  /\ find (of_string " ]") (chr_space :: ref_token y ++ rest) = None.
Proof.
  intros Hr. destruct (str_of_N_digits y) as [Hd Hne].
  assert (H1 : find (of_string " ]") (ref_token y ++ rest) = None).
  { unfold ref_token. rewrite <- app_assoc. apply find4_digits; [done|].
    cbn [app of_string list_ascii_of_string].
    repeat (apply find_none_cons; [reflexivity|]). exact Hr. }
  split; [done|]. apply find_none_cons; [|done].
  unfold ref_token. destruct (str_of_N y) as [|e d]; [done|].
  inversion Hd as [|? ? He _]; subst.
  destruct (decimal_char e He) as (_ & Hrb & _ & _).
  cbn [startswith of_string list_ascii_of_string app].
  change (eqc " " chr_space) with true.
  assert (Hx : eqc "]" e = false) by (unfold eqc in *; by rewrite Ascii.eqb_sym).
  by rewrite Hx.
Qed.

Lemma find4_spaced : forall ys,
  find (of_string " ]") (spaced ys ++ [chr_rbracket]) = None.
Proof.
  induction ys as [|y ys IH]; [done|].
  unfold spaced in *. rewrite bind_cons. fold (spaced ys) in *.
  cbn [app]. rewrite <- app_assoc. by apply find4_token.
Qed.

Lemma find4_flat (xs : list N) : find (of_string " ]") (flat_array xs) = None.
Proof.
  unfold flat_array. apply find_none_cons; [done|].
  destruct xs as [|y ys]; [done|]. rewrite tokens_spaced, <- app_assoc.
  apply find4_token, find4_spaced.
Qed.

Lemma remove_flat (x : N) (xs : list N) :
  no_suffix_clash x xs ->
  remove_from_array x (flat_array xs) = flat_array (filter (fun y => y <> x) xs).
Proof.
  intros Hc. unfold remove_from_array.
  replace (negb (Reader.truthy (flat_array xs))
           || str_eqb (flat_array xs) (of_string "null")) with false by done.
  rewrite (pass1_flat x _ xs Hc) by lia.
  set (F := match xs with [] => [] | _ :: ys => filter (fun y => y <> x) ys end).
  set (first := match xs with
                | [] => []
                | y :: _ => if decide (y = x) then [] else ref_token y
                end).
  assert (HR1 : match xs with
                | [] => []
                | y :: ys => (if decide (y = x) then [] else ref_token y)
                             ++ spaced (filter (fun y => y <> x) ys)
                end = first ++ spaced F).
  { subst first F. destruct xs; [done|done]. }
  rewrite HR1. clear HR1.
  assert (Hfirst : first = [] \/ exists y, first = ref_token y /\ y <> x
                                            /\ filter (fun y => y <> x) xs = y :: F).
  { subst first F. destruct xs as [|y ys]; [by left|].
    destruct (decide (y = x)) as [->|Hyx]; [by left|].
    right. exists y. by rewrite filter_cons_True. }
  assert (Hfilter : first = [] -> filter (fun y => y <> x) xs = F).
  { subst first F. destruct xs as [|y ys]; [done|].
    destruct (decide (y = x)) as [->|Hyx].
    - intros _. by rewrite filter_cons_False by (intros H; by apply H).
    - intros H. destruct (ref_token_head y) as (c & t & Ht & _). by rewrite Ht in H. }
  (* the second pass *)
  assert (H2 : forall fuel,
    (length (chr_lbracket :: (first ++ spaced F) ++ [chr_rbracket]) < fuel)%nat ->
    re_sub fuel match_spaces [chr_space]
      (chr_lbracket :: (first ++ spaced F) ++ [chr_rbracket])
    = chr_lbracket :: (first ++ spaced F) ++ [chr_rbracket]).
  { intros fuel Hf. rewrite pass2_char by done. f_equal.
    rewrite <- app_assoc in *.
    destruct Hfirst as [->|(y & -> & _)].
    - apply pass2_spaced. len_lia.
    - destruct (pass2_token fuel y (spaced F ++ [chr_rbracket])) as [-> _]; [len_lia|].
      rewrite pass2_spaced; [done|]. len_lia. }
  rewrite H2 by lia. clear H2.
  (* the third pass *)
  assert (H3 : forall fuel,
    (length (chr_lbracket :: (first ++ spaced F) ++ [chr_rbracket]) < fuel)%nat ->
    str_replace fuel (of_string "[ ") [chr_lbracket]
      (chr_lbracket :: (first ++ spaced F) ++ [chr_rbracket])
    = flat_array (filter (fun y => y <> x) xs)).
  { intros fuel Hf. rewrite <- app_assoc in *.
    destruct Hfirst as [Hnil|(y & Hy & _ & ->)].
    - rewrite (Hfilter Hnil). rewrite Hnil in *. cbn [app] in *.
      destruct F as [|f F'].
      + destruct fuel as [|[|[|fuel]]]; try (cbn in Hf; lia); done.
      + destruct fuel as [|fuel]; [lia|]. rewrite spaced_cons in *.
        cbn [str_replace app]. cbn [startswith of_string list_ascii_of_string].
        change (eqc "[" chr_lbracket) with true. change (eqc " " chr_space) with true.
        cbn [andb length Nat.eqb negb skipn]. rewrite drop_0. unfold flat_array.
        rewrite tokens_spaced. unfold ref_token.
        rewrite str_replace_absent; [by rewrite <- !app_assoc| |len_lia].
        apply find_absent_head.
        rewrite <- ?app_assoc. apply Forall_app. split.
        { eapply Forall_impl; [apply (proj1 (str_of_N_digits f))|].
          by intros c Hcd ->. }
        apply Forall_app. split; [by repeat constructor|apply spaced_chars].
    - rewrite Hy in *. unfold flat_array. rewrite tokens_spaced, <- app_assoc.
      apply str_replace_absent; [|done].
      apply find_none_cons.
      + destruct (ref_token_head y) as (c & t & Ht & Hcd). rewrite Ht.
        destruct (decimal_char c Hcd) as (_ & _ & _ & Hsp).
        cbn [startswith of_string list_ascii_of_string app].
        change (eqc "[" chr_lbracket) with true.
        destruct (eqc " " c) eqn:E; [|done]. apply eqc_eq in E. by subst.
      + apply find_absent_head, Forall_app. split; [apply token_chars|apply spaced_chars]. }
  rewrite H3 by lia. clear H3.
  (* the fourth pass *)
  apply str_replace_absent; [apply find4_flat|lia].
Qed.

Lemma pass1_prefix (x : N) fuel (rest : str) : forall d : str,
  Forall (fun c => isdecimal c = true) d ->
  (length (d ++ str_of_N x ++ of_string " 0 R" ++ rest) < fuel)%nat ->
  re_sub fuel (match_spaced_ref (str_of_N x)) []
    (d ++ str_of_N x ++ of_string " 0 R" ++ rest)
  = d ++ re_sub fuel (match_spaced_ref (str_of_N x)) []
           (str_of_N x ++ of_string " 0 R" ++ rest).
Proof.
  destruct (str_of_N_digits x) as [Hd Hne].
  induction d as [|e d IH]; intros Hdd Hf; [done|].
  inversion Hdd as [|? ? He Hd']; subst. cbn [app].
  rewrite re_sub_none; [f_equal; apply IH; [done|len_lia]| |done].
  rewrite (app_assoc d).
  apply (msr_digits_other _ Hd Hne [] (e :: d ++ str_of_N x)
           (of_string " 0 R" ++ rest)); try done.
  - constructor; [done|]. by apply Forall_app.
  - intros H. apply (f_equal length) in H. cbn in H. rewrite length_app in H. lia.
Qed.

(** X21 (document.ts, remove_from_array): the pattern has no boundary on its
    left, so it also matches inside a longer number: when the digits of [y]
    are those of [x] after some digits [d], taking [x] out of the array
    [[y 0 R]] leaves [[d]], the leading digits of [y] alone. *)
Theorem reference_cut_short (x y : N) (d : str) :
  str_of_N y = d ++ str_of_N x -> d <> [] ->
  remove_from_array x (flat_array [y]) = chr_lbracket :: d ++ [chr_rbracket].
Proof.
  intros Hy Hne. destruct (str_of_N_digits x) as [Hdx Hnx].
  assert (Hd : Forall (fun c => isdecimal c = true) d).
  { destruct (str_of_N_digits y) as [Hdy _]. rewrite Hy in Hdy.
    by apply Forall_app in Hdy as [? _]. }
  unfold remove_from_array.
  replace (negb (Reader.truthy (flat_array [y]))
           || str_eqb (flat_array [y]) (of_string "null")) with false by done.
  assert (H1 : forall fuel, (length (flat_array [y]) < fuel)%nat ->
    re_sub fuel (match_spaced_ref (str_of_N x)) [] (flat_array [y])
    = chr_lbracket :: d ++ [chr_rbracket]).
  { intros fuel Hf. unfold flat_array, tokens, ref_token in *. rewrite Hy in *.
    rewrite <- !app_assoc in *.
    rewrite re_sub_none; [|
      exact (msr_nondigit _ Hdx Hnx [] chr_lbracket _ ltac:(done) eq_refl eq_refl)|done].
    f_equal. rewrite pass1_prefix by (done || len_lia). f_equal.
    etransitivity;
      [apply (pass1_drop _ Hdx Hnx fuel [] [chr_rbracket]); [done|len_lia]|].
    apply pass1_bracket. len_lia. }
  rewrite H1 by lia. clear H1.
  assert (H2 : forall fuel, (length (chr_lbracket :: d ++ [chr_rbracket]) < fuel)%nat ->
    re_sub fuel match_spaces [chr_space] (chr_lbracket :: d ++ [chr_rbracket])
    = chr_lbracket :: d ++ [chr_rbracket]).
  { intros fuel Hf. rewrite pass2_char by done. f_equal.
    rewrite pass2_digits by (done || len_lia). f_equal.
    apply pass2_bracket. len_lia. }
  rewrite H2 by lia. clear H2.
  assert (Hno : forall c0, isdecimal c0 = false -> c0 <> chr_rbracket ->
                Forall (fun c => c <> c0) (d ++ [chr_rbracket])).
  { intros c0 H0 Hr. apply Forall_app. split; [|by repeat constructor].
    eapply Forall_impl; [exact Hd|]. intros c Hc ->. by rewrite Hc in H0. }
  assert (H3 : forall fuel, (length (chr_lbracket :: d ++ [chr_rbracket]) < fuel)%nat ->
    str_replace fuel (of_string "[ ") [chr_lbracket] (chr_lbracket :: d ++ [chr_rbracket])
    = chr_lbracket :: d ++ [chr_rbracket]).
  { intros fuel Hf. apply str_replace_absent; [|done].
    apply find_none_cons; [|by apply find_absent_head, Hno].
    destruct d as [|e d']; [done|]. inversion Hd as [|? ? He _]; subst.
    cbn [startswith of_string list_ascii_of_string app].
    change (eqc "[" chr_lbracket) with true.
    destruct (eqc " " e) eqn:E; [|done]. apply eqc_eq in E. by subst. }
  rewrite H3 by lia. clear H3.
  apply str_replace_absent; [|lia].
  apply find_absent_head. constructor; [done|by apply Hno].
Qed.

End RemovalFacts.

(** Taking 5 out of [[15 0 R]] leaves [[1]]. *)
Lemma reference_cut_short_witness :
  Visibility.remove_from_array 5 (Arrays.flat_array [15%N]) = Py.of_string "[1]".
Proof.
  exact (reference_cut_short 5 15 (Py.of_string "1") eq_refl ltac:(done)).
Defined.

(** ** Adding a reference to an array *)

Section AdditionFacts.
Import Py Engine Visibility Arrays.

Ltac len_lia :=
  repeat (cbn [length app of_string list_ascii_of_string] in *;
          rewrite ?length_app in * );
  lia.

Lemma startswith_token_other (dx d' t : str) :
  Forall (fun c => isdecimal c = true) dx ->
  Forall (fun c => isdecimal c = true) d' ->
  d' <> dx ->
  match t with [] => True | c :: _ => isdecimal c = false end ->
  startswith (dx ++ of_string " 0 R") (d' ++ t) = false.
Proof.
  intros Hdx Hd' Hne Ht.
  destruct (startswith (dx ++ of_string " 0 R") (d' ++ t)) eqn:E; [|done].
  exfalso. apply startswith_app in E. rewrite <- app_assoc in E.
  destruct (Nat.lt_trichotomy (length dx) (length d')) as [Hlt|[Heq|Hgt]].
  - destruct (lookup_lt_is_Some_2 d' (length dx) Hlt) as [c Hc].
    pose proof (proj1 (Forall_lookup _ _) Hd' _ _ Hc) as Hcd. cbn in Hcd.
    assert (Hl : (d' ++ t) !! length dx = Some c) by (by rewrite lookup_app_l by lia).
    rewrite E, lookup_app_r, Nat.sub_diag in Hl by lia.
    cbn in Hl. inversion Hl; subst. done.
  - apply Hne. symmetry in Heq. by apply app_inj_1 in E as [? _].
  - destruct (lookup_lt_is_Some_2 dx (length d') Hgt) as [c Hc].
    pose proof (proj1 (Forall_lookup _ _) Hdx _ _ Hc) as Hcd. cbn in Hcd.
    assert (Hl : (d' ++ t) !! length d' = Some c).
    { rewrite E. by rewrite lookup_app_l by lia. }
    rewrite lookup_app_r, Nat.sub_diag in Hl by lia.
    destruct t as [|c' t']; [done|]. cbn in Hl. inversion Hl; subst.
    by rewrite Hcd in Ht.
Qed.

Lemma startswith_token_nondigit (x : N) c (s : str) :
  isdecimal c = false -> startswith (ref_token x) (c :: s) = false.
Proof.
  intros Hc. destruct (ref_token_head x) as (e & t & -> & He).
  by apply startswith_decimal_no.
Qed.

Lemma find_token_digits (x : N) (t : str) : forall d' : str,
  Forall (fun c => isdecimal c = true) d' ->
  (forall pre d'', d' = pre ++ d'' -> d'' <> str_of_N x) ->
  match t with [] => True | c :: _ => isdecimal c = false end ->
  find (ref_token x) t = None ->
  find (ref_token x) (d' ++ t) = None.
Proof.
  destruct (str_of_N_digits x) as [Hdx _].
  induction d' as [|e d IH]; intros Hd Hsuf Ht Hr; [done|].
  cbn [app]. apply find_none_cons.
  - apply (startswith_token_other (str_of_N x) (e :: d) t); try done.
    by apply (Hsuf []).
  - apply IH; [by inversion Hd| |done|done].
    intros pre d3 ->. by apply (Hsuf (e :: pre)).
Qed.

Lemma find_token_tail (x : N) (rest : str) :
  find (ref_token x) rest = None ->
  find (ref_token x) (of_string " 0 R" ++ rest) = None.
Proof.
  intros Hr. destruct (str_of_N_digits x) as [Hdx _].
  cbn [of_string list_ascii_of_string app].
  apply find_none_cons; [by apply startswith_token_nondigit|].
  apply find_none_cons.
  - destruct (decide (str_of_N x = of_string "0")) as [H0|H0].
    + unfold ref_token. rewrite H0. reflexivity.
    + apply (startswith_token_other (str_of_N x) (of_string "0")
               (" "%char :: "R"%char :: rest)); try done;
        first [by repeat constructor|congruence].
  - apply find_none_cons; [by apply startswith_token_nondigit|].
    apply find_none_cons; [by apply startswith_token_nondigit|done].
Qed.

Lemma find_token_keep (x y : N) (rest : str) :
  (forall pre, str_of_N y <> pre ++ str_of_N x) ->
  find (ref_token x) rest = None ->
  find (ref_token x) (ref_token y ++ rest) = None
  /\ find (ref_token x) (chr_space :: ref_token y ++ rest) = None.
Proof.
  intros Hsuf Hr. destruct (str_of_N_digits y) as [Hdy _].
  assert (H1 : find (ref_token x) (ref_token y ++ rest) = None).
  { unfold ref_token at 2. rewrite <- app_assoc.
    apply find_token_digits; [done| |done|by apply find_token_tail].
    intros pre d3 Hy ->. by apply (Hsuf pre). }
  split; [done|]. apply find_none_cons; [by apply startswith_token_nondigit|done].
Qed.

Lemma find_token_spaced (x : N) : forall ys,
  x ∉ ys -> no_suffix_clash x ys ->
  find (ref_token x) (spaced ys ++ [chr_rbracket]) = None.
Proof.
  induction ys as [|y ys IH]; intros Hx Hc.
  - cbn. apply find_none_cons; [by apply startswith_token_nondigit|].
    cbn. destruct (ref_token_head x) as (e & t & -> & _). done.
  - unfold spaced. rewrite bind_cons. fold (spaced ys). cbn [app].
    rewrite <- app_assoc. apply find_token_keep.
    + intros pre Hy. apply Hx. apply elem_of_cons. left. symmetry.
      apply (Hc y pre); [by left|done].
    + apply IH.
      * intros H. apply Hx. by right.
      * intros z pre Hz. apply Hc. by right.
Qed.

Lemma find_token_flat (x : N) (l : list N) :
  x ∉ l -> no_suffix_clash x l -> contains (ref_token x) (flat_array l) = false.
Proof.
  intros Hx Hc. unfold contains.
  assert (H : find (ref_token x) (flat_array l) = None); [|by rewrite H].
  unfold flat_array. apply find_none_cons; [by apply startswith_token_nondigit|].
  destruct l as [|y ys].
  - apply (find_token_spaced x [] Hx Hc).
  - rewrite tokens_spaced, <- app_assoc. apply find_token_keep.
    + intros pre Hy. apply Hx. apply elem_of_cons. left. symmetry.
      apply (Hc y pre); [by left|done].
    + apply find_token_spaced.
      * intros H. apply Hx. by right.
      * intros z pre Hz. apply Hc. by right.
Qed.

Lemma spaced_app (l1 l2 : list N) : spaced (l1 ++ l2) = spaced l1 ++ spaced l2.
Proof. unfold spaced. apply bind_app. Qed.

Lemma tokens_drop (l : list N) : tokens l = skipn 1 (spaced l).
Proof.
  destruct l as [|y ys]; [done|]. rewrite tokens_spaced.
  unfold spaced. by rewrite bind_cons.
Qed.

Lemma flat_array_split (y : N) (l : list N) :
  y ∈ l -> exists pre post, flat_array l = pre ++ ref_token y ++ post.
Proof.
  intros Hy. apply list_elem_of_split in Hy as (l1 & l2 & ->).
  unfold flat_array. rewrite tokens_drop, spaced_app.
  assert (Hs : spaced (y :: l2) = chr_space :: ref_token y ++ spaced l2).
  { unfold spaced. by rewrite bind_cons. }
  rewrite Hs. destruct l1 as [|z l1].
  - exists [chr_lbracket], (spaced l2 ++ [chr_rbracket]).
    change (spaced []) with (@nil ascii). cbn [app skipn]. rewrite drop_0.
    by rewrite <- app_assoc.
  - assert (Hz : spaced (z :: l1) = chr_space :: ref_token z ++ spaced l1).
    { unfold spaced. by rewrite bind_cons. }
    rewrite Hz. cbn [app skipn]. rewrite drop_0.
    exists (chr_lbracket :: (ref_token z ++ spaced l1) ++ [chr_space]),
      (spaced l2 ++ [chr_rbracket]).
    cbn [app]. f_equal. rewrite <- !app_assoc. cbn [app].
    by rewrite <- !app_assoc.
Qed.

Lemma rstrip_bracket_flat (l : list N) :
  rstrip_bracket (flat_array l) = chr_lbracket :: tokens l.
Proof.
  unfold rstrip_bracket, flat_array.
  change (chr_lbracket :: tokens l ++ [chr_rbracket])
    with ((chr_lbracket :: tokens l) ++ [chr_rbracket]).
  rewrite rev_unit. cbn [span]. change (eqc chr_rbracket chr_rbracket) with true.
  cbn iota.
  assert (H : exists c t, rev (chr_lbracket :: tokens l) = c :: t
                          /\ eqc chr_rbracket c = false).
  { destruct l as [|y ys].
    - by exists chr_lbracket, [].
    - rewrite tokens_spaced.
      assert (Hend : exists s, ref_token y ++ spaced ys = s ++ ["R"%char]).
      { destruct ys as [|z zs _] using rev_ind.
        - exists (str_of_N y ++ of_string " 0 ").
          change (spaced []) with (@nil ascii). rewrite app_nil_r.
          unfold ref_token. by rewrite <- app_assoc.
        - rewrite spaced_app.
          assert (Hz : spaced [z] = chr_space :: str_of_N z ++ of_string " 0 R").
          { unfold spaced. rewrite bind_cons. cbn [app]. unfold ref_token.
            change (@nil N ≫= _) with (@nil ascii). by rewrite app_nil_r. }
          rewrite Hz.
          exists (ref_token y ++ spaced zs ++ chr_space :: str_of_N z ++ of_string " 0 ").
          rewrite <- !app_assoc. cbn [app]. rewrite <- !app_assoc. done. }
      destruct Hend as [s ->].
      change (chr_lbracket :: s ++ ["R"%char]) with ((chr_lbracket :: s) ++ ["R"%char]).
      rewrite rev_unit. by eexists _, _. }
  destruct H as (c & t & Hrev & Hc). rewrite Hrev. cbn [span]. rewrite Hc.
  cbn [snd]. by rewrite <- Hrev, rev_involutive.
Qed.

Lemma add_flat_absent (x : N) (l : list N) :
  x ∉ l -> no_suffix_clash x l -> l <> [] ->
  add_to_array (flat_array l) (ref_token x) = flat_array (l ++ [x]).
Proof.
  intros Hx Hc Hne. unfold add_to_array.
  replace (negb (Reader.truthy (flat_array l))
           || str_eqb (flat_array l) (of_string "null")) with false by done.
  rewrite find_token_flat by done. rewrite rstrip_bracket_flat.
  unfold flat_array. cbn [app]. f_equal.
  destruct l as [|y ys]; [done|]. rewrite !tokens_spaced.
  change ((y :: ys) ++ [x]) with (y :: (ys ++ [x])).
  rewrite tokens_spaced, spaced_app. unfold spaced at 3. rewrite bind_cons.
  cbn. rewrite app_nil_r, <- !app_assoc. done.
Qed.

(** X22 (document.ts, add_to_array): on a flat array that is not empty, a
    reference that is not in it, and whose digits end no number of it, is
    appended after a space.  The test for membership looks for the token as
    a piece of text, so the array is returned as it is not only when it holds
    the reference but also when it holds a number that ends with the digits
    of the reference; the array [[]] gets a space before the token. *)
Theorem add_to_array_flat (x : N) (l : list N) :
  (forall y d, y ∈ l -> str_of_N y = d ++ str_of_N x ->
     add_to_array (flat_array l) (ref_token x) = flat_array l)
  /\ (x ∉ l -> no_suffix_clash x l -> l <> [] ->
      add_to_array (flat_array l) (ref_token x) = flat_array (l ++ [x]))
  /\ add_to_array (flat_array []) (ref_token x)
     = of_string "[ " ++ ref_token x ++ of_string "]".
Proof.
  split; [|split; [apply add_flat_absent|]].
  - intros y d Hy Hyd. unfold add_to_array.
    replace (negb (Reader.truthy (flat_array l))
             || str_eqb (flat_array l) (of_string "null")) with false by done.
    destruct (flat_array_split y l Hy) as (pre & post & ->).
    unfold ref_token at 2. rewrite Hyd. fold (ref_token x).
    replace (pre ++ ((d ++ str_of_N x) ++ of_string " 0 R") ++ post)
      with ((pre ++ d) ++ ref_token x ++ post).
    2: { unfold ref_token. by rewrite <- !app_assoc. }
    by rewrite contains_middle.
  - unfold add_to_array.
    replace (negb (Reader.truthy (flat_array []))
             || str_eqb (flat_array []) (of_string "null")) with false by done.
    rewrite (find_token_flat x []);
      [done|by intros H%elem_of_nil|by intros y pre H%elem_of_nil].
Qed.

Lemma worth_writing_flat (l : list N) : l <> [] -> worth_writing (flat_array l) = true.
Proof.
  intros Hl. destruct l as [|y ys]; [done|]. unfold worth_writing.
  apply andb_true_iff. split; [done|]. apply negb_true_iff.
  unfold str_eqb. apply bool_decide_eq_false. unfold flat_array.
  rewrite tokens_spaced. destruct (ref_token_head y) as (c & t & -> & Hc).
  intros [= ->]. done.
Qed.

(** X23 (document.ts, setLayerVisibility): on a default configuration whose
    [ON] and [OFF] arrays are flat, with no number ending with the digits of
    the layer's, showing or hiding a layer that is not yet in the array it
    goes to appends it there and takes it out of the other array, which is
    written when it is not left empty; no other key changes. *)
Theorem setLayerVisibility_flat (d : Doc) (x : N) (on : bool) (d_xref : N)
    (d_path : string) (add_l rem_l : list N) :
  let add_key := key_under d_path (if on then "ON" else "OFF") in
  let rem_key := key_under d_path (if on then "OFF" else "ON") in
  locate_config d = Some (Some (d_xref, d_path)) ->
  xref_get_key d d_xref add_key = Some ("array"%string, flat_array add_l) ->
  xref_get_key d d_xref rem_key = Some ("array"%string, flat_array rem_l) ->
  x ∉ add_l -> add_l <> [] -> no_suffix_clash x add_l -> no_suffix_clash x rem_l ->
  filter (fun y => y <> x) rem_l <> [] ->
  exists d',
    setLayerVisibility d x on = Some d'
    /\ xref_get_key d' d_xref add_key = Some ("array"%string, flat_array (add_l ++ [x]))
    /\ xref_get_key d' d_xref rem_key
       = Some ("array"%string, flat_array (filter (fun y => y <> x) rem_l))
    /\ forall xr k, xr <> d_xref \/ (k <> add_key /\ k <> rem_key) ->
         xref_get_key d' xr k = xref_get_key d xr k.
Proof.
  intros add_key rem_key Hloc Hadd Hrem Hx Hne Hca Hcr Hleft.
  destruct (key_under_differ d_path) as [Hk1 Hk2].
  assert (Hset : forall k1 k2 v1 v2 xr k,
            xr <> d_xref \/ (k <> k1 /\ k <> k2) ->
            xref_get_key (xref_set_key (xref_set_key d d_xref k1 v1) d_xref k2 v2) xr k
            = xref_get_key d xr k).
  { intros k1 k2 v1 v2 xr k Hor. cbn.
    destruct (N.eqb_spec xr d_xref) as [->|Hxr]; [|done].
    destruct Hor as [?|[H1 H2]]; [done|].
    apply String.eqb_neq in H1, H2. by rewrite H1, H2. }
  unfold setLayerVisibility. rewrite Hloc. cbn [mbind option_bind].
  subst add_key rem_key. destruct on.
  - rewrite Hadd, Hrem. cbn [mbind option_bind].
    change (array_or_empty ("array"%string, flat_array add_l)) with (flat_array add_l).
    change (array_or_empty ("array"%string, flat_array rem_l)) with (flat_array rem_l).
    rewrite add_flat_absent by done.
    rewrite remove_flat by done. rewrite worth_writing_flat by done.
    eexists. split; [reflexivity|]. split; [|split].
    + cbn. by rewrite N.eqb_refl, String.eqb_refl, Hk1.
    + cbn. by rewrite N.eqb_refl, String.eqb_refl.
    + intros xr k Hor. apply Hset. tauto.
  - rewrite Hadd, Hrem. cbn [mbind option_bind].
    change (array_or_empty ("array"%string, flat_array add_l)) with (flat_array add_l).
    change (array_or_empty ("array"%string, flat_array rem_l)) with (flat_array rem_l).
    rewrite add_flat_absent by done.
    rewrite remove_flat by done. rewrite worth_writing_flat by done.
    eexists. split; [reflexivity|]. split; [|split].
    + cbn. by rewrite N.eqb_refl, String.eqb_refl, Hk2.
    + cbn. by rewrite N.eqb_refl, String.eqb_refl.
    + intros xr k Hor. apply Hset. tauto.
Qed.

End AdditionFacts.

(** Showing group B of the sample: it joins A in [ON] and leaves C alone in
    [OFF]. *)
Lemma setLayerVisibility_flat_witness :
  exists d',
    Visibility.setLayerVisibility SampleVisibility.doc_two_hidden 6 true = Some d'
    /\ Engine.xref_get_key d' 1 "OCProperties/D/ON"
       = Some ("array"%string, Py.of_string "[5 0 R 6 0 R]")
    /\ Engine.xref_get_key d' 1 "OCProperties/D/OFF"
       = Some ("array"%string, Py.of_string "[7 0 R]").
Proof.
  destruct (setLayerVisibility_flat SampleVisibility.doc_two_hidden 6 true 1
              "OCProperties/D" [5%N] [6; 7]%N) as (d' & H1 & H2 & H3 & _).
  - reflexivity.
  - reflexivity.
  - reflexivity.
  - apply not_elem_of_cons. split; [done|apply not_elem_of_nil].
  - done.
  - intros y pre Hy.
    repeat (apply elem_of_cons in Hy as [->|Hy]); [|by apply elem_of_nil in Hy];
      intros H; destruct pre as [|? [|? ?]]; done.
  - intros y pre Hy.
    repeat (apply elem_of_cons in Hy as [->|Hy]); [| |by apply elem_of_nil in Hy];
      intros H; try done; destruct pre as [|? [|? ?]]; done.
  - done.
  - exists d'. split; [exact H1|]. split; [exact H2|exact H3].
Defined.

(** ** Deleting a layer *)

Section DeletionFacts.
Import Py Engine Visibility Arrays Deletion.

Ltac len_lia :=
  repeat (cbn [length app of_string list_ascii_of_string] in *;
          rewrite ?length_app in * );
  lia.

Lemma findall_skip c (s : str) fuel :
  isdecimal c = false -> (length (c :: s) < fuel)%nat ->
  findall_refs_from fuel (c :: s) = findall_refs_from fuel s.
Proof.
  intros Hc Hf. destruct fuel as [|f]; [lia|].
  rewrite (findall_refs_from_enough (S f) f s) by (cbn in *; lia).
  cbn [findall_refs_from]. unfold match_ref. cbn [span]. by rewrite Hc.
Qed.

Lemma findall_token (y : N) (rest : str) fuel :
  (length (ref_token y ++ rest) < fuel)%nat ->
  findall_refs_from fuel (ref_token y ++ rest) = y :: findall_refs_from fuel rest.
Proof.
  intros Hf. destruct fuel as [|f]; [lia|].
  rewrite (findall_refs_from_enough (S f) f rest) by (unfold ref_token in *; len_lia).
  cbn [findall_refs_from]. by rewrite match_ref_token, drop_app_length.
Qed.

Lemma findall_spaced fuel : forall ys,
  (length (spaced ys ++ [chr_rbracket]) < fuel)%nat ->
  findall_refs_from fuel (spaced ys ++ [chr_rbracket]) = ys.
Proof.
  induction ys as [|y ys IH]; intros Hf.
  - change (spaced [] ++ [chr_rbracket]) with [chr_rbracket] in *.
    rewrite findall_skip by (done || len_lia). by destruct fuel.
  - unfold spaced in *. rewrite bind_cons in *. fold (spaced ys) in *.
    cbn [app] in *. rewrite <- app_assoc in *.
    rewrite findall_skip by done. rewrite findall_token by len_lia.
    f_equal. apply IH. len_lia.
Qed.

Lemma findall_flat (xs : list N) : findall_refs (flat_array xs) = xs.
Proof.
  unfold findall_refs, flat_array. rewrite findall_skip by (done || lia).
  destruct xs as [|y ys].
  - apply (findall_spaced _ []). cbn. lia.
  - rewrite tokens_spaced, <- app_assoc. rewrite findall_token by len_lia.
    f_equal. apply findall_spaced. len_lia.
Qed.

(** X20 (document.ts, remove_from_array): on a flat array in which no other
    number ends with the digits of the reference, the helper returns the
    flat array of the references that are left, in their order: every
    occurrence of the reference is taken out, the text is read back as those
    references and no longer holds the token. *)
Theorem remove_from_array_flat (x : N) (xs : list N) :
  no_suffix_clash x xs ->
  remove_from_array x (flat_array xs) = flat_array (filter (fun y => y <> x) xs)
  /\ findall_refs (remove_from_array x (flat_array xs)) = filter (fun y => y <> x) xs
  /\ contains (ref_token x) (remove_from_array x (flat_array xs)) = false.
Proof.
  intros Hc. rewrite remove_flat by done.
  split; [done|]. split; [apply findall_flat|].
  apply find_token_flat.
  - intros H. apply list_elem_of_filter in H as [H _]. by apply H.
  - intros y pre Hy. apply list_elem_of_filter in Hy as [_ Hy]. by apply Hc.
Qed.

Lemma str_of_Z_N (n : N) : str_of_Z (Z.of_N n) = str_of_N n.
Proof. destruct n; done. Qed.

Lemma update_key_other target d_xref key (d : Doc) xr k :
  k <> key -> xref_get_key (update_key target d_xref key d) xr k = xref_get_key d xr k.
Proof.
  intros Hk. unfold update_key.
  destruct (xref_get_key d d_xref key) as [[tk val]|]; [|done].
  destruct (negb (String.eqb tk "null") && Reader.truthy val); [|done].
  cbn. apply String.eqb_neq in Hk. by rewrite Hk, andb_false_r.
Qed.

Lemma deleteOCG_target (d : Doc) (layerNumber : Z) (xs : list N) (target : N)
    (v0 : str) :
  xref_get_key d (pdf_catalog d) "OCProperties" = Some ("dict"%string, v0) ->
  xref_get_key d (pdf_catalog d) "OCProperties/OCGs"
    = Some ("array"%string, flat_array xs) ->
  is_Some (xref_get_key d (pdf_catalog d) "OCProperties/D") ->
  (if (layerNumber <? 0) || (layerNumber >=? Z.of_nat (length xs))
   then layerNumber
   else Z.of_N (nth (Z.to_nat layerNumber) xs 0%N)) = Z.of_N target ->
  no_suffix_clash target xs ->
  exists d' v,
    deleteOCG d layerNumber = Some d'
    /\ xref_get_key d' (pdf_catalog d) "OCProperties/OCGs" = Some ("array"%string, v)
    /\ findall_refs v = filter (fun y => y <> target) xs.
Proof.
  intros Hprops Hocgs [[tD vD] HD] Ht Hc.
  unfold deleteOCG. rewrite Hprops. cbn [mbind option_bind String.eqb Ascii.eqb Bool.eqb].
  rewrite Hocgs. cbn [mbind option_bind].
  replace (String.eqb "array" "null" || negb (Reader.truthy (flat_array xs)))
    with false by done.
  rewrite findall_flat, Ht.
  unfold remove_xref_from_array. rewrite str_of_Z_N.
  rewrite (pass1_flat target _ xs Hc) by lia.
  set (v := chr_lbracket :: _ ++ [chr_rbracket]).
  set (d1 := xref_set_key d (pdf_catalog d) "OCProperties/OCGs" v).
  assert (HD1 : xref_get_key d1 (pdf_catalog d) "OCProperties/D" = Some (tD, vD)).
  { subst d1. cbn. by rewrite andb_false_r. }
  rewrite HD1. cbn [mbind option_bind].
  assert (Hv : findall_refs v = filter (fun y => y <> target) xs).
  { subst v. unfold findall_refs. rewrite findall_skip by (done || lia).
    destruct xs as [|y ys]; [apply (findall_spaced _ []); cbn; lia|].
    destruct (decide (y = target)) as [->|Hy].
    - rewrite filter_cons_False by (intros H; by apply H).
      cbn [app]. apply findall_spaced. len_lia.
    - rewrite filter_cons_True by done. rewrite <- app_assoc.
      rewrite findall_token by len_lia. f_equal. apply findall_spaced. len_lia. }
  assert (Hget1 : xref_get_key d1 (pdf_catalog d) "OCProperties/OCGs"
                  = Some ("array"%string, v)).
  { subst d1. cbn. by rewrite N.eqb_refl. }
  assert (Hkeys : forall t0 x0 p (e : Doc),
    p = "OCProperties/D/"%string \/ p = ""%string ->
    xref_get_key (update_keys t0 x0 p e) (pdf_catalog d) "OCProperties/OCGs"
    = xref_get_key e (pdf_catalog d) "OCProperties/OCGs").
  { intros t0 x0 p e [->| ->]; unfold update_keys; cbn [fold_left];
      by rewrite !update_key_other by done. }
  destruct (String.eqb tD "dict").
  - eexists _, v. split; [reflexivity|]. split; [|done].
    rewrite Hkeys; [done|by left].
  - destruct (negb (String.eqb tD "null")).
    + destruct (search_indirect vD) as [dx|].
      * eexists _, v. split; [reflexivity|]. split; [|done].
        rewrite Hkeys; [done|by right].
      * by eexists _, v.
    + by eexists _, v.
Qed.

(** X24 (document.ts, deleteOCG): the layer number is an index into the
    [OCGs] array.  With inline properties and a flat array in which no
    number ends with the digits of the reference at that index, the script
    ends without an exception and the array it leaves is read back as the
    references that were there, without that one. *)
Theorem deleteOCG_flat (d : Doc) (i : nat) (xs : list N) (target : N) (v0 : str) :
  xref_get_key d (pdf_catalog d) "OCProperties" = Some ("dict"%string, v0) ->
  xref_get_key d (pdf_catalog d) "OCProperties/OCGs"
    = Some ("array"%string, flat_array xs) ->
  is_Some (xref_get_key d (pdf_catalog d) "OCProperties/D") ->
  xs !! i = Some target ->
  no_suffix_clash target xs ->
  exists d' v,
    deleteOCG d (Z.of_nat i) = Some d'
    /\ xref_get_key d' (pdf_catalog d) "OCProperties/OCGs" = Some ("array"%string, v)
    /\ findall_refs v = filter (fun y => y <> target) xs.
Proof.
  intros Hprops Hocgs HD Hi Hc.
  pose proof (lookup_lt_Some _ _ _ Hi) as Hlt.
  apply (deleteOCG_target d (Z.of_nat i) xs target v0); try done.
  destruct (Z.ltb_spec (Z.of_nat i) 0) as [?|_]; [lia|].
  destruct (Z.geb_spec (Z.of_nat i) (Z.of_nat (length xs))) as [?|_]; [lia|].
  cbn [orb]. rewrite Nat2Z.id. by rewrite (nth_lookup_Some _ _ _ _ Hi).
Qed.

(** X25 (document.ts, deleteOCG): a layer number that is not an index of the
    [OCGs] array is taken for an object number: the references equal to it
    are taken out of the array, and the script ends without an exception
    also when there is none. *)
Theorem deleteOCG_number_as_reference (d : Doc) (n : N) (xs : list N) (v0 : str) :
  xref_get_key d (pdf_catalog d) "OCProperties" = Some ("dict"%string, v0) ->
  xref_get_key d (pdf_catalog d) "OCProperties/OCGs"
    = Some ("array"%string, flat_array xs) ->
  is_Some (xref_get_key d (pdf_catalog d) "OCProperties/D") ->
  (length xs <= N.to_nat n)%nat ->
  no_suffix_clash n xs ->
  exists d' v,
    deleteOCG d (Z.of_N n) = Some d'
    /\ xref_get_key d' (pdf_catalog d) "OCProperties/OCGs" = Some ("array"%string, v)
    /\ findall_refs v = filter (fun y => y <> n) xs.
Proof.
  intros Hprops Hocgs HD Hn Hc.
  apply (deleteOCG_target d (Z.of_N n) xs n v0); try done.
  destruct (Z.geb_spec (Z.of_N n) (Z.of_nat (length xs))) as [_|?]; [|lia].
  by rewrite orb_true_r.
Qed.

End DeletionFacts.

(** Deleting the layer 1 of the sample, group B: object 6 leaves the list. *)
Lemma deleteOCG_flat_witness :
  exists d' v,
    Deletion.deleteOCG SampleVisibility.doc_two_hidden 1 = Some d'
    /\ Engine.xref_get_key d' 1 "OCProperties/OCGs" = Some ("array"%string, v)
    /\ Py.findall_refs v = [5; 7]%N.
Proof.
  apply (deleteOCG_flat SampleVisibility.doc_two_hidden 1 [5; 6; 7]%N 6
           (Py.of_string "<<...>>")).
  - reflexivity.
  - reflexivity.
  - by eexists.
  - reflexivity.
  - intros y pre Hy.
    repeat (apply elem_of_cons in Hy as [->|Hy]); [| | |by apply elem_of_nil in Hy];
      intros H; try done; destruct pre as [|? [|? ?]]; done.
Defined.

(** The sample has three groups; "layer 7" is taken for object 7, group C. *)
Lemma deleteOCG_number_as_reference_witness :
  exists d' v,
    Deletion.deleteOCG SampleVisibility.doc_two_hidden 7 = Some d'
    /\ Engine.xref_get_key d' 1 "OCProperties/OCGs" = Some ("array"%string, v)
    /\ Py.findall_refs v = [5; 6]%N.
Proof.
  apply (deleteOCG_number_as_reference SampleVisibility.doc_two_hidden 7 [5; 6; 7]%N
           (Py.of_string "<<...>>")).
  - reflexivity.
  - reflexivity.
  - by eexists.
  - vm_compute. lia.
  - intros y pre Hy.
    repeat (apply elem_of_cons in Hy as [->|Hy]); [| | |by apply elem_of_nil in Hy];
      intros H; try done; destruct pre as [|? [|? ?]]; done.
Defined.

(** Taking 6 out of [[5 0 R 6 0 R 7 0 R]]. *)
Lemma remove_from_array_flat_witness :
  Visibility.remove_from_array 6 (Arrays.flat_array [5; 6; 7]%N)
  = Arrays.flat_array [5; 7]%N.
Proof.
  apply (remove_from_array_flat 6 [5; 6; 7]%N).
  intros y pre Hy.
  repeat (apply elem_of_cons in Hy as [->|Hy]); [| |
    |by apply elem_of_nil in Hy]; intros H; try done;
    destruct pre as [|? [|? ?]]; done.
Defined.

(** ** A child added to a flat ordering array *)

Section AttachFacts.
Import Py Editor Reader Arrays.

Ltac len_lia :=
  repeat (cbn [length app of_string list_ascii_of_string] in *;
          rewrite ?length_app in * );
  lia.

(** *** Step 1 *)

Lemma rcl_nomatch fuel (c_ref : str) char (rest' : str) depth :
  eqc char chr_lbracket = false -> eqc char chr_rbracket = false ->
  startswith c_ref (char :: rest') = false ->
  (length (char :: rest') < fuel)%nat ->
  remove_child_loop fuel c_ref (char :: rest') depth false
  = char :: remove_child_loop fuel c_ref rest' depth false.
Proof.
  intros Hl Hr Hs Hf. destruct fuel as [|f]; [lia|].
  rewrite (remove_child_loop_enough c_ref (S f) f rest' depth) by (cbn in *; lia).
  cbn [remove_child_loop]. rewrite Hl, Hr, Hs.
  by rewrite andb_false_r.
Qed.

Lemma rcl_digits fuel (x : N) (t : str) depth : forall d' : str,
  Forall (fun c => isdecimal c = true) d' ->
  (forall pre d'', d' = pre ++ d'' -> d'' <> [] -> d'' <> str_of_N x) ->
  match t with [] => True | c :: _ => isdecimal c = false end ->
  (length (d' ++ t) < fuel)%nat ->
  remove_child_loop fuel (ref_token x) (d' ++ t) depth false
  = d' ++ remove_child_loop fuel (ref_token x) t depth false.
Proof.
  destruct (str_of_N_digits x) as [Hdx _].
  induction d' as [|e d IH]; intros Hd Hsuf Ht Hf; [done|].
  inversion Hd as [|? ? He Hd']; subst.
  destruct (decimal_char e He) as (Hlb & Hrb & _ & _).
  cbn [app]. rewrite rcl_nomatch; try done.
  - f_equal. apply IH; [done| |done|len_lia].
    intros pre d3 ->. by apply (Hsuf (e :: pre)).
  - apply (startswith_token_other (str_of_N x) (e :: d) t); try done.
    by apply (Hsuf []).
Qed.

Lemma startswith_token_zero (x : N) (rest : str) :
  startswith (ref_token x) (of_string "0 R" ++ rest) = false.
Proof.
  destruct (str_of_N_digits x) as [Hdx _].
  destruct (decide (str_of_N x = of_string "0")) as [H0|H0].
  - unfold ref_token. rewrite H0. reflexivity.
  - apply (startswith_token_other (str_of_N x) (of_string "0")
             (" "%char :: "R"%char :: rest)); try done;
      first [by repeat constructor|congruence].
Qed.

Lemma rcl_tail fuel (x : N) (rest : str) depth :
  (length (of_string " 0 R" ++ rest) < fuel)%nat ->
  remove_child_loop fuel (ref_token x) (of_string " 0 R" ++ rest) depth false
  = of_string " 0 R" ++ remove_child_loop fuel (ref_token x) rest depth false.
Proof.
  intros Hf. cbn [of_string list_ascii_of_string app] in *.
  rewrite rcl_nomatch; [|done|done|by apply startswith_token_nondigit|done].
  rewrite rcl_nomatch; [|done|done|apply (startswith_token_zero x rest)|len_lia].
  rewrite rcl_nomatch; [|done|done|by apply startswith_token_nondigit|len_lia].
  rewrite rcl_nomatch; [|done|done|by apply startswith_token_nondigit|len_lia].
  done.
Qed.

Lemma rcl_token fuel (x y : N) (rest : str) depth :
  (forall pre, str_of_N y <> pre ++ str_of_N x) ->
  (length (ref_token y ++ rest) < fuel)%nat ->
  remove_child_loop fuel (ref_token x) (ref_token y ++ rest) depth false
  = ref_token y ++ remove_child_loop fuel (ref_token x) rest depth false.
Proof.
  intros Hsuf Hf. destruct (str_of_N_digits y) as [Hdy _].
  unfold ref_token at 2 3. rewrite <- !app_assoc.
  rewrite rcl_digits; [|done| |done|unfold ref_token in *; len_lia].
  - rewrite rcl_tail; [done|]. unfold ref_token in *. len_lia.
  - intros pre d3 Hy _ ->. by apply (Hsuf pre).
Qed.

Lemma rcl_token_sp fuel (x y : N) (rest : str) depth :
  (forall pre, str_of_N y <> pre ++ str_of_N x) ->
  (length (chr_space :: ref_token y ++ rest) < fuel)%nat ->
  remove_child_loop fuel (ref_token x) (chr_space :: ref_token y ++ rest) depth false
  = chr_space :: ref_token y ++ remove_child_loop fuel (ref_token x) rest depth false.
Proof.
  intros Hsuf Hf.
  rewrite rcl_nomatch; [|done|done| |done].
  - rewrite rcl_token; [done|done|]. cbn in Hf. lia.
  - by apply startswith_token_nondigit.
Qed.

Lemma rcl_spaced fuel (x : N) (rest : str) depth : forall ys,
  x ∉ ys -> no_suffix_clash x ys ->
  (length (spaced ys ++ rest) < fuel)%nat ->
  remove_child_loop fuel (ref_token x) (spaced ys ++ rest) depth false
  = spaced ys ++ remove_child_loop fuel (ref_token x) rest depth false.
Proof.
  induction ys as [|y ys IH]; intros Hx Hc Hf; [done|].
  unfold spaced in *. rewrite bind_cons in *. fold (spaced ys) in *.
  cbn [app] in *. rewrite <- !app_assoc in *.
  rewrite rcl_token_sp; [| |done].
  - rewrite IH; [done| | |len_lia].
    + intros H. apply Hx. by right.
    + intros z pre Hz. apply Hc. by right.
  - intros pre Hy. apply Hx. apply elem_of_cons. left. symmetry.
    apply (Hc y pre); [by left|done].
Qed.

Lemma rcl_match fuel (x : N) :
  (length (ref_token x ++ [chr_rbracket]) < fuel)%nat ->
  remove_child_loop fuel (ref_token x) (ref_token x ++ [chr_rbracket]) 1 false
  = [chr_rbracket].
Proof.
  intros Hf. destruct fuel as [|f]; [lia|].
  destruct (ref_token_head x) as (e & t & Ht & He).
  destruct (decimal_char e He) as (Hlb & Hrb & _ & _).
  assert (Hlen : (1 <= f)%nat) by (rewrite Ht in Hf; cbn in Hf; lia).
  cbn [remove_child_loop].
  destruct (ref_token x ++ [chr_rbracket]) as [|e' r] eqn:Hs; [by rewrite Ht in Hs|].
  assert (e' = e) as -> by (rewrite Ht in Hs; by inversion Hs).
  rewrite Hlb, Hrb. rewrite <- Hs.
  rewrite startswith_prefix. unfold boundary_ok.
  rewrite nth_error_middle. change (eqc chr_rbracket chr_rbracket) with true.
  rewrite orb_true_r. cbn [negb andb Z.eqb Pos.eqb].
  rewrite drop_app_length. rewrite lstrip_nonspace by done.
  apply remove_child_loop_removed. cbn. lia.
Qed.

Lemma step1_flat (c y : N) (ys : list N) :
  c ∉ y :: ys -> no_suffix_clash c (y :: ys) ->
  remove_child_from_root (flat_array (y :: ys ++ [c])) (ref_token c)
  = chr_lbracket :: ref_token y ++ spaced ys ++ of_string " ]".
Proof.
  intros Hc Hcl. unfold remove_child_from_root, flat_array.
  rewrite tokens_spaced, spaced_app.
  assert (Hsc : spaced [c] = chr_space :: ref_token c).
  { unfold spaced. rewrite bind_cons. change (@nil N ≫= _) with (@nil ascii).
    by rewrite app_nil_r. }
  rewrite Hsc. set (fuel := S (length _)).
  assert (Hf : (length (chr_lbracket :: (ref_token y ++ spaced ys ++ chr_space :: ref_token c)
                          ++ [chr_rbracket]) < fuel)%nat) by (subst fuel; lia).
  clearbody fuel. destruct fuel as [|f]; [lia|].
  cbn [remove_child_loop app]. change (eqc chr_lbracket chr_lbracket) with true.
  cbn iota. f_equal. change (0 + 1) with 1.
  cbn [length] in Hf. rewrite <- !app_assoc in *. cbn [app] in *.
  rewrite rcl_token; [| |len_lia].
  2: { intros pre Hy. apply Hc. apply elem_of_cons. left. symmetry.
       apply (Hcl y pre); [by left|done]. }
  f_equal. rewrite rcl_spaced; [| | |len_lia].
  - f_equal. rewrite rcl_nomatch; [|done|done|by apply startswith_token_nondigit|len_lia].
    change (of_string " ]") with (chr_space :: [chr_rbracket]).
    f_equal. apply rcl_match. len_lia.
  - intros H. apply Hc. by right.
  - intros z pre Hz. apply Hcl. by right.
Qed.

(** *** Step 2 *)

Lemma find_some_skip (old : str) c (s : str) k :
  startswith old (c :: s) = false -> find old s = Some k ->
  find old (c :: s) = Some (S k).
Proof. intros H1 H2. cbn [find]. by rewrite H1, H2. Qed.

Lemma find_some_digits (x : N) (t : str) k : forall d' : str,
  Forall (fun c => isdecimal c = true) d' ->
  (forall pre d'', d' = pre ++ d'' -> d'' <> [] -> d'' <> str_of_N x) ->
  match t with [] => True | c :: _ => isdecimal c = false end ->
  find (ref_token x) t = Some k ->
  find (ref_token x) (d' ++ t) = Some (length d' + k)%nat.
Proof.
  destruct (str_of_N_digits x) as [Hdx _].
  induction d' as [|e d IH]; intros Hd Hsuf Ht Hr; [done|].
  cbn [app length Nat.add]. apply find_some_skip.
  - apply (startswith_token_other (str_of_N x) (e :: d) t); try done.
    by apply (Hsuf []).
  - apply IH; [by inversion Hd| |done|done].
    intros pre d3 ->. by apply (Hsuf (e :: pre)).
Qed.

Lemma find_some_token (x y : N) (rest : str) k :
  (forall pre, str_of_N y <> pre ++ str_of_N x) ->
  find (ref_token x) rest = Some k ->
  find (ref_token x) (ref_token y ++ rest) = Some (length (ref_token y) + k)%nat.
Proof.
  intros Hsuf Hr. destruct (str_of_N_digits y) as [Hdy _].
  unfold ref_token at 2 3. rewrite <- app_assoc, length_app.
  rewrite <- Nat.add_assoc. apply find_some_digits; [done| |done|].
  - intros pre d3 Hy _ ->. by apply (Hsuf pre).
  - cbn [of_string list_ascii_of_string app length Nat.add].
    apply find_some_skip; [by apply startswith_token_nondigit|].
    apply find_some_skip; [apply (startswith_token_zero x rest)|].
    apply find_some_skip; [by apply startswith_token_nondigit|].
    apply find_some_skip; [by apply startswith_token_nondigit|done].
Qed.

Lemma find_some_spaced (x : N) (rest : str) k : forall ys,
  x ∉ ys -> no_suffix_clash x ys ->
  find (ref_token x) rest = Some k ->
  find (ref_token x) (spaced ys ++ rest) = Some (length (spaced ys) + k)%nat.
Proof.
  induction ys as [|y ys IH]; intros Hx Hc Hr; [done|].
  unfold spaced. rewrite bind_cons. fold (spaced ys).
  cbn [app length Nat.add]. rewrite <- app_assoc, length_app, <- Nat.add_assoc.
  apply find_some_skip; [by apply startswith_token_nondigit|].
  apply find_some_token.
  - intros pre Hy. apply Hx. apply elem_of_cons. left. symmetry.
    apply (Hc y pre); [by left|done].
  - apply IH; [| |done].
    + intros H. apply Hx. by right.
    + intros z pre Hz. apply Hc. by right.
Qed.

Lemma find_here (old rest : str) : find old (old ++ rest) = Some 0%nat.
Proof. destruct (old ++ rest) eqn:E; cbn [find]; by rewrite <- ?E, startswith_prefix. Qed.

(** The text before the first occurrence of the parent, after the opening
    bracket. *)
Lemma find_parent (p : N) (l1 : list N) (b : str) :
  p ∉ l1 -> no_suffix_clash p l1 ->
  find (ref_token p) (chr_lbracket :: skipn 1 (spaced l1 ++ [chr_space]) ++ ref_token p ++ b)
  = Some (length (chr_lbracket :: skipn 1 (spaced l1 ++ [chr_space]))).
Proof.
  intros Hp Hc. cbn [length].
  apply find_some_skip; [by apply startswith_token_nondigit|].
  destruct l1 as [|y ys].
  - exact (find_here (ref_token p) b).
  - assert (H : find (ref_token p)
                  (ref_token y ++ spaced ys ++ chr_space :: ref_token p ++ b)
                = Some (length (ref_token y) + (length (spaced ys) + 1))%nat).
    { apply find_some_token.
      { intros pre Hy. apply Hp. apply elem_of_cons. left. symmetry.
        apply (Hc y pre); [by left|done]. }
      apply find_some_spaced.
      { intros H. apply Hp. by right. }
      { intros z pre Hz. apply Hc. by right. }
      apply find_some_skip; [by apply startswith_token_nondigit|apply find_here]. }
    unfold spaced. rewrite bind_cons. fold (spaced ys). cbn [app skipn].
    rewrite drop_0, <- !app_assoc. cbn [app]. rewrite H. f_equal. len_lia.
Qed.

Lemma drop_1_app (s r : str) : s <> [] -> skipn 1 (s ++ r) = skipn 1 s ++ r.
Proof. by destruct s. Qed.

Lemma tokens_app_one (l1 : list N) (p : N) :
  tokens (l1 ++ [p]) = skipn 1 (spaced l1 ++ [chr_space]) ++ ref_token p.
Proof.
  rewrite tokens_drop, spaced_app.
  assert (Hp : spaced [p] = [chr_space] ++ ref_token p).
  { unfold spaced. rewrite bind_cons. change (@nil N ≫= _) with (@nil ascii).
    by rewrite app_nil_r. }
  rewrite Hp, app_assoc. apply drop_1_app. by destruct (spaced l1).
Qed.

(** What [modify_pdf_order] writes for a child that [add_ocg] put last in a
    flat array. *)
Lemma modify_flat (l1 l2 : list N) (p c : N) :
  p ∉ l1 -> c ∉ l1 ++ p :: l2 ->
  no_suffix_clash p l1 -> no_suffix_clash c (l1 ++ p :: l2) ->
  modify_pdf_order (flat_array ((l1 ++ p :: l2) ++ [c])) (ref_token p) (ref_token c)
  = chr_lbracket :: tokens (l1 ++ [p]) ++ of_string " [" ++ ref_token c
      ++ of_string "]" ++ spaced l2 ++ of_string " ]".
Proof.
  intros Hp Hc Hcp Hcc. unfold modify_pdf_order.
  change (flat_array ((l1 ++ p :: l2) ++ [c]))
    with (chr_lbracket :: tokens ((l1 ++ p :: l2) ++ [c]) ++ [chr_rbracket]) at 1.
  cbv iota.
  assert (Hstep1 : remove_child_from_root (flat_array ((l1 ++ p :: l2) ++ [c])) (ref_token c)
                   = (chr_lbracket :: skipn 1 (spaced l1 ++ [chr_space]))
                       ++ ref_token p ++ (spaced l2 ++ of_string " ]")).
  { destruct (l1 ++ p :: l2) as [|y ys] eqn:Hl; [by destruct l1|].
    change ((y :: ys) ++ [c]) with (y :: ys ++ [c]).
    rewrite (step1_flat c y ys Hc Hcc).
    rewrite (app_assoc (ref_token y)), <- tokens_spaced, <- Hl.
    replace (l1 ++ p :: l2) with ((l1 ++ [p]) ++ l2) by (by rewrite <- app_assoc).
    rewrite tokens_drop, spaced_app, drop_1_app, <- tokens_drop, tokens_app_one.
    - cbn [app]. by rewrite <- !app_assoc.
    - rewrite spaced_app. unfold spaced at 2. rewrite bind_cons.
      by destruct (spaced l1). }
  rewrite Hstep1.
  pose proof (find_parent p l1 (spaced l2 ++ of_string " ]") Hp Hcp) as Hfind.
  assert (Hb : exists x t, spaced l2 ++ of_string " ]" = [chr_space] ++ x :: t
                           /\ isspace x = false /\ x <> chr_lbracket).
  { destruct l2 as [|z zs].
    - by exists chr_rbracket, [].
    - unfold spaced. rewrite bind_cons. fold (spaced zs).
      destruct (ref_token_head z) as (e & t & -> & He).
      destruct (decimal_char e He) as (_ & _ & _ & Hsp).
      exists e, (t ++ spaced zs ++ of_string " ]"). split; [|split; [done|]].
      + cbn [app]. by rewrite <- !app_assoc.
      + intros ->. done. }
  destruct Hb as (x & t & Hb & Hx & Hxl).
  rewrite (insert_child_new (chr_lbracket :: skipn 1 (spaced l1 ++ [chr_space]))
             (ref_token p) (spaced l2 ++ of_string " ]") (ref_token c)
             [chr_space] x t Hfind Hb ltac:(by repeat constructor) Hx Hxl).
  rewrite tokens_app_one. cbn [app]. by rewrite <- !app_assoc.
Qed.

(** *** Reading the result *)

Lemma visit_loop_mono f : forall f' frames rest d p l r,
  visit_loop f frames rest d p l = Some r -> (f <= f')%nat ->
  visit_loop f' frames rest d p l = Some r.
Proof.
  induction f as [|f IH]; intros f' frames rest d p l r H Hle; [done|].
  destruct f' as [|f']; [lia|]. cbn [visit_loop] in *.
  destruct rest as [|char rest']; [done|].
  destruct (eqc char chr_lbracket).
  { destruct frames as [|frames']; [done|].
    destruct (visit_loop f frames' _ (d + 1)%N l 0%N) as [[vs [|]]|] eqn:E1; [| |done].
    - rewrite (IH f' _ _ _ _ _ _ E1) by lia.
      destruct (visit_loop f (S frames') _ d p l) as [[ws ok]|] eqn:E2; [|done].
      by rewrite (IH f' _ _ _ _ _ _ E2) by lia.
    - by rewrite (IH f' _ _ _ _ _ _ E1) by lia. }
  destruct (eqc char chr_rbracket); [apply IH; [done|lia]|].
  destruct (isdigit char); [|apply IH; [done|lia]].
  destruct (match_ref (char :: rest')) as [[xref len]|]; [|apply IH; [done|lia]].
  destruct (visit_loop f frames _ d p xref) as [[ws ok]|] eqn:E; [|done].
  by rewrite (IH f' _ _ _ _ _ _ E) by lia.
Qed.

Lemma visit_space_ex f frames (rest : str) d p l r :
  visit_loop f frames rest d p l = Some r ->
  visit_loop (S f) frames (chr_space :: rest) d p l = Some r.
Proof. intros H. cbn [visit_loop]. exact H. Qed.

Lemma visit_token_ex f frames (n : N) (rest : str) d p l ws ok :
  visit_loop f frames rest d p n = Some (ws, ok) ->
  visit_loop (S f) frames (ref_token n ++ rest) d p l = Some ((n, d, p) :: ws, ok).
Proof. intros H. by rewrite visit_loop_token, H. Qed.

Lemma visit_spaced_ex frames (rest : str) d p ws ok : forall ys f l,
  visit_loop f frames rest d p (fold_left (fun _ y => y) ys l) = Some (ws, ok) ->
  exists f', visit_loop f' frames (spaced ys ++ rest) d p l
             = Some (map (fun y => (y, d, p)) ys ++ ws, ok).
Proof.
  induction ys as [|y ys IH]; intros f l H.
  - by exists f.
  - cbn [fold_left] in H. destruct (IH f y H) as [f' Hf'].
    exists (S (S f')). unfold spaced. rewrite bind_cons. fold (spaced ys).
    cbn [app map]. rewrite <- app_assoc.
    by apply visit_space_ex, visit_token_ex.
Qed.

Lemma scan_close_plain (rest : str) : forall s : str,
  Forall (fun c => eqc c chr_lbracket = false /\ eqc c chr_rbracket = false) s ->
  scan_close (s ++ chr_rbracket :: rest) 1 = S (length s).
Proof.
  induction s as [|c s IH]; intros Hs.
  - cbn [app scan_close length]. change (eqc chr_rbracket chr_lbracket) with false.
    change (eqc chr_rbracket chr_rbracket) with true. cbn [Nat.pred].
    f_equal. by destruct rest.
  - inversion Hs as [|? ? [Hl Hr] Hs']; subst. cbn [app scan_close length].
    rewrite Hl, Hr. f_equal. by apply IH.
Qed.

Lemma token_plain (y : N) :
  Forall (fun c => eqc c chr_lbracket = false /\ eqc c chr_rbracket = false)
    (ref_token y).
Proof.
  destruct (str_of_N_digits y) as [Hd _]. unfold ref_token.
  apply Forall_app. split; [|by repeat constructor].
  eapply Forall_impl; [exact Hd|]. intros c Hc.
  by destruct (decimal_char c Hc) as (? & ? & _).
Qed.

Lemma visit_nested_ex f1 f2 frames (content rest : str) d p l vs ws ok :
  Forall (fun c => eqc c chr_lbracket = false /\ eqc c chr_rbracket = false) content ->
  visit_loop f1 frames content (d + 1)%N l 0%N = Some (vs, true) ->
  visit_loop f2 (S frames) rest d p l = Some (ws, ok) ->
  visit_loop (S (Nat.max f1 f2)) (S frames)
    (chr_lbracket :: content ++ chr_rbracket :: rest) d p l
  = Some (vs ++ ws, ok).
Proof.
  intros Hc H1 H2. cbn [visit_loop].
  change (eqc chr_lbracket chr_lbracket) with true. cbn iota.
  rewrite scan_close_plain by done.
  rewrite Nat.sub_succ, Nat.sub_0_r, take_app_length.
  replace (skipn (S (length content)) (content ++ chr_rbracket :: rest)) with rest.
  2: { rewrite (cons_middle chr_rbracket), app_assoc.
       replace (S (length content)) with (length (content ++ [chr_rbracket])) by len_lia.
       by rewrite drop_app_length. }
  rewrite (visit_loop_mono f1 (Nat.max f1 f2) _ _ _ _ _ _ H1) by lia.
  by rewrite (visit_loop_mono f2 (Nat.max f1 f2) _ _ _ _ _ _ H2) by lia.
Qed.

Lemma inner_order_of_brackets (body : str) :
  inner_order_of (chr_lbracket :: body ++ [chr_rbracket]) = body.
Proof.
  unfold inner_order_of.
  assert (Hs : strip (chr_lbracket :: body ++ [chr_rbracket])
               = chr_lbracket :: body ++ [chr_rbracket]).
  { unfold strip. rewrite lstrip_nonspace by done.
    change (chr_lbracket :: body ++ [chr_rbracket])
      with ((chr_lbracket :: body) ++ [chr_rbracket]).
    by apply rstrip_nonspace. }
  rewrite Hs. cbn [startswith]. change (eqc chr_lbracket chr_lbracket) with true.
  cbn [andb]. unfold endswith.
  change (chr_lbracket :: body ++ [chr_rbracket])
    with ((chr_lbracket :: body) ++ [chr_rbracket]).
  rewrite rev_unit. cbn [rev app startswith].
  change (eqc chr_rbracket chr_rbracket) with true. cbn [andb].
  unfold slice_1_m1, slice. cbn [length skipn]. rewrite length_app. cbn [length].
  replace (S (length body + 1) - 1 - 1)%nat with (length body) by lia.
  change (drop 0 (body ++ [chr_rbracket])) with (body ++ [chr_rbracket]).
  by rewrite take_app_length.
Qed.

(** X26 (document.ts, addOCGWithParent and getLayerConfig): when the new
    group was appended to a flat ordering array, the parent is in the array,
    and no number of the array ends with the digits of the parent's (before
    the parent) or of the child's, the text [modify_pdf_order] writes is read
    back by [parse_order_array] as the groups of the array at the root, in
    their order, and the child at depth 1 under the parent, right after
    it. *)
Theorem child_goes_under_parent (l1 l2 : list N) (p c : N) (frames : nat) :
  p ∉ l1 -> c ∉ l1 ++ p :: l2 ->
  no_suffix_clash p l1 -> no_suffix_clash c (l1 ++ p :: l2) ->
  visit_order_array (S (S frames))
    (inner_order_of
       (modify_pdf_order (flat_array ((l1 ++ p :: l2) ++ [c]))
          (ref_token p) (ref_token c))) 0 0
  = Some (map (fun y => (y, 0, 0)%N) (l1 ++ [p])
            ++ (c, 1, p)%N :: map (fun y => (y, 0, 0)%N) l2, true).
Proof.
  intros Hp Hc Hcp Hcc. rewrite modify_flat by done.
  set (tail := chr_space :: chr_lbracket :: ref_token c
                 ++ chr_rbracket :: spaced l2 ++ [chr_space]).
  replace (chr_lbracket :: tokens (l1 ++ [p]) ++ of_string " [" ++ ref_token c
             ++ of_string "]" ++ spaced l2 ++ of_string " ]")
    with (chr_lbracket :: (tokens (l1 ++ [p]) ++ tail) ++ [chr_rbracket]).
  2: { subst tail. cbn [app of_string list_ascii_of_string].
       repeat (progress (rewrite <- ?app_assoc; cbn [app])). done. }
  rewrite inner_order_of_brackets. unfold visit_order_array.
  (* the traversal, from the end of the text backwards *)
  assert (H1 : forall l, visit_loop 2 (S frames) [chr_space] 0 0 l = Some ([], true))
    by done.
  destruct (visit_spaced_ex (S frames) [chr_space] 0 0 [] true l2 2 p (H1 _))
    as [f2 H2].
  assert (H3 : visit_loop 2 frames (ref_token c) (0 + 1) p 0
               = Some ([(c, 1, p)%N], true)).
  { rewrite <- (app_nil_r (ref_token c)). by apply visit_token_ex. }
  pose proof (visit_nested_ex 2 f2 frames (ref_token c) (spaced l2 ++ [chr_space])
                0 0 p _ _ _ (token_plain c) H3 H2) as H4.
  apply visit_space_ex in H4. fold tail in H4.
  destruct (visit_spaced_ex (S frames) tail 0 0
              ([(c, 1, p)%N] ++ map (fun y => (y, 0, 0)%N) l2 ++ []) true (l1 ++ [p])
              (S (S (Nat.max 2 f2))) 0%N) as [f6 H6].
  { rewrite fold_left_app. exact H4. }
  assert (Hsp : spaced (l1 ++ [p]) = chr_space :: tokens (l1 ++ [p])).
  { rewrite tokens_drop. destruct (l1 ++ [p]) as [|y ys] eqn:E; [by destruct l1|].
    unfold spaced. by rewrite bind_cons. }
  rewrite Hsp in H6. destruct f6 as [|f6]; [done|].
  cbn [app] in H6. cbn [visit_loop] in H6.
  change (eqc chr_space chr_lbracket) with false in H6.
  change (eqc chr_space chr_rbracket) with false in H6.
  change (isdigit chr_space) with false in H6. cbn iota in H6.
  destruct (visit_loop_total (S (length (tokens (l1 ++ [p]) ++ tail))) (S frames)
              (tokens (l1 ++ [p]) ++ tail) 0 0 0 ltac:(lia)) as [r0 Hr0].
  rewrite Hr0.
  pose proof (visit_loop_mono _ (Nat.max (S (length (tokens (l1 ++ [p]) ++ tail))) f6)
                _ _ _ _ _ _ Hr0 ltac:(lia)) as Ha.
  pose proof (visit_loop_mono _ (Nat.max (S (length (tokens (l1 ++ [p]) ++ tail))) f6)
                _ _ _ _ _ _ H6 ltac:(lia)) as Hb.
  rewrite Ha in Hb. inversion Hb; subst. f_equal. f_equal.
  by rewrite app_nil_r.
Qed.

End AttachFacts.

(** Group 9 is added under group 6 of the array [[5 0 R 6 0 R 7 0 R]]. *)
Lemma child_goes_under_parent_witness :
  Reader.visit_order_array 2
    (Reader.inner_order_of
       (Editor.modify_pdf_order (Py.of_string "[5 0 R 6 0 R 7 0 R 9 0 R]")
          (Py.ref_token 6) (Py.ref_token 9))) 0 0
  = Some ([(5, 0, 0); (6, 0, 0); (9, 1, 6); (7, 0, 0)]%N, true).
Proof.
  apply (child_goes_under_parent [5%N] [7%N] 6 9 0).
  - apply not_elem_of_cons. split; [done|apply not_elem_of_nil].
  - intros Hy.
    repeat (apply elem_of_cons in Hy as [Hy|Hy]; [done|]). by apply elem_of_nil in Hy.
  - intros y pre Hy.
    repeat (apply elem_of_cons in Hy as [->|Hy]); [|by apply elem_of_nil in Hy];
      intros H; destruct pre as [|? [|? ?]]; done.
  - intros y pre Hy.
    repeat (apply elem_of_cons in Hy as [->|Hy]); [| | |by apply elem_of_nil in Hy];
      intros H; destruct pre as [|? [|? ?]]; done.
Defined.

Section ConvertFacts.
Import Convert.

Lemma lower_char_dot (c : ascii) : c <> "."%char -> lower_char c <> "."%char.
Proof. destruct c as [[] [] [] [] [] [] [] []]; vm_compute; congruence. Qed.

Lemma split_on_some (c : ascii) : forall s cur, exists r, last (split_on c s cur) = Some r.
Proof.
  induction s as [|x s IH]; intros cur; cbn [split_on]; [by eexists|].
  destruct (Ascii.eqb x c); [|apply IH].
  destruct (IH []) as [r Hr]. exists r. by rewrite last_cons, Hr.
Qed.

Lemma split_on_last_plain (c : ascii) : forall s cur r,
  Forall (fun x => x <> c) cur ->
  last (split_on c s cur) = Some r -> Forall (fun x => x <> c) r.
Proof.
  induction s as [|x s IH]; intros cur r Hcur H; cbn [split_on] in H.
  - inversion H; subst. by apply Forall_rev.
  - destruct (Ascii.eqb x c) eqn:E.
    + destruct (split_on_some c s []) as [r' Hr']. rewrite last_cons, Hr' in H.
      inversion H; subst. by apply (IH [] r).
    + apply (IH (x :: cur) r); [|done]. constructor; [|done].
      intros ->. by rewrite Ascii.eqb_refl in E.
Qed.

Lemma split_on_plain (c : ascii) : forall s cur,
  Forall (fun x => x <> c) s -> split_on c s cur = [rev cur ++ s].
Proof.
  induction s as [|x s IH]; intros cur Hs; cbn [split_on].
  - by rewrite app_nil_r.
  - inversion Hs as [|? ? Hx Hs']; subst.
    destruct (Ascii.eqb x c) eqn:E; [by apply Ascii.eqb_eq in E|].
    rewrite IH by done. cbn [rev]. by rewrite <- app_assoc.
Qed.

Lemma split_on_after (c : ascii) (seg : jstr) : forall pre cur,
  Forall (fun x => x <> c) seg ->
  last (split_on c (pre ++ c :: seg) cur) = Some seg.
Proof.
  induction pre as [|x pre IH]; intros cur Hs; cbn [app split_on].
  - rewrite Ascii.eqb_refl, split_on_plain by done. done.
  - destruct (Ascii.eqb x c); [|by apply IH].
    destruct (split_on_some c (pre ++ c :: seg) []) as [r Hr].
    rewrite last_cons, Hr. by rewrite IH in Hr.
Qed.

(** X28 (pymupdf.ts, convertToPdf): a file type given in the options is
    used as it is; otherwise the type is what follows the last dot of the file
    name, in lower case, and it holds no dot; a name without a dot is its own
    type, so a Blob, which has the name [document], is opened with the file
    type [document]. *)
Theorem convertToPdf_ext (filename : jstr) :
  (forall f, ext_of (Some f) filename = f)
  /\ Forall (fun c => c <> "."%char) (ext_of None filename)
  /\ (Forall (fun c => c <> "."%char) filename ->
      ext_of None filename = toLowerCase filename)
  /\ (forall pre seg,
        filename = pre ++ "."%char :: seg -> Forall (fun c => c <> "."%char) seg ->
        ext_of None filename = toLowerCase seg)
  /\ filetype_arg (ext_of None (filename_of None)) = Some (lit "document").
Proof.
  split; [done|]. split; [|split; [|split]].
  - unfold ext_of, pop, split.
    destruct (split_on_some "." filename []) as [r Hr]. rewrite Hr. cbn.
    apply split_on_last_plain in Hr; [|done].
    unfold toLowerCase. apply Forall_map.
    eapply Forall_impl; [exact Hr|]. intros c. apply lower_char_dot.
  - intros Hn. unfold ext_of, pop, split. by rewrite split_on_plain.
  - intros pre seg -> Hs. unfold ext_of, pop, split. by rewrite split_on_after.
  - reflexivity.
Qed.

End ConvertFacts.
